(** * Command-graph generation and execution in the celerity runtime

    A shallow embedding of the parts of [runtime.cc], [command_graph.h] and the
    buffer transfer manager that the specification makes claims about.

    Data model.  The sources are C++ for an LP64 platform: [size_t] (and the
    identifier types built on it: [node_id], [chunk_id], [buffer_id],
    [command_id]) is a 64-bit unsigned integer, [unsigned] is 32 bits and
    [int] is 32 bits, two's complement.  Machine integers are values of [Z];
    every operation that can leave the range of its type is followed by the
    wrap-around of that type.  Exceptions and failed assertions are values of
    [fault]; a loop whose exit the source leaves to its counter runs on fuel. *)

From Stdlib Require Import ZArith List String Bool Lia Sorted.
From stdpp Require Import gmap list.
Import ListNotations.

(** ** Machine integers, faults and loops *)

Module Machine.
Local Open Scope Z_scope.

Definition SIZE_MAX : Z := 2 ^ 64 - 1.
Definition UINT_MAX : Z := 2 ^ 32 - 1.
Definition INT_MAX : Z := 2 ^ 31 - 1.

(** Arithmetic on [size_t] and on [unsigned] is modulo 2^64 and 2^32. *)
Definition wrap_size (z : Z) : Z := z mod 2 ^ 64.
Definition wrap_uint (z : Z) : Z := z mod 2 ^ 32.

Definition is_size (z : Z) : Prop := 0 <= z <= SIZE_MAX.

(** What ends a call without a result: a failed [assert], a thrown
    [std::runtime_error], the [std::out_of_range] of a container's [at], and
    what the language leaves undefined (overflow of an [int] counter, a
    pointer to no object, the inactive member of a union). *)
Inductive fault : Type :=
  | Assertion_failed (what : string)
  | Runtime_error (what : string)
  | Out_of_range (what : string)
  | Undefined_behaviour (what : string).

(** [OutOfFuel] is the answer of a loop that has not left after the steps it
    was given. *)
Inductive outcome (A : Type) : Type :=
  | Returns (a : A)
  | Throws (f : fault)
  | OutOfFuel.
Arguments Returns {A} a.
Arguments Throws {A} f.
Arguments OutOfFuel {A}.

Definition bind {A B : Type} (m : outcome A) (k : A -> outcome B) : outcome B :=
  match m with
  | Returns a => k a
  | Throws f => Throws f
  | OutOfFuel => OutOfFuel
  end.

Definition assert (b : bool) (what : string) : outcome unit :=
  if b then Returns tt else Throws (Assertion_failed what).

Notation "'do' x <- m ; k" := (bind m (fun x => k))
  (at level 10, x name, m at level 100, k at level 200).
Notation "'check' b 'else' what ; k" := (bind (assert b what) (fun _ => k))
  (at level 10, b at level 100, what at level 0, k at level 200).

(** [for(auto i = first; i < bound; ++i) body], the counter compared with a
    [size_t] bound after conversion.  [incr] is the [++i] of the counter's
    type. *)
Fixpoint for_loop {S : Type} (incr : Z -> outcome Z) (fuel : nat) (bound : Z)
    (body : Z -> S -> outcome S) (i : Z) (s : S) : outcome S :=
  match fuel with
  | O => OutOfFuel
  | Datatypes.S fuel' =>
      if i <? bound then
        do s' <- body i s;
        do i' <- incr i;
        for_loop incr fuel' bound body i' s'
      else Returns s
  end.

(** [auto i = 0u]: an [unsigned] counter wraps. *)
Definition uint_incr (i : Z) : outcome Z := Returns (wrap_uint (i + 1)).

(** [chunk_id i = 0u]: a [size_t] counter wraps at 2^64. *)
Definition size_incr (i : Z) : outcome Z := Returns (wrap_size (i + 1)).

(** [auto n = 1]: an [int] counter must not overflow. *)
Definition int_incr (i : Z) : outcome Z :=
  if i <? INT_MAX then Returns (i + 1) else Throws (Undefined_behaviour "int overflow").

(** The same loop when the counter cannot leave its range: [count] rounds
    from [i] on. *)
Fixpoint iterate {S : Type} (body : Z -> S -> outcome S) (count : nat) (i : Z)
    (s : S) : outcome S :=
  match count with
  | O => Returns s
  | Datatypes.S count' =>
      do s' <- body i s;
      iterate body count' (i + 1) s'
  end.

(** A range-[for] over a container. *)
Fixpoint for_each {A S : Type} (body : A -> S -> outcome S) (l : list A) (s : S)
    : outcome S :=
  match l with
  | [] => Returns s
  | a :: l' =>
      do s' <- body a s;
      for_each body l' s'
  end.

(** [m.at(k)] of [std::unordered_map]: the value, or [std::out_of_range]. *)
Definition map_at {V : Type} (m : gmap Z V) (k : Z) (what : string) : outcome V :=
  match m !! k with
  | Some v => Returns v
  | None => Throws (Out_of_range what)
  end.

End Machine.
Export Machine.

(** ** Subranges and their equal split ([runtime.cc], COMMAND GRAPH GENERATION) *)

Module Split.
Local Open Scope Z_scope.

(** [subrange<Dims>]: three [cl::sycl::range<Dims>], here [R]: [Z] for one
    dimension, pairs and triples for two and three. *)
Record subrange (R : Type) : Type := mk_subrange {
  start : R;
  range : R;
  global_size : R
}.
Arguments mk_subrange {R} _ _ _.
Arguments start {R} _.
Arguments range {R} _.
Arguments global_size {R} _.

Definition range1 : Type := Z.
Definition range2 : Type := (Z * Z)%type.
Definition range3 : Type := (Z * Z * Z)%type.

(** One round of the loop of [split_equal(const subrange<1>&, size_t)]; the
    state is the running [chunk] and [result]. *)
Definition split_equal_body (sr : subrange range1) (num_chunks : Z) (i : Z)
    (st : subrange range1 * list (subrange range1))
    : outcome (subrange range1 * list (subrange range1)) :=
  let '(chunk, result) := st in
  let result := result ++ [chunk] in
  let chunk :=
    mk_subrange (wrap_size (start chunk + range chunk)) (range chunk) (global_size chunk) in
  let result :=
    if i =? wrap_size (num_chunks - 1) then
      alter (fun c => mk_subrange (start c)
                        (wrap_size (range c + range sr mod num_chunks))
                        (global_size c))
            (Z.to_nat i) result
    else result in
  Returns (chunk, result).

Definition split_equal_1 (fuel : nat) (sr : subrange range1) (num_chunks : Z)
    : outcome (list (subrange range1)) :=
  check (0 <? num_chunks) else "num_chunks > 0";
  let chunk := mk_subrange 0 (range sr / num_chunks) (global_size sr) in
  do st <- for_loop uint_incr fuel num_chunks (split_equal_body sr num_chunks) 0 (chunk, []);
  Returns (snd st).

(** [split_equal(const subrange<2>&, size_t)]: split by row. *)
Definition split_equal_2 (fuel : nat) (sr : subrange range2) (num_chunks : Z)
    : outcome (list (subrange range2)) :=
  do rows <- split_equal_1 fuel
               (mk_subrange (fst (start sr)) (fst (range sr)) (fst (global_size sr)))
               num_chunks;
  Returns (map (fun row =>
                  mk_subrange (start row, snd (start sr))
                              (range row, snd (range sr))
                              (global_size sr))
               rows).

Definition split_equal_3 (fuel : nat) (sr : subrange range3) (num_chunks : Z)
    : outcome (list (subrange range3)) :=
  Throws (Runtime_error "3D split_equal NYI").

(** The C++ overload set [split_equal], one instance per dimensionality. *)
Class Splittable (R : Type) : Type :=
  split_equal : nat -> subrange R -> Z -> outcome (list (subrange R)).
#[export] Instance splittable_1 : Splittable range1 := split_equal_1.
#[export] Instance splittable_2 : Splittable range2 := split_equal_2.
#[export] Instance splittable_3 : Splittable range3 := split_equal_3.

(** [subrange<Dims>()]: the header that declares [subrange] is not part of
    the sources; a value-initialised [cl::sycl::range] holds zeros. *)
Class Dimension (R : Type) : Type := {
  Dims : Z;
  origin : R
}.
#[export] Instance dimension_1 : Dimension range1 := {| Dims := 1; origin := 0 |}.
#[export] Instance dimension_2 : Dimension range2 := {| Dims := 2; origin := (0, 0) |}.
#[export] Instance dimension_3 : Dimension range3 := {| Dims := 3; origin := (0, 0, 0) |}.

(** Index sets: what a chunk covers. *)
Definition in_subrange_1 (x : Z) (c : subrange range1) : Prop :=
  start c <= x < start c + range c.

Definition in_subrange_2 (p : Z * Z) (c : subrange range2) : Prop :=
  fst (start c) <= fst p < fst (start c) + fst (range c) /\
  snd (start c) <= snd p < snd (start c) + snd (range c).

(** A row of a two-dimensional task, widened to the full second extent. *)
Definition widen (gs : range2) (row : subrange range1) : subrange range2 :=
  mk_subrange (start row, 0) (range row, snd gs) gs.

(** The [k]-th of [n] chunks of an extent [len]: [len / n] indices from
    [k * (len / n)] on, the last one longer by [len mod n]. *)
Definition nth_chunk (gs len n : Z) (k : Z) : subrange range1 :=
  mk_subrange (k * (len / n))
              (if k =? n - 1 then len / n + len mod n else len / n)
              gs.

Definition equal_chunks (gs len n : Z) (count : nat) : list (subrange range1) :=
  map (fun k => nth_chunk gs len n (Z.of_nat k)) (seq 0 count).

End Split.

(** ** Chunks, node assignment and compute commands ([runtime.cc]) *)

Module Generate.
Import Split.
Local Open Scope Z_scope.

Abbreviation node_id := Z.
Abbreviation buffer_id := Z.
Abbreviation chunk_id := Z.
Abbreviation command_id := Z.
Abbreviation task_id := Z.

(** [cl::sycl::access::mode]. *)
Inductive access_mode : Type :=
  | mode_read | mode_write | mode_read_write
  | mode_discard_write | mode_discard_read_write | mode_atomic.

(** [std::set<node_id>]: its elements in ascending order. *)
Fixpoint set_insert (x : Z) (s : list Z) : list Z :=
  match s with
  | [] => [x]
  | y :: s' =>
      if x <? y then x :: s
      else if x =? y then s
      else y :: set_insert x s'
  end.

Definition set_erase (x : Z) (s : list Z) : list Z :=
  List.filter (fun y => negb (y =? x)) s.

(** [std::set_intersection] over two iterator ranges: the merge that the
    standard library runs, which presumes both ranges ascending. *)
Fixpoint set_intersection (l1 l2 : list Z) {struct l1} : list Z :=
  let fix advance (l2 : list Z) {struct l2} : list Z :=
    match l1, l2 with
    | a :: l1', b :: l2' =>
        if a <? b then set_intersection l1' l2
        else if b <? a then advance l2'
        else a :: set_intersection l1' l2'
    | _, _ => []
    end
  in advance l2.

(** The range mapper contract: access mode, dimensionalities, and the three
    [map_D], each already followed by the conversion to [subrange<3>]. *)
Record range_mapper (R : Type) : Type := mk_range_mapper {
  get_access_mode : access_mode;
  get_kernel_dimensions : Z;
  get_buffer_dimensions : Z;
  map_1 : subrange R -> subrange range3;
  map_2 : subrange R -> subrange range3;
  map_3 : subrange R -> subrange range3
}.
Arguments get_access_mode {R} _.
Arguments get_kernel_dimensions {R} _.
Arguments get_buffer_dimensions {R} _.
Arguments map_1 {R} _ _.
Arguments map_2 {R} _ _.
Arguments map_3 {R} _ _.

(** A [compute_task] of the dimensionality of [R]; [get_range_mappers] in
    the iteration order of its map. *)
Record compute_task (R : Type) : Type := mk_compute_task {
  get_global_size : R;
  get_range_mappers : list (buffer_id * list (range_mapper R))
}.
Arguments mk_compute_task {R} _ _.
Arguments get_global_size {R} _.
Arguments get_range_mappers {R} _.

(** The choice of [nid] in [assign_chunks_to_nodes], [first_free] being
    [*free_nodes.cbegin()]: with source nodes, the first element of the
    intersection if there is one; the first free node otherwise. *)
Definition picked (free source_nodes : list node_id) (first_free : node_id) : node_id :=
  match source_nodes with
  | [] => first_free
  | _ :: _ =>
      match set_intersection free source_nodes with
      | n :: _ => n
      | [] => first_free
      end
  end.

Section Generator.

(** [GridRegion<3>], [GridBox<3>] and [detail::buffer_state] come from headers
    that are not part of the sources; the generator only passes their values
    on, so they are parameters here. *)
Context {region box buffer_state : Type}.
Variable merge : region -> region -> region.
Variable empty_region : region.
Variable subrange_to_grid_region : subrange range3 -> region.
Variable get_source_nodes : buffer_state -> region -> list (box * list node_id).

(** [std::unordered_map<cl::sycl::access::mode, GridRegion<3>>], of which only
    the keys [read] and [write] are ever used. *)
Record mode_requirements : Type := mk_mode_requirements {
  read_req : option region;
  write_req : option region
}.

(** [std::unordered_map<buffer_id, ...>] is iterated over, so it is the list
    of its entries in iteration order. *)
Abbreviation buffer_requirements := (list (buffer_id * mode_requirements)).
Abbreviation chunk_buffer_requirements_map := (gmap Z buffer_requirements).

(** What [get_source_nodes] returns: boxes, each with the
    [std::unordered_set<node_id>] of its holders in iteration order. *)
Abbreviation buffer_sources := (list (box * list node_id)).
Abbreviation chunk_buffer_source_map := (gmap Z (gmap Z buffer_sources)).
Abbreviation buffer_state_map := (gmap Z buffer_state).

(** The variables of [assign_chunks_to_nodes] that live across rounds. *)
Record assignment : Type := mk_assignment {
  node_assigned : bool;
  free_nodes : list node_id;
  chunk_nodes : gmap Z node_id;
  chunk_buffer_sources : chunk_buffer_source_map
}.

(** The first part of the body of [for(auto& it : chunk_reqs.at(i))]: what
    [source_nodes] and [chunk_buffer_sources] are after it. *)
Definition read_sources (valid_buffer_regions : buffer_state_map) (i : chunk_id)
    (it : buffer_id * mode_requirements) (sources : chunk_buffer_source_map)
    : outcome (list node_id * chunk_buffer_source_map) :=
  let bid := fst it in
  match read_req (snd it) with
  | Some read_req =>
      do bs <- map_at valid_buffer_regions bid "valid_buffer_regions.at(bid)";
      let sn := get_source_nodes bs read_req in
      check (negb (Nat.eqb (length sn) 0)) else "!sn.empty()";
      Returns (match sn with
               | (_, nodes) :: _ => nodes
               | [] => []
               end,
               <[i := <[bid := sn]> (default ∅ (sources !! i))]> sources)
  | None => Returns ([], sources)
  end.

(** The body of [for(auto& it : chunk_reqs.at(i))]. *)
Definition assign_entry (valid_buffer_regions : buffer_state_map) (i : chunk_id)
    (it : buffer_id * mode_requirements) (st : assignment) : outcome assignment :=
  do found <- read_sources valid_buffer_regions i it (chunk_buffer_sources st);
  let '(source_nodes, sources) := found in
  if node_assigned st then
    Returns (mk_assignment true (free_nodes st) (chunk_nodes st) sources)
  else
    match free_nodes st with
    | [] => Throws (Assertion_failed "free_nodes.size() > 0")
    | first_free :: _ =>
        let nid := picked (free_nodes st) source_nodes first_free in
        check (negb (nid =? SIZE_MAX)) else "nid != max";
        Returns (mk_assignment true (set_erase nid (free_nodes st))
                   (<[i := nid]> (chunk_nodes st)) sources)
    end.

(** The body of [for(auto i = 0u; i < num_chunks; ++i)]. *)
Definition assign_chunk (chunk_reqs : chunk_buffer_requirements_map)
    (valid_buffer_regions : buffer_state_map) (i : chunk_id) (st : assignment)
    : outcome assignment :=
  do entries <- map_at chunk_reqs i "chunk_reqs.at(i)";
  for_each (assign_entry valid_buffer_regions i) entries
    (mk_assignment false (free_nodes st) (chunk_nodes st) (chunk_buffer_sources st)).

Definition assign_chunks_to_nodes (fuel : nat) (num_chunks : Z)
    (chunk_reqs : chunk_buffer_requirements_map)
    (valid_buffer_regions : buffer_state_map) (free : list node_id)
    (sources : chunk_buffer_source_map)
    : outcome (gmap Z node_id * chunk_buffer_source_map) :=
  do st <- for_loop uint_incr fuel num_chunks
             (assign_chunk chunk_reqs valid_buffer_regions) 0
             (mk_assignment false free ∅ sources);
  Returns (chunk_nodes st, chunk_buffer_sources st).

(** What [source_nodes] holds after the first part of the body of
    [assign_entry] when that part does not fail: the holders of the first box
    of the read requirement of this buffer, nothing without a read. *)
Definition source_nodes_of (valid_buffer_regions : buffer_state_map)
    (it : buffer_id * mode_requirements) : list node_id :=
  match read_req (snd it) with
  | Some read_req =>
      match valid_buffer_regions !! fst it with
      | Some bs =>
          match get_source_nodes bs read_req with
          | (_, nodes) :: _ => nodes
          | [] => []
          end
      | None => []
      end
  | None => []
  end.

(** What [read_sources] needs of an entry: a buffer that is read has a
    state in [valid_buffer_regions], and its read requirement a cover that
    is not empty. *)
Definition readable (valid_buffer_regions : buffer_state_map)
    (it : buffer_id * mode_requirements) : Prop :=
  match read_req (snd it) with
  | Some read_req =>
      exists bs, valid_buffer_regions !! fst it = Some bs /\
                 get_source_nodes bs read_req <> []
  | None => True
  end.

(** The rule in the words of the specification: "collect source nodes of the
    first read buffer (in iteration order over the chunk's requirement map).
    If the intersection of free_nodes with those source nodes is non-empty,
    pick its lexicographically smallest element; else pick the smallest free
    node." *)
Fixpoint spec_first_read_buffer (entries : buffer_requirements)
    : option (buffer_id * region) :=
  match entries with
  | [] => None
  | (bid, reqs) :: entries' =>
      match read_req reqs with
      | Some r => Some (bid, r)
      | None => spec_first_read_buffer entries'
      end
  end.

Definition spec_source_nodes (valid_buffer_regions : buffer_state_map)
    (entries : buffer_requirements) : list node_id :=
  match spec_first_read_buffer entries with
  | Some (bid, r) =>
      match valid_buffer_regions !! bid with
      | Some bs => concat (map snd (get_source_nodes bs r))
      | None => []
      end
  | None => []
  end.

Definition spec_assigned_node (valid_buffer_regions : buffer_state_map)
    (free : list node_id) (entries : buffer_requirements) : option node_id :=
  match List.filter (fun n => bool_decide (n ∈ spec_source_nodes valid_buffer_regions entries))
          free with
  | n :: _ => Some n
  | [] => head free
  end.

(** The claim for a task of one chunk: the chunk gets the node of the rule. *)
Definition assigns_by_spec_rule (chunk_reqs : chunk_buffer_requirements_map)
    (valid_buffer_regions : buffer_state_map) (free : list node_id) : Prop :=
  forall fuel entries nodes sources,
    chunk_reqs !! 0 = Some entries ->
    assign_chunks_to_nodes fuel 1 chunk_reqs valid_buffer_regions free ∅
    = Returns (nodes, sources) ->
    nodes !! 0 = spec_assigned_node valid_buffer_regions free entries.

(** *** [process_compute_task] *)

(** [m[mode]] of the innermost map, read and written. *)
Definition requirement_at (reqs : mode_requirements) (mode : access_mode) : region :=
  match mode with
  | mode_read => default empty_region (read_req reqs)
  | mode_write => default empty_region (write_req reqs)
  | _ => empty_region
  end.

Definition set_requirement (reqs : mode_requirements) (mode : access_mode)
    (r : region) : mode_requirements :=
  match mode with
  | mode_read => mk_mode_requirements (Some r) (write_req reqs)
  | mode_write => mk_mode_requirements (read_req reqs) (Some r)
  | _ => reqs
  end.

(** [m[bid] = f(m[bid])] on the per-buffer map: in place when the key is
    there; where a new key lands in the iteration order of a
    [std::unordered_map] is for the standard library to decide, hence
    [umap_emplace]. *)
Variable umap_emplace :
  buffer_id -> mode_requirements -> buffer_requirements -> buffer_requirements.

Fixpoint umap_alter (f : mode_requirements -> mode_requirements) (bid : buffer_id)
    (m : buffer_requirements) : option buffer_requirements :=
  match m with
  | [] => None
  | (k, v) :: m' =>
      if k =? bid then Some ((k, f v) :: m')
      else option_map (cons (k, v)) (umap_alter f bid m')
  end.

Definition umap_modify (f : mode_requirements -> mode_requirements) (bid : buffer_id)
    (m : buffer_requirements) : buffer_requirements :=
  match umap_alter f bid m with
  | Some m' => m'
  | None => umap_emplace bid (f (mk_mode_requirements None None)) m
  end.

Section Task.
Context {R : Type} `{Dimension R} `{Splittable R}.

(** The command DAG and [graph_utils] are not part of the sources:
    [add_compute_cmd] takes and returns the command counter and the graph. *)
Context {command_dag vertex task_vertices : Type}.
Variable add_compute_cmd :
  command_id -> node_id -> task_vertices -> subrange range3 -> command_dag ->
  vertex * command_id * command_dag.
(** The converting constructor [subrange<3>(const subrange<Dims>&)]. *)
Variable promote : subrange R -> subrange range3.

(** Lines 279 to 285: the chunks of a task. *)
Definition task_chunks (fuel : nat) (ctsk : compute_task R) (num_worker_nodes : Z)
    : outcome (list (subrange R)) :=
  let num_chunks := num_worker_nodes in
  let sr := mk_subrange origin (get_global_size ctsk) (get_global_size ctsk) in
  split_equal fuel sr num_chunks.

(** The body of [for(auto i = 0u; i < chunks.size(); ++i)] of the requirement
    loop ([i] is below [chunks.size()] by the loop condition). *)
Definition require_chunk (bid : buffer_id) (rm : range_mapper R)
    (chunks : list (subrange R)) (i : Z) (chunk_requirements : chunk_buffer_requirements_map)
    : outcome chunk_buffer_requirements_map :=
  match chunks !! Z.to_nat i with
  | None => Throws (Out_of_range "chunks[i]")
  | Some chunk =>
      let req :=
        if get_buffer_dimensions rm =? 2 then map_2 rm chunk
        else if get_buffer_dimensions rm =? 3 then map_3 rm chunk
        else map_1 rm chunk in
      let mode := get_access_mode rm in
      let update reqs :=
        set_requirement reqs mode
          (merge (requirement_at reqs mode) (subrange_to_grid_region req)) in
      Returns (<[i := umap_modify update bid (default [] (chunk_requirements !! i))]>
                 chunk_requirements)
  end.

Definition require_mapper (fuel : nat) (chunks : list (subrange R)) (bid : buffer_id)
    (rm : range_mapper R) (chunk_requirements : chunk_buffer_requirements_map)
    : outcome chunk_buffer_requirements_map :=
  check (match get_access_mode rm with
         | mode_read | mode_write => true
         | _ => false
         end) else "mode == read || mode == write";
  check (get_kernel_dimensions rm =? Dims) else "rm->get_kernel_dimensions() == Dims";
  for_loop uint_incr fuel (Z.of_nat (length chunks)) (require_chunk bid rm chunks) 0
    chunk_requirements.

(** [free_nodes]: the workers [1 .. num_worker_nodes], and the master too when
    it is alone. *)
Definition initial_free_nodes (fuel : nat) (num_worker_nodes : Z) (master_only : bool)
    : outcome (list node_id) :=
  for_loop uint_incr fuel (wrap_size (num_worker_nodes + 1))
    (fun i free =>
       if negb master_only && (i =? 0) then Returns free
       else Returns (set_insert i free))
    0 [].

(** What [process_compute_task] leaves in its reference parameters. *)
Record generated : Type := mk_generated {
  gen_next_cmd_id : command_id;
  gen_num_chunks : Z;
  gen_chunk_nodes : gmap Z node_id;
  gen_chunk_requirements : chunk_buffer_requirements_map;
  gen_chunk_buffer_sources : chunk_buffer_source_map;
  gen_chunk_command_vertices : list vertex;
  gen_command_graph : command_dag
}.

(** The body of [for(chunk_id i = 0u; i < chunks.size(); ++i)]:
    [chunk_nodes[i]] adds the key with node 0 when it is missing. *)
Definition emit_compute (tv : task_vertices) (chunks : list (subrange R)) (i : Z)
    (g : generated) : outcome generated :=
  match chunks !! Z.to_nat i with
  | None => Throws (Out_of_range "chunks[i]")
  | Some chunk =>
      let nid := default 0 (gen_chunk_nodes g !! i) in
      let '(cv, next, graph) :=
        add_compute_cmd (gen_next_cmd_id g) nid tv (promote chunk) (gen_command_graph g) in
      Returns (mk_generated next (gen_num_chunks g) (<[i := nid]> (gen_chunk_nodes g))
                 (gen_chunk_requirements g) (gen_chunk_buffer_sources g)
                 (gen_chunk_command_vertices g ++ [cv]) graph)
  end.

(** [process_compute_task<Dims>]; its first assertion, that the task has
    [Dims] dimensions, holds by the type of [ctsk]. *)
Definition process_compute_task (fuel : nat) (next_cmd_id : command_id) (tid : task_id)
    (ctsk : compute_task R) (num_worker_nodes : Z) (master_only : bool)
    (tv : task_vertices) (valid_buffer_regions : buffer_state_map)
    (chunk_requirements : chunk_buffer_requirements_map)
    (chunk_buffer_sources : chunk_buffer_source_map)
    (chunk_command_vertices : list vertex) (command_graph : command_dag)
    : outcome generated :=
  let num_chunks := num_worker_nodes in
  do chunks <- task_chunks fuel ctsk num_worker_nodes;
  do chunk_requirements <-
    for_each (fun it reqs =>
                for_each (require_mapper fuel chunks (fst it)) (snd it) reqs)
             (get_range_mappers ctsk) chunk_requirements;
  do free_nodes <- initial_free_nodes fuel num_worker_nodes master_only;
  do assigned <-
    assign_chunks_to_nodes fuel (Z.of_nat (length chunks)) chunk_requirements
      valid_buffer_regions free_nodes chunk_buffer_sources;
  for_loop size_incr fuel (Z.of_nat (length chunks)) (emit_compute tv chunks) 0
    (mk_generated next_cmd_id num_chunks (fst assigned) chunk_requirements
       (snd assigned) chunk_command_vertices command_graph).

(** [runtime::runtime]: [num_nodes = world_size], an [int] from
    [MPI_Comm_size] converted to [size_t]. *)
Definition runtime_num_nodes (world_size : Z) : Z := wrap_size world_size.

(** [build_command_graph], first lines. *)
Definition num_worker_nodes (num_nodes : Z) : Z := Z.max (wrap_size (num_nodes - 1)) 1.
Definition master_only (num_nodes : Z) : bool := num_nodes =? 1.

(** The [task_type::COMPUTE] branch of [build_command_graph] for a task of
    the dimensionality of [R], with the fresh maps it declares. *)
Definition build_compute_task (fuel : nat) (num_nodes : Z) (next_cmd_id : command_id)
    (tid : task_id) (ctsk : compute_task R) (tv : task_vertices)
    (valid_buffer_regions : buffer_state_map) (command_graph : command_dag)
    : outcome generated :=
  process_compute_task fuel next_cmd_id tid ctsk (num_worker_nodes num_nodes)
    (master_only num_nodes) tv valid_buffer_regions ∅ ∅ [] command_graph.

End Task.
End Generator.

(** What every round of the outer loop keeps: the free nodes stay ascending
    and among the nodes given at the start, and the nodes handed out are
    among those too, are no longer free, and differ from chunk to chunk. *)
Definition assignment_invariant {box : Type} (free0 : list node_id) (st : @assignment box) : Prop :=
  StronglySorted Z.lt (free_nodes st) /\
  (forall n, n ∈ free_nodes st -> n ∈ free0) /\
  (forall i n, chunk_nodes st !! i = Some n -> n ∈ free0 /\ n ∉ free_nodes st) /\
  (forall i j n, chunk_nodes st !! i = Some n -> chunk_nodes st !! j = Some n -> i = j).

(** For examples: regions without content, numbered boxes, and a buffer state
    that answers every query with the cover it consists of. *)
Abbreviation example_state := (list (nat * list node_id)).
Definition example_sources (bs : example_state) (_ : unit) : list (nat * list node_id) := bs.

End Generate.

(** ** The command graph ([command_graph.h]) *)

Module CommandGraph.
Local Open Scope N_scope.

(** Commands are heap objects owned by the graph and named by pointer; a
    pointer is represented by the [command_id] under which the graph keeps
    the object.  The graph hands out ids from a [size_t] counter and, in what
    is modelled here, frees no command, so the counter stays below the number
    of live objects and cannot wrap: ids are values of [N]. *)
Abbreviation command_id := N.
Abbreviation node_id := N.
Abbreviation task_id := N.

(** The command classes. *)
Inductive command_kind : Type :=
  | nop_command | compute_command | master_access_command
  | push_command | await_push_command | shutdown_command.

#[export] Instance command_kind_eq_dec : EqDecision command_kind.
Proof. solve_decision. Defined.

(** Modelled from the spec: [abstract_command], whose header (command.h) is
    not part of the sources.  "Common fields: cid, nid (executing node), tid
    (owning task or sentinel for transfers), payload, dependency list
    (dep_cid, is_anti).  Every command knows its pseudo_critical_path_length
    = 1 + max over dependees."  The payload plays no part here. *)
Record abstract_command : Type := mk_command {
  get_cid : command_id;
  get_nid : node_id;
  get_kind : command_kind;
  get_tid : task_id;
  get_dependencies : list (command_id * bool);
  get_pseudo_critical_path_length : N
}.

(** Modelled from the spec: [isa<task_command>], true of the commands that
    execute a task ("attach to by_task if it is a task-command"). *)
Definition isa_task_command (k : command_kind) : bool :=
  match k with
  | compute_command | master_access_command => true
  | _ => false
  end.

(** Modelled from the spec: [abstract_command::add_dependency], which adds
    the pair to the dependency list of the depender and keeps its length
    "1 + max over dependees". *)
Definition command_add_dependency (depender : abstract_command)
    (dep : command_id * bool) (dependee_length : N) : abstract_command :=
  mk_command (get_cid depender) (get_nid depender) (get_kind depender) (get_tid depender)
    (get_dependencies depender ++ [dep])
    (N.max (get_pseudo_critical_path_length depender) (dependee_length + 1)).

(** Modelled from the spec: [abstract_command::remove_dependency], which
    takes the dependee out of the dependency list of the depender. *)
Definition command_remove_dependency (depender : abstract_command)
    (dependee : command_id) : abstract_command :=
  mk_command (get_cid depender) (get_nid depender) (get_kind depender) (get_tid depender)
    (List.filter (fun d => negb (fst d =? dependee)) (get_dependencies depender))
    (get_pseudo_critical_path_length depender).

Record command_graph : Type := mk_graph {
  next_cmd_id : command_id;
  commands : gmap N abstract_command;
  by_task : gmap N (list command_id);
  execution_fronts : gmap N (gset N);
  max_pseudo_critical_path_length : N
}.

Definition empty_graph : command_graph := mk_graph 0 ∅ ∅ ∅ 0.

(** [create<T>(nid, tid, ...)]: [commands.emplace] keeps an entry that is
    already there; [by_task[tid]] and [execution_fronts[nid]] add their key
    when it is missing. *)
Definition create (T : command_kind) (nid : node_id) (tid : task_id)
    (g : command_graph) : command_id * command_graph :=
  let cid := next_cmd_id g in
  let fresh := mk_command cid nid T tid [] 0 in
  let commands' :=
    match commands g !! cid with
    | Some _ => commands g
    | None => <[cid := fresh]> (commands g)
    end in
  let cmd := default fresh (commands' !! cid) in
  let by_task' :=
    if isa_task_command (get_kind cmd)
    then <[get_tid cmd := default [] (by_task g !! get_tid cmd) ++ [cid]]> (by_task g)
    else by_task g in
  let fronts' :=
    if bool_decide (T = nop_command) then execution_fronts g
    else <[get_nid cmd := default ∅ (execution_fronts g !! get_nid cmd) ∪ {[cid]}]>
           (execution_fronts g) in
  (cid, mk_graph (cid + 1) commands' by_task' fronts' (max_pseudo_critical_path_length g)).

(** [add_dependency(depender, dependee, is_anti)].  Both arguments point to
    commands of the graph. *)
Definition add_dependency (depender dependee : command_id) (is_anti : bool)
    (g : command_graph) : outcome command_graph :=
  match commands g !! depender, commands g !! dependee with
  | Some er, Some ee =>
      check (get_nid er =? get_nid ee) else "depender->get_nid() == dependee->get_nid()";
      check (negb (dependee =? depender)) else "dependee != depender";
      let er' := command_add_dependency er (dependee, is_anti)
                   (get_pseudo_critical_path_length ee) in
      Returns (mk_graph (next_cmd_id g) (<[depender := er']> (commands g)) (by_task g)
                 (<[get_nid er := default ∅ (execution_fronts g !! get_nid er) ∖ {[dependee]}]>
                    (execution_fronts g))
                 (N.max (max_pseudo_critical_path_length g)
                    (get_pseudo_critical_path_length er')))
  | _, _ => Throws (Undefined_behaviour "pointer to no command")
  end.

(** [remove_dependency(depender, dependee)]. *)
Definition remove_dependency (depender dependee : command_id) (g : command_graph)
    : outcome command_graph :=
  match commands g !! depender with
  | Some er =>
      Returns (mk_graph (next_cmd_id g)
                 (<[depender := command_remove_dependency er dependee]> (commands g))
                 (by_task g) (execution_fronts g) (max_pseudo_critical_path_length g))
  | None => Throws (Undefined_behaviour "pointer to no command")
  end.

(** [execution_fronts[n]], empty when the key is missing. *)
Definition execution_front (g : command_graph) (n : node_id) : gset N :=
  default ∅ (execution_fronts g !! n).

(** Sequences of calls on a graph. *)
Inductive operation : Type :=
  | op_create (T : command_kind) (nid : node_id) (tid : task_id)
  | op_add_dependency (depender dependee : command_id) (is_anti : bool)
  | op_remove_dependency (depender dependee : command_id).

Definition apply (o : operation) (g : command_graph) : outcome command_graph :=
  match o with
  | op_create T nid tid => Returns (snd (create T nid tid g))
  | op_add_dependency er ee anti => add_dependency er ee anti g
  | op_remove_dependency er ee => remove_dependency er ee g
  end.

Definition run (ops : list operation) (g : command_graph) : outcome command_graph :=
  for_each apply ops g.

Definition is_remove (o : operation) : bool :=
  match o with
  | op_remove_dependency _ _ => true
  | _ => false
  end.

(** The dependency relation and its converse. *)
Definition depends_on (g : command_graph) (depender dependee : command_id) : Prop :=
  exists cmd, commands g !! depender = Some cmd /\
              dependee ∈ (get_dependencies cmd).*1.

Definition has_dependents (g : command_graph) (c : command_id) : Prop :=
  exists d, depends_on g d c.

Definition on_node (g : command_graph) (c : command_id) (n : node_id) : Prop :=
  exists cmd, commands g !! c = Some cmd /\ get_nid cmd = n.

Definition is_nop (g : command_graph) (c : command_id) : Prop :=
  exists cmd, commands g !! c = Some cmd /\ get_kind cmd = nop_command.

(** The invariant in the words of the specification: "execution_fronts[n]
    equals the set of commands on node n with no dependents". *)
Definition fronts_hold_all_leaves (g : command_graph) : Prop :=
  forall n c, c ∈ execution_front g n <-> on_node g c n /\ ~ has_dependents g c.

(** The invariant the code keeps: the same, of the commands that are not
    [nop]. *)
Definition fronts_hold_leaves_but_nop (g : command_graph) : Prop :=
  forall n c, c ∈ execution_front g n <->
              on_node g c n /\ ~ is_nop g c /\ ~ has_dependents g c.

(** What holds of every graph built by calls: ids below the counter name
    the commands, and every dependency leads to a command of the graph. *)
Definition well_formed (g : command_graph) : Prop :=
  (forall c cmd, commands g !! c = Some cmd -> c < next_cmd_id g /\ get_cid cmd = c) /\
  (forall d e, depends_on g d e -> exists cmd, commands g !! e = Some cmd).

(** Every dependency stays on one node and joins two commands. *)
Definition edges_stay_on_node (g : command_graph) : Prop :=
  forall d e, depends_on g d e ->
              d <> e /\ exists n, on_node g d n /\ on_node g e n.

End CommandGraph.

(** ** Command packages *)

Module Command.

(** [enum class command]. *)
Inductive command : Type :=
  | NOP | COMPUTE | MASTER_ACCESS | PUSH | AWAIT_PUSH | SHUTDOWN.

#[export] Instance command_eq_dec : EqDecision command.
Proof. solve_decision. Defined.

(** [command_subrange]: offset and range, three extents each. *)
Record command_subrange : Type := mk_command_subrange {
  offset : Z * Z * Z;
  range : Z * Z * Z
}.

#[export] Instance command_subrange_eq_dec : EqDecision command_subrange.
Proof. solve_decision. Defined.

Record push_data : Type := mk_push_data {
  push_bid : Z;
  push_target : Z;
  push_subrange : command_subrange
}.

Record await_push_data : Type := mk_await_push_data {
  await_bid : Z;
  await_source_cid : Z;
  await_subrange : command_subrange
}.

(** [union command_data]: one member is active. *)
Inductive command_data : Type :=
  | data_none
  | data_compute (chunk : command_subrange)
  | data_push (d : push_data)
  | data_await_push (d : await_push_data).

Record command_pkg : Type := mk_command_pkg {
  tid : Z;
  cid : Z;
  cmd : command;
  data : command_data
}.

End Command.

(** ** The buffer transfer manager *)

Module Transfer.
Import Command.

(** [data_header] of an incoming message. *)
Record data_header : Type := mk_data_header {
  header_bid : Z;
  header_subrange : command_subrange;
  header_push_cid : Z
}.

(** [transfer_in]: the header, the payload bytes and the receive request. *)
Record transfer_in : Type := mk_transfer_in {
  header : data_header;
  payload : list Z;
  request : Z
}.

(** [incoming_transfer_handle]: the [complete] flag of [transfer_handle] and
    the parked transfer. *)
Record incoming_transfer_handle : Type := mk_handle {
  complete : bool;
  transfer : option transfer_in
}.

(** [detail::raw_data_handle]: bytes, range and offset. *)
Record raw_data_handle : Type := mk_raw_data_handle {
  raw_bytes : list Z;
  raw_range : Z * Z * Z;
  raw_offset : Z * Z * Z
}.

(** Modelled from the spec: the buffer storage behind
    [buffer_storage_base::set_data], which is not part of the sources:
    "set_data(handle) (overwrites the given box with supplied bytes)".  A
    storage is the sequence of the handles it was given. *)
Definition buffer_storage : Type := list raw_data_handle.

Definition set_data (dh : raw_data_handle) (storage : buffer_storage) : buffer_storage :=
  storage ++ [dh].

(** The state of a node as the transfer manager sees it.  Handles are shared
    objects: they live in [handles] and are named by their position there;
    [buffer_ptrs] is the table of the runtime, a null pointer being [None]. *)
Record node_state : Type := mk_node_state {
  incoming_transfers : list transfer_in;
  push_blackboard : gmap Z nat;
  handles : list incoming_transfer_handle;
  buffer_ptrs : gmap Z (option buffer_storage)
}.

(** [runtime::set_buffer_data]. *)
Definition set_buffer_data (bid : Z) (dh : raw_data_handle)
    (ptrs : gmap Z (option buffer_storage)) : outcome (gmap Z (option buffer_storage)) :=
  match ptrs !! bid with
  | None => Throws (Out_of_range "buffer_ptrs.at(bid)")
  | Some None => Throws (Assertion_failed "buffer_ptrs.at(bid) != nullptr")
  | Some (Some storage) => Returns (<[bid := Some (set_data dh storage)]> ptrs)
  end.

(** [write_data_to_buffer(std::unique_ptr<transfer_in>&&)]: the parameter is
    a reference, the caller keeps the transfer. *)
Definition write_data_to_buffer (t : transfer_in)
    (ptrs : gmap Z (option buffer_storage)) : outcome (gmap Z (option buffer_storage)) :=
  let h := header t in
  set_buffer_data (header_bid h)
    (mk_raw_data_handle (payload t) (range (header_subrange h)) (offset (header_subrange h)))
    ptrs.

(** [await_push(pkg)]: the handle it returns, and the state. *)
Definition await_push (pkg : command_pkg) (st : node_state) : outcome (nat * node_state) :=
  check (bool_decide (cmd pkg = AWAIT_PUSH)) else "pkg.cmd == command::AWAIT_PUSH";
  match data pkg with
  | data_await_push d =>
      match push_blackboard st !! await_source_cid d with
      | Some t_handle =>
          let blackboard := delete (await_source_cid d) (push_blackboard st) in
          match handles st !! t_handle with
          | None => Throws (Undefined_behaviour "handle of no object")
          | Some h =>
              match transfer h with
              | None => Throws (Assertion_failed "t_handle->transfer != nullptr")
              | Some t =>
                  check (bool_decide (header_bid (header t) = await_bid d))
                    else "t_handle->transfer->header.bid == data.bid";
                  check (bool_decide (header_subrange (header t) = await_subrange d))
                    else "t_handle->transfer->header.subrange == data.subrange";
                  do ptrs <- write_data_to_buffer t (buffer_ptrs st);
                  Returns (t_handle,
                           mk_node_state (incoming_transfers st) blackboard (handles st) ptrs)
              end
          end
      | None =>
          let t_handle := length (handles st) in
          Returns (t_handle,
                   mk_node_state (incoming_transfers st)
                     (<[await_source_cid d := t_handle]> (push_blackboard st))
                     (handles st ++ [mk_handle false None])
                     (buffer_ptrs st))
      end
  | _ => Throws (Undefined_behaviour "pkg.data.await_push is not the active member")
  end.

(** One finished receive in [update_incoming_transfers]: the part of the loop
    body after [MPI_Test] has answered 1. *)
Definition receive_finished (t : transfer_in) (st : node_state) : outcome node_state :=
  let push_cid := header_push_cid (header t) in
  match push_blackboard st !! push_cid with
  | Some t_handle =>
      do ptrs <- write_data_to_buffer t (buffer_ptrs st);
      Returns (mk_node_state (incoming_transfers st)
                 (delete push_cid (push_blackboard st))
                 (alter (fun h => mk_handle true (transfer h)) t_handle (handles st))
                 ptrs)
  | None =>
      let t_handle := length (handles st) in
      Returns (mk_node_state (incoming_transfers st)
                 (<[push_cid := t_handle]> (push_blackboard st))
                 (handles st ++ [mk_handle true (Some t)])
                 (buffer_ptrs st))
  end.

(** The loop of [update_incoming_transfers] over the transfers not yet
    visited; [mpi_test] is what [MPI_Test] answers for a request during this
    call.  The result lists the transfers that stay. *)
Fixpoint update_loop (mpi_test : Z -> bool) (pending : list transfer_in)
    (st : node_state) : outcome (list transfer_in * node_state) :=
  match pending with
  | [] => Returns ([], st)
  | t :: rest =>
      if mpi_test (request t) then
        do st' <- receive_finished t st;
        update_loop mpi_test rest st'
      else
        do r <- update_loop mpi_test rest st;
        Returns (t :: fst r, snd r)
  end.

Definition update_incoming_transfers (mpi_test : Z -> bool) (st : node_state)
    : outcome node_state :=
  do r <- update_loop mpi_test (incoming_transfers st) st;
  Returns (mk_node_state (fst r) (push_blackboard (snd r)) (handles (snd r))
             (buffer_ptrs (snd r))).

(** What the holder of the returned [shared_ptr<const transfer_handle>] and
    the rest of the node can see of a state: everything but the transfers
    parked inside handles. *)
Definition visible (st : node_state) : node_state :=
  mk_node_state (incoming_transfers st) (push_blackboard st)
    (map (fun h => mk_handle (complete h) None) (handles st))
    (buffer_ptrs st).

(** The storage of a buffer, and whether a handle is complete. *)
Definition storage_of (st : node_state) (bid : Z) : buffer_storage :=
  match buffer_ptrs st !! bid with
  | Some (Some storage) => storage
  | _ => []
  end.

Definition is_complete (st : node_state) (t_handle : nat) : bool :=
  match handles st !! t_handle with
  | Some h => complete h
  | None => false
  end.

Definition data_of (t : transfer_in) : raw_data_handle :=
  mk_raw_data_handle (payload t) (range (header_subrange (header t)))
    (offset (header_subrange (header t))).

(** For examples: an [await_push] for push 7 on buffer 3, the transfer that
    matches it, and an unrelated transfer still on its way. *)
Definition example_box : command_subrange :=
  mk_command_subrange (0, 0, 0)%Z (4, 1, 1)%Z.
Definition example_await : await_push_data := mk_await_push_data 3%Z 7%Z example_box.
Definition example_pkg : command_pkg :=
  mk_command_pkg 0%Z 9%Z AWAIT_PUSH (data_await_push example_await).
Definition example_transfer : transfer_in :=
  mk_transfer_in (mk_data_header 3%Z example_box 7%Z) [1; 2; 3; 4]%Z 1%Z.
Definition example_other : transfer_in :=
  mk_transfer_in (mk_data_header 3%Z example_box 8%Z) [5%Z] 2%Z.
Definition example_node (incoming : list transfer_in) : node_state :=
  mk_node_state incoming ∅ [] {[ 3%Z := Some [] ]}.

End Transfer.

(** ** Dispatch and the executor loop ([runtime::TEST_do_work]) *)

Module Executor.
Import Command.
Local Open Scope Z_scope.

(** The bundle of a vertex of the command DAG. *)
Record vertex_data : Type := mk_vertex_data {
  v_tid : Z;
  v_cid : Z;
  v_cmd : command;
  v_nid : Z;
  v_data : command_data
}.

(** What the master has done so far: the [send_command] calls in order, its
    own queue, and the command counter. *)
Record dispatched : Type := mk_dispatched {
  sent : list (Z * command_pkg);
  master_commands : list command_pkg;
  next_cmd_id : Z
}.

(** The visitor passed to [search_vertex_bf]. *)
Definition visit (d : dispatched) (v : vertex_data) : dispatched :=
  if bool_decide (v_cmd v = NOP) then d
  else
    let pkg := mk_command_pkg (v_tid v) (v_cid v) (v_cmd v) (v_data v) in
    let target := v_nid v in
    if negb (target =? 0)
    then mk_dispatched (sent d ++ [(target, pkg)]) (master_commands d) (next_cmd_id d)
    else mk_dispatched (sent d) (master_commands d ++ [pkg]) (next_cmd_id d).

(** The body of [for(auto n = 1; n < num_nodes; ++n)]. *)
Definition send_shutdown (n : Z) (d : dispatched) : outcome dispatched :=
  let pkg := mk_command_pkg 0 (next_cmd_id d) SHUTDOWN data_none in
  Returns (mk_dispatched (sent d ++ [(n, pkg)]) (master_commands d)
             (wrap_size (next_cmd_id d + 1))).

(** The master's part of [TEST_do_work], after the command graph is built.
    [visited] lists the vertices in the order in which the breadth-first walk
    of [graph_utils], which is not part of the sources, reaches them. *)
Definition dispatch (fuel : nat) (num_nodes : Z) (visited : list vertex_data)
    (next : Z) : outcome dispatched :=
  let d := fold_left visit visited (mk_dispatched [] [] next) in
  do d <- for_loop int_incr fuel num_nodes send_shutdown 1 d;
  Returns (mk_dispatched (sent d)
             (master_commands d ++ [mk_command_pkg 0 (next_cmd_id d) SHUTDOWN data_none])
             (wrap_size (next_cmd_id d + 1))).

(** The packages that reach node [k], in order: the master's queue for node
    0, the messages sent to [k] otherwise. *)
Definition stream (d : dispatched) (k : Z) : list command_pkg :=
  if k =? 0 then master_commands d
  else map snd (List.filter (fun m => fst m =? k) (sent d)).

(** A stream of packages without a shutdown. *)
Definition no_shutdown (l : list command_pkg) : Prop :=
  Forall (fun p => cmd p <> SHUTDOWN) l.

Section Loop.

(** Jobs and their progress belong to collaborators; a job is whatever
    [create_job] makes of a package. *)
Context {job : Type}.
Variable create_job : command_pkg -> job.

(** What the outside world answers during one round of the loop: for each
    job, [is_done()] after its [update()]; for a worker, whether
    [MPI_Iprobe] sees a command. *)
Record round : Type := mk_round {
  is_done : job -> bool;
  probe : bool
}.

(** The loop variables: [done], [jobs], and the packages on their way to
    this node ([master_commands] on the master). *)
Record executor : Type := mk_executor {
  done : bool;
  jobs : list job;
  inbox : list command_pkg
}.

Definition handle_command_pkg (pkg : command_pkg) (js : list job) : outcome (list job) :=
  match cmd pkg with
  | PUSH | AWAIT_PUSH | COMPUTE | MASTER_ACCESS => Returns (js ++ [create_job pkg])
  | _ => Throws (Assertion_failed "Unexpected command")
  end.

(** The body of [while(!done || !jobs.empty())]. *)
Definition loop_body (is_master : bool) (r : round) (st : executor) : outcome executor :=
  let js := List.filter (fun j => negb (is_done r j)) (jobs st) in
  let has_pkg := if is_master then true else probe r in
  match inbox st with
  | pkg :: rest =>
      if has_pkg then
        if bool_decide (cmd pkg = SHUTDOWN) then Returns (mk_executor true js rest)
        else
          do js' <- handle_command_pkg pkg js;
          Returns (mk_executor (done st) js' rest)
      else Returns (mk_executor (done st) js (inbox st))
  | [] => Returns (mk_executor (done st) js [])
  end.

Definition loop_condition (st : executor) : bool :=
  negb (done st) || negb (Nat.eqb (length (jobs st)) 0).

(** The loop, one element of [rounds] per round. *)
Fixpoint executor_loop (is_master : bool) (rounds : list round) (st : executor)
    : outcome executor :=
  if loop_condition st then
    match rounds with
    | [] => OutOfFuel
    | r :: rounds' =>
        do st' <- loop_body is_master r st;
        executor_loop is_master rounds' st'
    end
  else Returns st.

(** What the loop keeps once it was started with [done] unset on a stream
    that ends with its only shutdown: either the shutdown is still to come,
    or it has been taken and nothing is left. *)
Definition shutdown_pending (st : executor) : Prop :=
  (done st = false /\
   exists cmds sd, inbox st = cmds ++ [sd] /\ cmd sd = SHUTDOWN /\ no_shutdown cmds) \/
  (done st = true /\ inbox st = []).

End Loop.
End Executor.

(** ** Master-access tasks and data requirements ([runtime.cc]) *)

Module Lowering.
Import Split Generate.
Local Open Scope Z_scope.

(** One access of a [master_access_task]: mode, offset and range. *)
Record buffer_access : Type := mk_buffer_access {
  bacc_mode : access_mode;
  bacc_offset : range3;
  bacc_range : range3
}.

(** A [master_access_task]: [get_accesses] in the iteration order of its
    map. *)
Record master_access_task : Type := mk_master_access_task {
  get_accesses : list (buffer_id * list buffer_access)
}.

(** [v.at(i)] of [std::vector] with an [unsigned] index. *)
Definition vector_at {A : Type} (v : list A) (i : Z) (what : string) : outcome A :=
  match v !! Z.to_nat i with
  | Some a => Returns a
  | None => Throws (Out_of_range what)
  end.

(** A call of [add_push_cmd], as it is made: for which chunk, to which node,
    from which node, for which buffer and box, and who holds the box. *)
Record push_request (box : Type) : Type := mk_push_request {
  pr_chunk : chunk_id;
  pr_target : node_id;
  pr_source : node_id;
  pr_bid : buffer_id;
  pr_box : box;
  pr_holders : list node_id
}.
Arguments mk_push_request {box} _ _ _ _ _ _.
Arguments pr_chunk {box} _.
Arguments pr_target {box} _.
Arguments pr_source {box} _.
Arguments pr_bid {box} _.
Arguments pr_box {box} _.
Arguments pr_holders {box} _.

(** What [process_task_data_requirements] changes: the command counter and
    the graph of the runtime and [buffer_writers]; and, for the record, the
    calls of [add_push_cmd] made so far. *)
Record lowered (region box command_dag : Type) : Type := mk_lowered {
  low_next_cmd_id : command_id;
  low_command_graph : command_dag;
  low_buffer_writers : gmap Z (gmap Z (list region));
  low_pushes : list (push_request box)
}.
Arguments mk_lowered {region box command_dag} _ _ _ _.
Arguments low_next_cmd_id {region box command_dag} _.
Arguments low_command_graph {region box command_dag} _.
Arguments low_buffer_writers {region box command_dag} _.
Arguments low_pushes {region box command_dag} _.

Section Lowering.

Context {region box buffer_state : Type}.
Variable merge : region -> region -> region.
Variable empty_region : region.
Variable subrange_to_grid_region : subrange range3 -> region.
Variable get_source_nodes : buffer_state -> region -> list (box * list node_id).
Variable umap_emplace :
  buffer_id -> @mode_requirements region -> list (buffer_id * @mode_requirements region) ->
  list (buffer_id * @mode_requirements region).
(** [GridRegion<3>::area]. *)
Variable area : region -> Z.

(** [graph_utils] is not part of the sources: its functions take and return
    the command counter and the graph; the writes to the label of a vertex
    are [label_write] and [label_read]. *)
Context {command_dag vertex task_vertices : Type}.
Variable add_master_access_cmd :
  command_id -> task_vertices -> command_dag -> vertex * command_id * command_dag.
Variable add_push_cmd :
  command_id -> node_id -> node_id -> buffer_id -> task_vertices -> vertex -> box ->
  command_dag -> command_id * command_dag.
Variable label_write : vertex -> buffer_id -> region -> command_dag -> command_dag.
Variable label_read : vertex -> buffer_id -> region -> command_dag -> command_dag.

(** *** [process_master_access_task] *)

(** The body of [for(auto& bacc : it.second)]: the requirement is merged
    into [chunk_requirements[master_node][bid][bacc.mode]].  (A mode other
    than [read] and [write] makes its own key in the innermost map, which
    nothing ever looks up; the entry of the buffer appears all the same.) *)
Definition require_access (bid : buffer_id) (bacc : buffer_access)
    (chunk_requirements : gmap Z (list (buffer_id * @mode_requirements region)))
    : outcome (gmap Z (list (buffer_id * @mode_requirements region))) :=
  let master_node := 0 in
  let req := mk_subrange (bacc_offset bacc) (bacc_range bacc)
               (SIZE_MAX, SIZE_MAX, SIZE_MAX) in
  let update reqs :=
    set_requirement reqs (bacc_mode bacc)
      (merge (requirement_at empty_region reqs (bacc_mode bacc))
         (subrange_to_grid_region req)) in
  Returns (<[master_node := umap_modify umap_emplace update bid
                              (default [] (chunk_requirements !! master_node))]>
             chunk_requirements).

(** The body of [for(auto& it : chunk_requirements.at(master_node))]: the
    same lookup as in [assign_chunks_to_nodes], without a choice of node. *)
Definition lookup_sources (valid_buffer_regions : gmap Z buffer_state)
    (it : buffer_id * @mode_requirements region)
    (sources : gmap Z (gmap Z (list (box * list node_id))))
    : outcome (gmap Z (gmap Z (list (box * list node_id)))) :=
  do found <- read_sources get_source_nodes valid_buffer_regions 0 it sources;
  Returns (snd found).

Definition process_master_access_task (next_cmd_id : command_id) (tid : task_id)
    (matsk : master_access_task) (tv : task_vertices)
    (valid_buffer_regions : gmap Z buffer_state)
    (chunk_nodes : gmap Z node_id)
    (chunk_requirements : gmap Z (list (buffer_id * @mode_requirements region)))
    (chunk_buffer_sources : gmap Z (gmap Z (list (box * list node_id))))
    (chunk_command_vertices : list vertex) (command_graph : command_dag)
    : outcome (@generated region box command_dag vertex) :=
  let master_node := 0 in
  let num_chunks := 1 in
  let chunk_nodes := <[master_node := 0]> chunk_nodes in
  do chunk_requirements <-
    for_each (fun it reqs => for_each (require_access (fst it)) (snd it) reqs)
      (get_accesses matsk) chunk_requirements;
  do entries <- map_at chunk_requirements master_node "chunk_requirements.at(master_node)";
  do chunk_buffer_sources <-
    for_each (lookup_sources valid_buffer_regions) entries chunk_buffer_sources;
  let '(cv, next, graph) := add_master_access_cmd next_cmd_id tv command_graph in
  Returns (mk_generated next num_chunks chunk_nodes chunk_requirements
             chunk_buffer_sources (chunk_command_vertices ++ [cv]) graph).

(** *** [process_task_data_requirements] *)

(** The body of [for(auto& box_sources : buffer_sources)]. *)
Definition push_box (tv : task_vertices) (i : chunk_id) (nid : node_id)
    (bid : buffer_id) (command_vertex : vertex) (box_sources : box * list node_id)
    (st : lowered region box command_dag)
    : outcome (lowered region box command_dag) :=
  let box_src_nodes := snd box_sources in
  if bool_decide (nid ∈ box_src_nodes) then Returns st
  else
    match box_src_nodes with
    | [] => Throws (Undefined_behaviour "*box_src_nodes.cbegin() of an empty set")
    | source_nid :: _ =>
        let '(next, graph) :=
          add_push_cmd (low_next_cmd_id st) nid source_nid bid tv command_vertex
            (fst box_sources) (low_command_graph st) in
        Returns (mk_lowered next graph (low_buffer_writers st)
                   (low_pushes st ++
                    [mk_push_request i nid source_nid bid (fst box_sources) box_src_nodes]))
    end.

(** [buffer_writers[bid][nid].push_back(write_req)]. *)
Definition record_writer (bid : buffer_id) (nid : node_id) (write_req : region)
    (writers : gmap Z (gmap Z (list region))) : gmap Z (gmap Z (list region)) :=
  let of_buffer := default ∅ (writers !! bid) in
  <[bid := <[nid := default [] (of_buffer !! nid) ++ [write_req]]> of_buffer]> writers.

(** The body of [for(auto& it : chunk_requirements.at(i))]. *)
Definition lower_entry (tv : task_vertices)
    (chunk_buffer_sources : gmap Z (gmap Z (list (box * list node_id))))
    (chunk_command_vertices : list vertex) (i : chunk_id) (nid : node_id)
    (it : buffer_id * @mode_requirements region) (st : lowered region box command_dag)
    : outcome (lowered region box command_dag) :=
  let bid := fst it in
  do command_vertex <- vector_at chunk_command_vertices i "chunk_command_vertices.at(i)";
  do st <-
    match write_req (snd it) with
    | Some write_req =>
        check (0 <? area write_req) else "write_req.area() > 0";
        Returns (mk_lowered (low_next_cmd_id st)
                   (label_write command_vertex bid write_req (low_command_graph st))
                   (record_writer bid nid write_req (low_buffer_writers st))
                   (low_pushes st))
    | None => Returns st
    end;
  match read_req (snd it) with
  | Some read_req =>
      check (0 <? area read_req) else "read_req.area() > 0";
      let st := mk_lowered (low_next_cmd_id st)
                  (label_read command_vertex bid read_req (low_command_graph st))
                  (low_buffer_writers st) (low_pushes st) in
      do of_chunk <- map_at chunk_buffer_sources i "chunk_buffer_sources.at(i)";
      do buffer_sources <- map_at of_chunk bid "chunk_buffer_sources.at(i).at(bid)";
      for_each (push_box tv i nid bid command_vertex) buffer_sources st
  | None => Returns st
  end.

(** The body of [for(auto i = 0u; i < chunk_nodes.size(); ++i)]. *)
Definition lower_chunk (tv : task_vertices) (chunk_nodes : gmap Z node_id)
    (chunk_requirements : gmap Z (list (buffer_id * @mode_requirements region)))
    (chunk_buffer_sources : gmap Z (gmap Z (list (box * list node_id))))
    (chunk_command_vertices : list vertex) (i : chunk_id)
    (st : lowered region box command_dag) : outcome (lowered region box command_dag) :=
  do nid <- map_at chunk_nodes i "chunk_nodes.at(i)";
  do entries <- map_at chunk_requirements i "chunk_requirements.at(i)";
  for_each (lower_entry tv chunk_buffer_sources chunk_command_vertices i nid) entries st.

Definition process_task_data_requirements (fuel : nat) (tid : task_id)
    (chunk_nodes : gmap Z node_id)
    (chunk_requirements : gmap Z (list (buffer_id * @mode_requirements region)))
    (chunk_buffer_sources : gmap Z (gmap Z (list (box * list node_id))))
    (tv : task_vertices) (chunk_command_vertices : list vertex)
    (buffer_writers : gmap Z (gmap Z (list region)))
    (next_cmd_id : command_id) (command_graph : command_dag)
    : outcome (lowered region box command_dag) :=
  for_loop uint_incr fuel (Z.of_nat (size chunk_nodes))
    (lower_chunk tv chunk_nodes chunk_requirements chunk_buffer_sources
       chunk_command_vertices)
    0 (mk_lowered next_cmd_id command_graph buffer_writers []).

(** The pushes that the boxes of one cover ask for: one for each box that the
    executing node does not hold, from the first holder. *)
Definition pushes_of_cover (i : chunk_id) (nid : node_id) (bid : buffer_id)
    (cover : list (box * list node_id)) : list (push_request box) :=
  omap (fun box_sources : box * list node_id =>
          if bool_decide (nid ∈ snd box_sources) then None
          else match snd box_sources with
               | [] => None
               | source_nid :: _ =>
                   Some (mk_push_request i nid source_nid bid (fst box_sources)
                           (snd box_sources))
               end)
       cover.

End Lowering.
End Lowering.

(** ** Queries on the command graph and its iterators ([command_graph.h]) *)

Module GraphQueries.
Import CommandGraph.
Local Open Scope N_scope.

(** [get(cid)]. *)
Definition get (cid : command_id) (g : command_graph) : outcome abstract_command :=
  match commands g !! cid with
  | Some cmd => Returns cmd
  | None => Throws (Assertion_failed "commands.find(cid) != commands.end()")
  end.

Definition command_count (g : command_graph) : N := N.of_nat (size (commands g)).

Definition task_command_count (tid : task_id) (g : command_graph) : outcome N :=
  match by_task g !! tid with
  | Some cmds => Returns (N.of_nat (length cmds))
  | None => Throws (Out_of_range "by_task.at(tid)")
  end.

(** [task_commands(tid)], the overload without filters. *)
Definition task_commands (tid : task_id) (g : command_graph) : outcome (list command_id) :=
  match by_task g !! tid with
  | Some cmds => Returns cmds
  | None => Throws (Out_of_range "by_task.at(tid)")
  end.

Definition get_execution_front (nid : node_id) (g : command_graph) : outcome (gset N) :=
  match execution_fronts g !! nid with
  | Some front => Returns front
  | None => Throws (Out_of_range "execution_fronts.at(nid)")
  end.

Definition get_max_pseudo_critical_path_length (g : command_graph) : N :=
  max_pseudo_critical_path_length g.

Definition is_create (o : operation) : bool :=
  match o with
  | op_create _ _ _ => true
  | _ => false
  end.

(** The ids handed out so far, in order. *)
Definition ids_below (n : N) : list command_id := map N.of_nat (seq 0 (N.to_nat n)).

(** Whether [cid] names a task command of task [tid]. *)
Definition is_command_of_task (g : command_graph) (tid : task_id) (cid : command_id) : bool :=
  match commands g !! cid with
  | Some cmd => isa_task_command (get_kind cmd) && (get_tid cmd =? tid)
  | None => false
  end.

(** The task commands of [tid] in the order of their creation. *)
Definition commands_of_task (g : command_graph) (tid : task_id) : list command_id :=
  List.filter (is_command_of_task g tid) (ids_below (next_cmd_id g)).

(** What the indices of a graph built by calls satisfy: the commands are
    those with the ids below the counter, each under its own id; [by_task]
    lists the task commands of every task that has one; and no command has
    a longer path than the longest one noted. *)
Definition indexed (g : command_graph) : Prop :=
  (forall c, is_Some (commands g !! c) <-> c < next_cmd_id g) /\
  N.of_nat (size (commands g)) = next_cmd_id g /\
  (forall c cmd, commands g !! c = Some cmd -> get_cid cmd = c) /\
  (forall tid, default [] (by_task g !! tid) = commands_of_task g tid) /\
  (forall tid l, by_task g !! tid = Some l -> l <> []) /\
  (forall c cmd, commands g !! c = Some cmd ->
     get_pseudo_critical_path_length cmd <= max_pseudo_critical_path_length g).

(** A command on node [n] that is not a [nop] or has a dependency. *)
Definition has_counted_command (g : command_graph) (n : node_id) : Prop :=
  exists c cmd,
    commands g !! c = Some cmd /\ get_nid cmd = n /\
    (get_kind cmd <> nop_command \/ get_dependencies cmd <> []).

End GraphQueries.

Module Iterators.

Section FilterIterator.

(** The iterators of a [filter_iterator] point into one sequence: a position
    is the number of elements before it, [length container] is its end. *)
Context {A : Type}.
Variable container : list A.
Variable fn : A -> bool.

Record filter_iterator : Type := mk_filter_iterator {
  it : nat;
  end_ : nat
}.

(** [*it]. *)
Definition deref (i : filter_iterator) : outcome A :=
  match container !! it i with
  | Some a => Returns a
  | None => Throws (Undefined_behaviour "*it at no element")
  end.

(** [advance()]: [while(it != end && !fn( *it)) ++it]. *)
Fixpoint advance (fuel : nat) (i : filter_iterator) : outcome filter_iterator :=
  match fuel with
  | O => OutOfFuel
  | S fuel' =>
      if negb (Nat.eqb (it i) (end_ i)) then
        do a <- deref i;
        if negb (fn a) then advance fuel' (mk_filter_iterator (S (it i)) (end_ i))
        else Returns i
      else Returns i
  end.

(** The constructor, and with it [make_filter_iterator]. *)
Definition make_filter_iterator (fuel : nat) (begin end_ : nat) : outcome filter_iterator :=
  advance fuel (mk_filter_iterator begin end_).

(** [operator!=]. *)
Definition not_equal (i rhs : filter_iterator) : bool := negb (Nat.eqb (it i) (it rhs)).

(** [operator++]. *)
Definition increment (fuel : nat) (i : filter_iterator) : outcome filter_iterator :=
  if negb (Nat.eqb (it i) (end_ i))
  then advance fuel (mk_filter_iterator (S (it i)) (end_ i))
  else Returns i.

(** A range-[for] over the iterator range from [i] to [last]:
    [for(; i != last; ++i) visit( *i)], the elements visited are collected. *)
Fixpoint traverse (fuel : nat) (i last : filter_iterator) (visited : list A)
    : outcome (list A) :=
  match fuel with
  | O => OutOfFuel
  | S fuel' =>
      if not_equal i last then
        do a <- deref i;
        do i' <- increment fuel i;
        traverse fuel' i' last (visited ++ [a])
      else Returns visited
  end.

(** The range that [task_commands<Filters...>] builds over a sequence:
    [make_iterator_range(make_filter_iterator(begin, end, filter),
    make_filter_iterator(end, end, filter))], walked from its first element
    to its end. *)
Definition filtered_range (fuel : nat) : outcome (list A) :=
  do first <- make_filter_iterator fuel 0 (length container);
  do last <- make_filter_iterator fuel (length container) (length container);
  traverse fuel first last [].

End FilterIterator.

End Iterators.

(** ** The sending side of the buffer transfer manager *)

Module Outgoing.
Import Command Transfer.
Local Open Scope Z_scope.

(** [static_cast<int>] of a [size_t]. *)
Definition to_int (z : Z) : Z :=
  let w := wrap_uint z in
  if w <=? INT_MAX then w else w - 2 ^ 32.

(** [transfer_out]: the header, the bytes behind the data handle, the send
    request, and the handle shared with the caller of [push]. *)
Record transfer_out : Type := mk_transfer_out {
  out_header : data_header;
  out_bytes : list Z;
  out_request : Z;
  out_handle : nat
}.

(** What [MPI_Isend] is given: the rank of the receiver and the composite of
    header and payload. *)
Record message : Type := mk_message {
  msg_target : Z;
  msg_header : data_header;
  msg_payload : list Z
}.

(** The sending side of a node: the transfers on their way, the [complete]
    flags of the handles made by [push] (shared objects, named by position),
    and the sends started so far. *)
Record sender_state : Type := mk_sender_state {
  outgoing_transfers : list transfer_out;
  out_handles : list bool;
  posted : list message
}.

Section Push.

(** Modelled from the spec: [buffer_storage_base::get_data], which is not
    part of the sources: "get_data(offset, range) -> opaque_handle (borrowed
    view with linearized_data_size)".  The bytes of the view are
    [get_data storage offset range]. *)
Variable get_data : buffer_storage -> Z * Z * Z -> Z * Z * Z -> list Z.

(** [runtime::get_buffer_data]. *)
Definition get_buffer_data (bid : Z) (offset range : Z * Z * Z)
    (ptrs : gmap Z (option buffer_storage)) : outcome (list Z) :=
  match ptrs !! bid with
  | None => Throws (Out_of_range "buffer_ptrs.at(bid)")
  | Some None => Throws (Assertion_failed "buffer_ptrs.at(bid) != nullptr")
  | Some (Some storage) => Returns (get_data storage offset range)
  end.

(** [push(pkg)]: the handle it returns, and the state.  [request] is what
    [MPI_Isend] stores in [transfer->request]; [ptrs] is the buffer table of
    the runtime. *)
Definition push (request : Z) (ptrs : gmap Z (option buffer_storage))
    (pkg : command_pkg) (st : sender_state) : outcome (nat * sender_state) :=
  check (bool_decide (cmd pkg = PUSH)) else "pkg.cmd == command::PUSH";
  match data pkg with
  | data_push d =>
      let t_handle := length (out_handles st) in
      do bytes <- get_buffer_data (push_bid d) (offset (push_subrange d))
                    (range (push_subrange d)) ptrs;
      let header := mk_data_header (push_bid d) (push_subrange d) (cid pkg) in
      let transfer := mk_transfer_out header bytes request t_handle in
      Returns (t_handle,
               mk_sender_state (outgoing_transfers st ++ [transfer])
                 (out_handles st ++ [false])
                 (posted st ++ [mk_message (to_int (push_target d)) header bytes]))
  | _ => Throws (Undefined_behaviour "pkg.data.push is not the active member")
  end.

End Push.

(** The loop of [update_outgoing_transfers] over the transfers not yet
    visited.  The result lists the transfers that stay, and the flags. *)
Fixpoint update_outgoing_loop (mpi_test : Z -> bool) (pending : list transfer_out)
    (flags : list bool) : list transfer_out * list bool :=
  match pending with
  | [] => ([], flags)
  | t :: rest =>
      if mpi_test (out_request t) then
        update_outgoing_loop mpi_test rest (<[out_handle t := true]> flags)
      else
        let r := update_outgoing_loop mpi_test rest flags in
        (t :: fst r, snd r)
  end.

Definition update_outgoing_transfers (mpi_test : Z -> bool) (st : sender_state)
    : sender_state :=
  let r := update_outgoing_loop mpi_test (outgoing_transfers st) (out_handles st) in
  mk_sender_state (fst r) (snd r) (posted st).

(** [poll_transfers]: [probed] is what [MPI_Improbe] finds, a message and
    the request under which [MPI_Imrecv] receives it. *)
Definition poll_transfers (probed : option (message * Z)) (st : node_state) : node_state :=
  match probed with
  | None => st
  | Some (msg, request) =>
      mk_node_state
        (incoming_transfers st ++ [mk_transfer_in (msg_header msg) (msg_payload msg) request])
        (push_blackboard st) (handles st) (buffer_ptrs st)
  end.

(** [poll], on the two sides of a node. *)
Definition poll (probed : option (message * Z)) (mpi_test : Z -> bool)
    (s : node_state * sender_state) : outcome (node_state * sender_state) :=
  let st := poll_transfers probed (fst s) in
  do st <- update_incoming_transfers mpi_test st;
  Returns (st, update_outgoing_transfers mpi_test (snd s)).

(** Whether the handle of a push is complete. *)
Definition push_complete (st : sender_state) (t_handle : nat) : bool :=
  default false (out_handles st !! t_handle).

(** Sequences of calls on the sending side, from the start of the manager. *)
Inductive sender_call : Type :=
  | call_push (request : Z) (ptrs : gmap Z (option buffer_storage)) (pkg : command_pkg)
  | call_update_outgoing (mpi_test : Z -> bool).

Definition sender_step (get_data : buffer_storage -> Z * Z * Z -> Z * Z * Z -> list Z)
    (c : sender_call) (st : sender_state) : outcome sender_state :=
  match c with
  | call_push request ptrs pkg =>
      do r <- push get_data request ptrs pkg st;
      Returns (snd r)
  | call_update_outgoing mpi_test => Returns (update_outgoing_transfers mpi_test st)
  end.

Definition sender_run (get_data : buffer_storage -> Z * Z * Z -> Z * Z * Z -> list Z)
    (calls : list sender_call) : outcome sender_state :=
  for_each (sender_step get_data) calls (mk_sender_state [] [] []).

(** What the sending side keeps: the transfers on their way have handles of
    their own, made by [push]; a handle is incomplete exactly as long as its
    transfer is on its way; and every push has started one send. *)
Definition handles_follow_transfers (st : sender_state) : Prop :=
  NoDup (out_handle <$> outgoing_transfers st) /\
  (forall t, t ∈ outgoing_transfers st -> (out_handle t < length (out_handles st))%nat) /\
  (forall h, (h < length (out_handles st))%nat ->
     push_complete st h = false <->
     exists t, t ∈ outgoing_transfers st /\ out_handle t = h) /\
  length (posted st) = length (out_handles st).

End Outgoing.

(** ** Measures of a split *)

Module Shares.
Import Split.
Local Open Scope Z_scope.

(** The number of indices that the chunks of a split hold together. *)
Definition total_range (chunks : list (subrange range1)) : Z :=
  foldr Z.add 0 (map range chunks).

End Shares.

(** ** Node ranges and what a task leaves behind *)

Module Outcomes.
Import Split Generate.
Local Open Scope Z_scope.

(** The nodes [first], [first + 1], ..., [count] of them. *)
Definition node_range (first : Z) (count : nat) : list node_id :=
  map (fun k => first + Z.of_nat k) (seq 0 count).

(** [chunk_buffer_sources[i][bid]] when both keys are there. *)
Definition sources_at {box : Type} (sources : gmap Z (gmap Z (list (box * list node_id))))
    (i : chunk_id) (bid : buffer_id) : option (list (box * list node_id)) :=
  sources !! i ≫= fun of_chunk => of_chunk !! bid.

Section ComputeCommands.
Context {R command_dag vertex task_vertices : Type}.
Variable add_compute_cmd :
  command_id -> node_id -> task_vertices -> subrange range3 -> command_dag ->
  vertex * command_id * command_dag.
Variable promote : subrange R -> subrange range3.

(** One compute command for each of [chunks], the first of them being chunk
    [i], each on the node that [nodes] has for it, node 0 when it has none:
    the command counter, the vertices and the graph afterwards. *)
Fixpoint compute_commands (tv : task_vertices) (nodes : gmap Z node_id)
    (chunks : list (subrange R)) (i : Z) (acc : command_id * list vertex * command_dag)
    : command_id * list vertex * command_dag :=
  match chunks with
  | [] => acc
  | chunk :: rest =>
      let '(next, vertices, graph) := acc in
      let '(cv, next', graph') :=
        add_compute_cmd next (default 0 (nodes !! i)) tv (promote chunk) graph in
      compute_commands tv nodes rest (i + 1) (next', vertices ++ [cv], graph')
  end.

End ComputeCommands.

(** [buffer_writers[bid][nid]], empty when a key is missing. *)
Definition writers_at {region : Type} (writers : gmap Z (gmap Z (list region)))
    (bid : buffer_id) (nid : node_id) : list region :=
  default [] (writers !! bid ≫= fun of_buffer => of_buffer !! nid).

(** [m.find(k)] on a map kept as the list of its entries. *)
Fixpoint assoc {V : Type} (k : Z) (m : list (Z * V)) : option V :=
  match m with
  | [] => None
  | (k', v) :: m' => if k' =? k then Some v else assoc k m'
  end.

Section Requirements.
Context {region R : Type}.
Variable merge : region -> region -> region.
Variable empty_region : region.
Variable subrange_to_grid_region : subrange range3 -> region.

(** [chunk_requirements[i][bid][mode]] when all three keys are there, for
    the modes [read] and [write]. *)
Definition requirement_of
    (chunk_requirements : gmap Z (list (buffer_id * @mode_requirements region)))
    (i : chunk_id) (bid : buffer_id) (mode : access_mode) : option region :=
  entries ← chunk_requirements !! i;
  reqs ← assoc bid entries;
  match mode with
  | mode_read => read_req reqs
  | mode_write => write_req reqs
  | _ => None
  end.

(** What a range mapper asks of a chunk, by the dimensionality of its
    buffer. *)
Definition mapped (rm : range_mapper R) (chunk : subrange R) : subrange range3 :=
  if get_buffer_dimensions rm =? 2 then map_2 rm chunk
  else if get_buffer_dimensions rm =? 3 then map_3 rm chunk
  else map_1 rm chunk.

Definition same_mode (a b : access_mode) : bool :=
  match a, b with
  | mode_read, mode_read | mode_write, mode_write
  | mode_read_write, mode_read_write | mode_discard_write, mode_discard_write
  | mode_discard_read_write, mode_discard_read_write | mode_atomic, mode_atomic => true
  | _, _ => false
  end.

(** The requirement of a chunk on a buffer in one mode, after the range
    mappers of the buffer: the regions of the mappers of that mode, merged in
    their order into what was there. *)
Fixpoint merged_over (mappers : list (range_mapper R)) (mode : access_mode)
    (chunk : subrange R) (acc : option region) : option region :=
  match mappers with
  | [] => acc
  | rm :: rest =>
      merged_over rest mode chunk
        (if same_mode (get_access_mode rm) mode
         then Some (merge (default empty_region acc) (subrange_to_grid_region (mapped rm chunk)))
         else acc)
  end.

(** The same after the range mappers of all buffers. *)
Fixpoint merged_requirement (rms : list (buffer_id * list (range_mapper R)))
    (bid : buffer_id) (mode : access_mode) (chunk : subrange R) (acc : option region)
    : option region :=
  match rms with
  | [] => acc
  | (b, mappers) :: rest =>
      merged_requirement rest bid mode chunk
        (if b =? bid then merged_over mappers mode chunk acc else acc)
  end.

End Requirements.

Section Pushes.
Import Lowering.
Context {region box : Type}.

(** The pushes that an entry of a chunk asks for: those of the cover
    recorded for the buffer when the entry has a read requirement. *)
Definition pushes_of_entry (sources : gmap Z (gmap Z (list (box * list node_id))))
    (i : chunk_id) (nid : node_id) (it : buffer_id * @mode_requirements region)
    : list (push_request box) :=
  match read_req (snd it) with
  | Some _ => pushes_of_cover i nid (fst it) (default [] (sources_at sources i (fst it)))
  | None => []
  end.

Definition pushes_of_chunk (chunk_nodes : gmap Z node_id)
    (chunk_requirements : gmap Z (list (buffer_id * @mode_requirements region)))
    (sources : gmap Z (gmap Z (list (box * list node_id)))) (i : chunk_id)
    : list (push_request box) :=
  match chunk_nodes !! i, chunk_requirements !! i with
  | Some nid, Some entries => flat_map (pushes_of_entry sources i nid) entries
  | _, _ => []
  end.

End Pushes.

Section MasterAccess.
Import Lowering.
Context {region box buffer_state : Type}.
Variable merge : region -> region -> region.
Variable empty_region : region.
Variable subrange_to_grid_region : subrange range3 -> region.
Variable get_source_nodes : buffer_state -> region -> list (box * list node_id).
Variable umap_emplace :
  buffer_id -> @mode_requirements region -> list (buffer_id * @mode_requirements region) ->
  list (buffer_id * @mode_requirements region).
Variable area : region -> Z.
Context {command_dag vertex task_vertices : Type}.
Variable add_master_access_cmd :
  command_id -> task_vertices -> command_dag -> vertex * command_id * command_dag.
Variable add_push_cmd :
  command_id -> node_id -> node_id -> buffer_id -> task_vertices -> vertex -> box ->
  command_dag -> command_id * command_dag.
Variable label_write : vertex -> buffer_id -> region -> command_dag -> command_dag.
Variable label_read : vertex -> buffer_id -> region -> command_dag -> command_dag.


End MasterAccess.

End Outcomes.

(** ** The commands of a node *)

Module Streams.
Import Command Executor.
Local Open Scope Z_scope.

(** The package that the visitor makes of a vertex. *)
Definition pkg_of (v : vertex_data) : command_pkg :=
  mk_command_pkg (v_tid v) (v_cid v) (v_cmd v) (v_data v).

(** The packages of the vertices for node [k] that are not [NOP], in the
    order of the walk. *)
Definition commands_for (k : Z) (visited : list vertex_data) : list command_pkg :=
  map pkg_of
    (List.filter (fun v => negb (bool_decide (v_cmd v = NOP)) && (v_nid v =? k)) visited).

(** The shutdown package with command id [c]. *)
Definition shutdown_pkg (c : Z) : command_pkg := mk_command_pkg 0 c SHUTDOWN data_none.

End Streams.

(** * Properties *)

(** ** Loops *)

Module MachineFacts.
Local Open Scope Z_scope.

Lemma wrap_size_small z : 0 <= z <= SIZE_MAX -> wrap_size z = z.
Proof.
  unfold SIZE_MAX, wrap_size. intros Hz. apply Z.mod_small.
  change (2 ^ 64) with 18446744073709551616 in *. lia.
Qed.

Lemma wrap_uint_small z : 0 <= z <= UINT_MAX -> wrap_uint z = z.
Proof.
  unfold UINT_MAX, wrap_uint. intros Hz. apply Z.mod_small.
  change (2 ^ 32) with 4294967296 in *. lia.
Qed.

Lemma wrap_uint_range z : 0 <= wrap_uint z <= UINT_MAX.
Proof.
  unfold UINT_MAX, wrap_uint. change (2 ^ 32) with 4294967296.
  pose proof (Z.mod_pos_bound z 4294967296). lia.
Qed.

Lemma uint_incr_small i : 0 <= i < UINT_MAX -> uint_incr i = Returns (i + 1).
Proof. intros Hi. unfold uint_incr. rewrite wrap_uint_small; [reflexivity | lia]. Qed.

Lemma size_incr_small i : 0 <= i < SIZE_MAX -> size_incr i = Returns (i + 1).
Proof. intros Hi. unfold size_incr. rewrite wrap_size_small; [reflexivity | lia]. Qed.

Lemma int_incr_small i : 0 <= i < INT_MAX -> int_incr i = Returns (i + 1).
Proof.
  intros Hi. unfold int_incr.
  destruct (Z.ltb_spec i INT_MAX); [reflexivity | lia].
Qed.

(** A counter that stays in its range makes the loop a plain iteration:
    [count] rounds and out, given more fuel than rounds. *)
Lemma for_loop_iterate {S : Type} (incr : Z -> outcome Z) (limit : Z)
    (body : Z -> S -> outcome S) :
  (forall i, 0 <= i < limit -> incr i = Returns (i + 1)) ->
  forall (count fuel : nat) (bound i : Z) (s : S),
    0 <= i -> i + Z.of_nat count = bound -> bound <= limit -> (count < fuel)%nat ->
    for_loop incr fuel bound body i s = iterate body count i s.
Proof.
  intros Hincr. induction count as [|count IH]; intros fuel bound i s Hi Hsum Hb Hf.
  - destruct fuel as [|fuel]; [lia|]. simpl.
    destruct (Z.ltb_spec i bound); [lia | reflexivity].
  - destruct fuel as [|fuel]; [lia|]. simpl.
    destruct (Z.ltb_spec i bound); [|lia].
    destruct (body i s) as [s'| |]; simpl; try reflexivity.
    rewrite Hincr by lia. simpl. apply IH; lia.
Qed.

(** With a bound above [UINT_MAX] an [unsigned] counter never reaches it. *)
Lemma for_loop_uint_stuck {S : Type} (body : Z -> S -> outcome S) (bound : Z) :
  UINT_MAX < bound ->
  forall (fuel : nat) (i : Z) (s : S),
    0 <= i <= UINT_MAX ->
    forall r, for_loop uint_incr fuel bound body i s <> Returns r.
Proof.
  intros Hb. induction fuel as [|fuel IH]; intros i s Hi r; simpl; [discriminate|].
  destruct (Z.ltb_spec i bound); [|lia].
  destruct (body i s) as [s'| |]; simpl; try discriminate.
  apply IH, wrap_uint_range.
Qed.

(** A loop that returns has kept what every round keeps. *)
Lemma for_loop_invariant {S : Type} (incr : Z -> outcome Z) (body : Z -> S -> outcome S)
    (bound : Z) (Inv : S -> Prop) :
  (forall i s s', Inv s -> body i s = Returns s' -> Inv s') ->
  forall (fuel : nat) (i : Z) (s s' : S),
    Inv s -> for_loop incr fuel bound body i s = Returns s' -> Inv s'.
Proof.
  intros Hbody. induction fuel as [|fuel IH]; intros i s s' Hs; simpl; [discriminate|].
  destruct (i <? bound); [|intros [= <-]; exact Hs].
  destruct (body i s) as [s1| |] eqn:Hb; simpl; try discriminate.
  destruct (incr i) as [i1| |]; simpl; try discriminate.
  apply IH. eapply Hbody; eassumption.
Qed.

Lemma for_each_invariant {A S : Type} (body : A -> S -> outcome S) (P : A -> Prop)
    (Inv : S -> Prop) :
  (forall a s s', P a -> Inv s -> body a s = Returns s' -> Inv s') ->
  forall (l : list A) (s s' : S),
    Forall P l -> Inv s -> for_each body l s = Returns s' -> Inv s'.
Proof.
  intros Hbody. induction l as [|a l IH]; intros s s' Hl Hs; cbn [for_each].
  - intros [= <-]. exact Hs.
  - destruct (body a s) as [s1| |] eqn:Ha; cbn [bind]; try discriminate.
    apply Forall_cons in Hl as [Hpa Hl]. apply IH; [exact Hl|]. eapply Hbody; eassumption.
Qed.

Lemma iterate_total {S : Type} (body : Z -> S -> outcome S) :
  (forall i s, exists s', body i s = Returns s') ->
  forall (count : nat) (i : Z) (s : S), exists s', iterate body count i s = Returns s'.
Proof.
  intros Hbody. induction count as [|count IH]; intros i s; simpl; [eauto|].
  destruct (Hbody i s) as [s1 ->]. simpl. apply IH.
Qed.

End MachineFacts.

(** ** The equal split *)

Module SplitProofs.
Import Split MachineFacts.
Local Open Scope Z_scope.

Lemma equal_chunks_S gs len n (k : nat) :
  equal_chunks gs len n (S k) = equal_chunks gs len n k ++ [nth_chunk gs len n (Z.of_nat k)].
Proof. unfold equal_chunks. rewrite seq_S, map_app. reflexivity. Qed.

Lemma equal_chunks_length gs len n (k : nat) : length (equal_chunks gs len n k) = k.
Proof. unfold equal_chunks. rewrite length_map, length_seq. reflexivity. Qed.

Lemma equal_chunks_lookup gs len n (count k : nat) :
  (k < count)%nat ->
  equal_chunks gs len n count !! k = Some (nth_chunk gs len n (Z.of_nat k)).
Proof.
  intros Hk. unfold equal_chunks. rewrite list_lookup_fmap.
  rewrite lookup_seq_lt by lia. reflexivity.
Qed.

Lemma elem_of_equal_chunks gs len n (count : nat) c :
  c ∈ equal_chunks gs len n count <->
  exists k, 0 <= k < Z.of_nat count /\ c = nth_chunk gs len n k.
Proof.
  unfold equal_chunks. rewrite list_elem_of_fmap. split.
  - intros (k & -> & Hk). apply elem_of_seq in Hk. exists (Z.of_nat k). split; [lia | reflexivity].
  - intros (k & Hk & ->). exists (Z.to_nat k). split.
    + rewrite Z2Nat.id by lia. reflexivity.
    + apply elem_of_seq. lia.
Qed.

(** The quotient and the remainder of the extent. *)
Lemma div_mod_facts len n :
  0 <= len -> 0 < n ->
  0 <= len / n /\ 0 <= len mod n < n /\ len = n * (len / n) + len mod n.
Proof.
  intros Hlen Hn. pose proof (Z.div_pos len n Hlen Hn).
  pose proof (Z.mod_pos_bound len n Hn). pose proof (Z.div_mod len n). lia.
Qed.

(** State of the loop of [split_equal] after [i] rounds, and after [count]
    more. *)
Lemma split_equal_rounds (sr : subrange range1) (n : Z) :
  is_size (range sr) -> 0 < n <= SIZE_MAX ->
  forall (count i : nat),
    Z.of_nat (i + count) <= n ->
    iterate (split_equal_body sr n) count (Z.of_nat i)
      (mk_subrange (Z.of_nat i * (range sr / n)) (range sr / n) (global_size sr),
       equal_chunks (global_size sr) (range sr) n i)
    = Returns
        (mk_subrange (Z.of_nat (i + count) * (range sr / n)) (range sr / n) (global_size sr),
         equal_chunks (global_size sr) (range sr) n (i + count)).
Proof.
  intros [Hlen Hmax] Hn.
  destruct (div_mod_facts (range sr) n Hlen ltac:(lia)) as (Hq & Hr & Hqr).
  induction count as [|count IH]; intros i Hi.
  - simpl. rewrite Nat.add_0_r. reflexivity.
  - cbn [iterate]. unfold split_equal_body at 1. cbn [bind start range global_size].
    rewrite (wrap_size_small (n - 1)) by lia.
    rewrite (wrap_size_small (Z.of_nat i * (range sr / n) + range sr / n)) by nia.
    replace (Z.of_nat i * (range sr / n) + range sr / n)
      with (Z.of_nat (S i) * (range sr / n)) by lia.
    replace (Z.of_nat i + 1) with (Z.of_nat (S i)) by lia.
    replace (i + S count)%nat with (S i + count)%nat by lia.
    rewrite <- IH by lia. f_equal. f_equal.
    rewrite equal_chunks_S. unfold nth_chunk.
    destruct (Z.eqb_spec (Z.of_nat i) (n - 1)) as [Heq|Hne]; [|reflexivity].
    rewrite Nat2Z.id.
    pose proof (equal_chunks_length (global_size sr) (range sr) n i) as Hlen_i.
    rewrite <- (Nat.add_0_r i) at 1. rewrite <- Hlen_i at 1.
    rewrite alter_app_r. cbn [alter list_alter start range global_size].
    rewrite wrap_size_small by nia. reflexivity.
Qed.

Lemma split_equal_1_returns (fuel : nat) (sr : subrange range1) (n : Z) :
  is_size (range sr) -> 0 < n <= UINT_MAX -> (Z.to_nat n < fuel)%nat ->
  split_equal_1 fuel sr n
  = Returns (equal_chunks (global_size sr) (range sr) n (Z.to_nat n)).
Proof.
  intros Hsize Hn Hfuel. unfold split_equal_1.
  destruct (Z.ltb_spec 0 n); [|lia]. cbn [assert bind].
  rewrite (for_loop_iterate uint_incr UINT_MAX _ uint_incr_small (Z.to_nat n))
    by (unfold UINT_MAX in *; lia).
  pose proof (split_equal_rounds sr n Hsize) as Hrounds.
  specialize (Hrounds ltac:(unfold UINT_MAX, SIZE_MAX in *; lia) (Z.to_nat n) 0%nat).
  change (Z.of_nat 0) with 0 in Hrounds. rewrite Z.mul_0_l in Hrounds.
  change (0 + Z.to_nat n)%nat with (Z.to_nat n) in Hrounds.
  change (equal_chunks (global_size sr) (range sr) n 0) with (@nil (subrange range1)) in Hrounds.
  rewrite Hrounds by lia. reflexivity.
Qed.

(** No chunk list comes back for a count that the [unsigned] counter cannot
    reach. *)
Lemma split_equal_1_bounded (fuel : nat) (sr : subrange range1) (n : Z) chunks :
  split_equal_1 fuel sr n = Returns chunks -> n <= UINT_MAX.
Proof.
  unfold split_equal_1. intros Hret.
  destruct (Z_le_gt_dec n UINT_MAX) as [Hle|Hgt]; [exact Hle | exfalso].
  destruct (0 <? n); cbn [assert bind] in Hret; [|discriminate].
  match type of Hret with
  | context [for_loop ?incr ?f ?b ?body ?i ?s] =>
      destruct (for_loop incr f b body i s) as [st| |] eqn:Hloop
  end; try discriminate.
  refine (for_loop_uint_stuck _ n _ fuel 0 _ _ st Hloop); unfold UINT_MAX in *; lia.
Qed.

(** The chunks cover the extent, every index once. *)
Lemma nth_chunk_inside gs len n k x :
  0 <= len -> 0 < n -> 0 <= k < n ->
  in_subrange_1 x (nth_chunk gs len n k) -> 0 <= x < len.
Proof.
  intros Hlen Hn Hk. destruct (div_mod_facts len n Hlen Hn) as (Hq & Hr & Hqr).
  unfold in_subrange_1, nth_chunk. cbn [start range].
  destruct (Z.eqb_spec k (n - 1)) as [->|Hne]; intros Hx; nia.
Qed.

Lemma nth_chunk_found gs len n x :
  0 <= len -> 0 < n -> 0 <= x < len ->
  exists k, 0 <= k < n /\ in_subrange_1 x (nth_chunk gs len n k).
Proof.
  intros Hlen Hn Hx. destruct (div_mod_facts len n Hlen Hn) as (Hq & Hr & Hqr).
  destruct (Z.eq_dec (len / n) 0) as [Hz|Hnz].
  - exists (n - 1). split; [lia|]. unfold in_subrange_1, nth_chunk. cbn [start range].
    rewrite Z.eqb_refl. nia.
  - pose proof (Z.div_mod x (len / n) Hnz) as Hdm.
    pose proof (Z.mod_pos_bound x (len / n) ltac:(lia)) as Hmb.
    assert (0 <= x / (len / n)) as Hpos by (apply Z.div_pos; lia).
    destruct (Z_lt_le_dec (x / (len / n)) (n - 1)) as [Hlt|Hge].
    + exists (x / (len / n)). split; [lia|]. unfold in_subrange_1, nth_chunk.
      cbn [start range]. destruct (Z.eqb_spec (x / (len / n)) (n - 1)); [lia|]. nia.
    + exists (n - 1). split; [lia|]. unfold in_subrange_1, nth_chunk. cbn [start range].
      rewrite Z.eqb_refl. nia.
Qed.

Lemma nth_chunk_disjoint gs len n j k x :
  0 <= len -> 0 < n -> 0 <= j < n -> 0 <= k < n -> j <> k ->
  in_subrange_1 x (nth_chunk gs len n j) -> in_subrange_1 x (nth_chunk gs len n k) -> False.
Proof.
  intros Hlen Hn Hj Hk Hjk. destruct (div_mod_facts len n Hlen Hn) as (Hq & Hr & Hqr).
  unfold in_subrange_1, nth_chunk. cbn [start range].
  destruct (Z.eqb_spec j (n - 1)), (Z.eqb_spec k (n - 1)); intros Hxj Hxk; nia.
Qed.

Lemma equal_chunks_cover gs len n x :
  0 <= len -> 0 < n ->
  (exists c, c ∈ equal_chunks gs len n (Z.to_nat n) /\ in_subrange_1 x c) <-> 0 <= x < len.
Proof.
  intros Hlen Hn. split.
  - intros (c & Hc & Hx). apply elem_of_equal_chunks in Hc as (k & Hk & ->).
    apply (nth_chunk_inside gs len n k x Hlen Hn); [lia | exact Hx].
  - intros Hx. destruct (nth_chunk_found gs len n x Hlen Hn Hx) as (k & Hk & Hin).
    exists (nth_chunk gs len n k). split; [|assumption].
    apply elem_of_equal_chunks. exists k. split; [lia | reflexivity].
Qed.

(** C10 (as amended).  For every 1-D subrange [sr] and every [num_chunks]
    from 1 to [UINT_MAX], the range of the loop counter, [split_equal]
    returns [num_chunks] chunks; chunk [k] starts at [k * (range / num_chunks)],
    so the offsets start at 0 and each chunk begins where the one before
    ends; together the chunks cover exactly the indices [0 <= x < sr.range];
    [sr.start] has no influence on the result; and whenever [sr.start] is not
    0 and the range is not empty, what the chunks cover differs from
    [sr.start <= x < sr.start + sr.range]. *)
Theorem split_equal_tiles_from_zero (fuel : nat) (sr : subrange range1) (num_chunks : Z) :
  is_size (range sr) -> 0 < num_chunks <= UINT_MAX -> (Z.to_nat num_chunks < fuel)%nat ->
  exists chunks,
    split_equal fuel sr num_chunks = Returns chunks /\
    length chunks = Z.to_nat num_chunks /\
    (forall k, 0 <= k < num_chunks ->
       chunks !! Z.to_nat k
       = Some (mk_subrange (k * (range sr / num_chunks))
                 (if k =? num_chunks - 1
                  then range sr / num_chunks + range sr mod num_chunks
                  else range sr / num_chunks)
                 (global_size sr))) /\
    (forall x, (exists c, c ∈ chunks /\ in_subrange_1 x c) <-> 0 <= x < range sr) /\
    (forall s, split_equal fuel (mk_subrange s (range sr) (global_size sr)) num_chunks
               = Returns chunks) /\
    (0 < start sr -> 0 < range sr ->
     ~ forall x, (exists c, c ∈ chunks /\ in_subrange_1 x c) <-> in_subrange_1 x sr).
Proof.
  intros Hsize Hn Hfuel.
  exists (equal_chunks (global_size sr) (range sr) num_chunks (Z.to_nat num_chunks)).
  assert (forall x, (exists c, c ∈ equal_chunks (global_size sr) (range sr) num_chunks
                                 (Z.to_nat num_chunks) /\ in_subrange_1 x c)
                    <-> 0 <= x < range sr) as Hcover
    by (intros x; apply equal_chunks_cover; [apply Hsize | lia]).
  refine (conj _ (conj _ (conj _ (conj _ (conj _ _))))).
  - apply split_equal_1_returns; assumption.
  - apply equal_chunks_length.
  - intros k Hk. rewrite equal_chunks_lookup by lia. rewrite Z2Nat.id by lia. reflexivity.
  - apply Hcover.
  - intros s. apply (split_equal_1_returns fuel (mk_subrange s (range sr) (global_size sr)));
      assumption.
  - intros Hstart Hrange Hall.
    assert (in_subrange_1 0 sr) as Hzero by (apply Hall, Hcover; lia).
    unfold in_subrange_1 in Hzero. lia.
Qed.

Lemma split_equal_tiles_from_zero_witness :
  exists chunks,
    split_equal 5 (mk_subrange 5 10 10) 3 = Returns chunks /\
    length chunks = 3%nat /\
    chunks !! 2%nat = Some (mk_subrange 6 4 10).
Proof.
  destruct (split_equal_tiles_from_zero 5 (mk_subrange 5 10 10) 3)
    as (chunks & Hret & Hlen & Hnth & _).
  - unfold is_size, SIZE_MAX. cbn [range]. lia.
  - unfold UINT_MAX. lia.
  - vm_compute. lia.
  - exists chunks. split; [exact Hret|]. split; [exact Hlen|]. exact (Hnth 2 ltac:(lia)).
Defined.

(** C10, as stated, fails for a chunk count above [UINT_MAX]: the counter
    [auto i = 0u] wraps before it reaches [num_chunks], and the loop is never
    left with a chunk list. *)
Lemma split_equal_counter_wraps :
  ~ exists fuel chunks, split_equal fuel (mk_subrange 0 1 1) (2 ^ 32) = Returns chunks.
Proof.
  intros (fuel & chunks & Hret).
  apply split_equal_1_bounded in Hret. unfold UINT_MAX in Hret. lia.
Qed.

End SplitProofs.

(** ** Chunks of a compute task *)


(** ** Chunks of a compute task *)

Module ChunkProofs.
Import Split Generate MachineFacts SplitProofs.
Local Open Scope Z_scope.

(** [num_nodes] comes from an [int]; the worker count is then [num_nodes - 1],
    or 1 on a single node. *)
Lemma num_worker_nodes_max (world_size : Z) :
  1 <= world_size <= INT_MAX ->
  runtime_num_nodes world_size = world_size /\
  num_worker_nodes (runtime_num_nodes world_size) = Z.max (world_size - 1) 1 /\
  1 <= num_worker_nodes (runtime_num_nodes world_size) <= INT_MAX.
Proof.
  intros Hws. unfold runtime_num_nodes, num_worker_nodes.
  assert (INT_MAX <= SIZE_MAX) as Hmax by (unfold INT_MAX, SIZE_MAX; lia).
  rewrite (wrap_size_small world_size) by lia.
  rewrite (wrap_size_small (world_size - 1)) by lia. lia.
Qed.

Lemma equal_chunks_lookup_inv gs len n (count i : nat) c :
  equal_chunks gs len n count !! i = Some c ->
  (i < count)%nat /\ c = nth_chunk gs len n (Z.of_nat i).
Proof.
  intros Hc. pose proof (lookup_lt_Some _ _ _ Hc) as Hi.
  rewrite equal_chunks_length in Hi. split; [exact Hi|].
  rewrite equal_chunks_lookup in Hc by exact Hi. congruence.
Qed.

(** The chunks of a one-dimensional task. *)
Lemma task_chunks_1 (fuel : nat) (ctsk : compute_task range1) (n : Z) :
  is_size (get_global_size ctsk) -> 0 < n <= UINT_MAX -> (Z.to_nat n < fuel)%nat ->
  task_chunks fuel ctsk n
  = Returns (equal_chunks (get_global_size ctsk) (get_global_size ctsk) n (Z.to_nat n)).
Proof.
  intros Hgs Hn Hfuel. unfold task_chunks, split_equal, splittable_1.
  rewrite split_equal_1_returns by assumption. reflexivity.
Qed.

Lemma task_chunks_2 (fuel : nat) (ctsk : compute_task range2) (n : Z) :
  is_size (fst (get_global_size ctsk)) -> 0 < n <= UINT_MAX -> (Z.to_nat n < fuel)%nat ->
  task_chunks fuel ctsk n
  = Returns (map (widen (get_global_size ctsk))
               (equal_chunks (fst (get_global_size ctsk)) (fst (get_global_size ctsk)) n
                  (Z.to_nat n))).
Proof.
  intros Hgs Hn Hfuel. unfold task_chunks, split_equal, splittable_2, split_equal_2.
  rewrite split_equal_1_returns by assumption. reflexivity.
Qed.

Lemma in_widen gs row p :
  in_subrange_2 p (widen gs row) <-> in_subrange_1 (fst p) row /\ 0 <= snd p < snd gs.
Proof. unfold in_subrange_2, in_subrange_1, widen. cbn [start range fst snd]. lia. Qed.

(** C1.  On [num_nodes >= 1] nodes (the value of an [int]), a compute task
    of one or two dimensions is split into [num_chunks = max(num_nodes - 1, 1)]
    chunks along dimension 0; chunk [k] begins at [k * (range / num_chunks)]
    and has [range / num_chunks] rows, the last one the remainder more; the
    chunks cover exactly the global range of the task, and no index lies in
    two of them. *)
Theorem compute_task_chunks_partition (world_size : Z) (fuel : nat) :
  1 <= world_size <= INT_MAX ->
  let num_nodes := runtime_num_nodes world_size in
  let num_chunks := Z.max (num_nodes - 1) 1 in
  (Z.to_nat num_chunks < fuel)%nat ->
  num_worker_nodes num_nodes = num_chunks /\
  (forall ctsk : compute_task range1,
     let gs := get_global_size ctsk in
     is_size gs ->
     exists chunks,
       task_chunks fuel ctsk (num_worker_nodes num_nodes) = Returns chunks /\
       length chunks = Z.to_nat num_chunks /\
       (forall k, 0 <= k < num_chunks ->
          chunks !! Z.to_nat k
          = Some (mk_subrange (k * (gs / num_chunks))
                    (if k =? num_chunks - 1
                     then gs / num_chunks + gs mod num_chunks
                     else gs / num_chunks)
                    gs)) /\
       (forall x, (exists c, c ∈ chunks /\ in_subrange_1 x c) <-> 0 <= x < gs) /\
       (forall (i j : nat) c d x,
          chunks !! i = Some c -> chunks !! j = Some d -> i <> j ->
          in_subrange_1 x c -> in_subrange_1 x d -> False)) /\
  (forall ctsk : compute_task range2,
     let gs := get_global_size ctsk in
     is_size (fst gs) ->
     exists chunks,
       task_chunks fuel ctsk (num_worker_nodes num_nodes) = Returns chunks /\
       length chunks = Z.to_nat num_chunks /\
       (forall k, 0 <= k < num_chunks ->
          chunks !! Z.to_nat k
          = Some (mk_subrange (k * (fst gs / num_chunks), 0)
                    (if k =? num_chunks - 1
                     then fst gs / num_chunks + fst gs mod num_chunks
                     else fst gs / num_chunks,
                     snd gs)
                    gs)) /\
       (forall p, (exists c, c ∈ chunks /\ in_subrange_2 p c)
                  <-> 0 <= fst p < fst gs /\ 0 <= snd p < snd gs) /\
       (forall (i j : nat) c d p,
          chunks !! i = Some c -> chunks !! j = Some d -> i <> j ->
          in_subrange_2 p c -> in_subrange_2 p d -> False)).
Proof.
  intros Hws num_nodes num_chunks Hfuel.
  destruct (num_worker_nodes_max world_size Hws) as (Hnn & Hnw & Hrange).
  assert (num_worker_nodes num_nodes = num_chunks) as Hchunks
    by (unfold num_chunks, num_nodes; rewrite Hnw, Hnn; reflexivity).
  assert (0 < num_chunks <= UINT_MAX) as Hn
    by (rewrite <- Hchunks; unfold num_nodes, INT_MAX, UINT_MAX in *; lia).
  split; [exact Hchunks|]. rewrite Hchunks. split.
  - intros ctsk gs Hgs.
    exists (equal_chunks gs gs num_chunks (Z.to_nat num_chunks)).
    refine (conj _ (conj _ (conj _ (conj _ _)))).
    + apply task_chunks_1; assumption.
    + apply equal_chunks_length.
    + intros k Hk. rewrite equal_chunks_lookup by lia.
      rewrite Z2Nat.id by lia. reflexivity.
    + intros x. apply equal_chunks_cover; [apply Hgs | lia].
    + intros i j c d x Hc Hd Hij Hxc Hxd.
      apply equal_chunks_lookup_inv in Hc as (Hi & ->).
      apply equal_chunks_lookup_inv in Hd as (Hj & ->).
      apply (nth_chunk_disjoint gs gs num_chunks (Z.of_nat i) (Z.of_nat j) x);
        try assumption; try lia. apply Hgs.
  - intros ctsk gs Hgs.
    exists (map (widen gs) (equal_chunks (fst gs) (fst gs) num_chunks (Z.to_nat num_chunks))).
    refine (conj _ (conj _ (conj _ (conj _ _)))).
    + apply task_chunks_2; assumption.
    + rewrite length_map. apply equal_chunks_length.
    + intros k Hk. rewrite list_lookup_fmap, equal_chunks_lookup by lia.
      rewrite Z2Nat.id by lia. reflexivity.
    + intros p. split.
      * intros (c & Hc & Hp). apply list_elem_of_fmap in Hc as (row & -> & Hrow).
        apply in_widen in Hp as (Hfst & Hsnd). split; [|exact Hsnd].
        apply (equal_chunks_cover (fst gs) (fst gs) num_chunks (fst p));
          [apply Hgs | lia | eauto].
      * intros (Hfst & Hsnd).
        apply (equal_chunks_cover (fst gs) (fst gs) num_chunks (fst p)) in Hfst
          as (row & Hrow & Hin); [|apply Hgs | lia].
        exists (widen gs row). split; [apply list_elem_of_fmap; eauto|].
        apply in_widen. split; assumption.
    + intros i j c d p Hc Hd Hij Hpc Hpd.
      rewrite list_lookup_fmap in Hc, Hd.
      destruct (equal_chunks _ _ _ _ !! i) as [ri|] eqn:Hri; [|discriminate].
      destruct (equal_chunks _ _ _ _ !! j) as [rj|] eqn:Hrj; [|discriminate].
      cbn in Hc, Hd. injection Hc as <-. injection Hd as <-.
      apply equal_chunks_lookup_inv in Hri as (Hi & ->).
      apply equal_chunks_lookup_inv in Hrj as (Hj & ->).
      apply in_widen in Hpc as (Hpc & _). apply in_widen in Hpd as (Hpd & _).
      apply (nth_chunk_disjoint (fst gs) (fst gs) num_chunks (Z.of_nat i) (Z.of_nat j) (fst p));
        try assumption; try lia. apply Hgs.
Qed.

Lemma compute_task_chunks_partition_witness :
  num_worker_nodes (runtime_num_nodes 4) = 3 /\
  exists chunks,
    task_chunks 5 (mk_compute_task (10, 4) []) (num_worker_nodes (runtime_num_nodes 4))
    = Returns chunks /\
    chunks !! 2%nat = Some (mk_subrange (6, 0) (4, 4) (10, 4)).
Proof.
  destruct (compute_task_chunks_partition 4 5) as (Hn & _ & H2).
  - unfold INT_MAX. lia.
  - vm_compute. lia.
  - split; [exact Hn|].
    destruct (H2 (mk_compute_task (10, 4) [])) as (chunks & Hret & _ & Hnth & _).
    + unfold is_size, SIZE_MAX. cbn. lia.
    + exists chunks. split; [exact Hret|]. exact (Hnth 2 ltac:(vm_compute; intuition discriminate)).
Defined.

End ChunkProofs.

(** ** Node assignment *)

Module AssignProofs.
Import Split Generate MachineFacts.
Local Open Scope Z_scope.

Lemma set_intersection_nil_r l1 : set_intersection l1 [] = [].
Proof. destruct l1; reflexivity. Qed.

Lemma set_intersection_cons a l1 b l2 :
  set_intersection (a :: l1) (b :: l2)
  = if a <? b then set_intersection l1 (b :: l2)
    else if b <? a then set_intersection (a :: l1) l2
    else a :: set_intersection l1 l2.
Proof. reflexivity. Qed.

(** Whatever the order of the ranges, the merge only outputs common
    elements. *)
Lemma set_intersection_sound l1 : forall l2 x,
  x ∈ set_intersection l1 l2 -> x ∈ l1 /\ x ∈ l2.
Proof.
  induction l1 as [|a l1 IH1]; intros l2 x; [destruct l2; intros H; inversion H|].
  induction l2 as [|b l2 IH2]; [intros H; inversion H|].
  rewrite set_intersection_cons.
  destruct (Z.ltb_spec a b); [|destruct (Z.ltb_spec b a)].
  - intros Hx. apply IH1 in Hx as [H1 H2]. split; [right|]; assumption.
  - intros Hx. apply IH2 in Hx as [H1 H2]. split; [|right]; assumption.
  - assert (a = b) as <- by lia. intros Hx. apply elem_of_cons in Hx as [->|Hx].
    + split; left.
    + apply IH1 in Hx as [H1 H2]. split; right; assumption.
Qed.

(** On ascending ranges every common element is output, in ascending order. *)
Lemma set_intersection_complete l1 : forall l2 x,
  StronglySorted Z.lt l1 -> StronglySorted Z.lt l2 ->
  x ∈ l1 -> x ∈ l2 -> x ∈ set_intersection l1 l2.
Proof.
  induction l1 as [|a l1 IH1]; intros l2 x; [intros _ _ H; inversion H|].
  induction l2 as [|b l2 IH2]; [intros _ _ _ H; inversion H|].
  intros Hs1 Hs2 Hx1 Hx2. rewrite set_intersection_cons.
  pose proof (StronglySorted_inv Hs1) as [Hs1' Hall1].
  pose proof (StronglySorted_inv Hs2) as [Hs2' Hall2].
  rewrite List.Forall_forall in Hall1, Hall2.
  apply elem_of_cons in Hx1 as [->|Hx1]; apply elem_of_cons in Hx2 as [Heq|Hx2];
    try (apply list_elem_of_In, Hall1 in Hx1 as Hlt1);
    try (apply list_elem_of_In, Hall2 in Hx2 as Hlt2);
    destruct (Z.ltb_spec a b); try destruct (Z.ltb_spec b a); try lia.
  - left.
  - apply IH2; [assumption | assumption | left | apply list_elem_of_In; assumption].
  - apply IH1; [assumption | assumption | apply list_elem_of_In; assumption | subst; left].
  - apply IH1; [assumption | assumption | apply list_elem_of_In; assumption | right; apply list_elem_of_In; assumption].
  - apply IH2; [assumption | assumption | right; apply list_elem_of_In; assumption | apply list_elem_of_In; assumption].
  - right. apply IH1; try assumption; apply list_elem_of_In; assumption.
Qed.

Lemma set_intersection_sorted l1 : forall l2,
  StronglySorted Z.lt l1 -> StronglySorted Z.lt (set_intersection l1 l2).
Proof.
  induction l1 as [|a l1 IH1]; intros l2 Hs1; [destruct l2; constructor|].
  pose proof (StronglySorted_inv Hs1) as [Hs1' Hall1].
  induction l2 as [|b l2 IH2]; [constructor|].
  rewrite set_intersection_cons.
  destruct (Z.ltb_spec a b); [|destruct (Z.ltb_spec b a)].
  - apply IH1; assumption.
  - apply IH2.
  - constructor; [apply IH1; assumption|].
    rewrite List.Forall_forall in *. intros y Hy.
    apply list_elem_of_In, set_intersection_sound in Hy as [Hy _].
    apply Hall1, list_elem_of_In; assumption.
Qed.

Lemma elem_of_set_erase n l x : x ∈ set_erase n l <-> x ∈ l /\ x <> n.
Proof.
  unfold set_erase. rewrite !list_elem_of_In, List.filter_In.
  destruct (Z.eqb_spec x n); cbn; intuition congruence.
Qed.

Lemma set_erase_sorted n l : StronglySorted Z.lt l -> StronglySorted Z.lt (set_erase n l).
Proof.
  induction 1 as [|a l Hs IH Hall]; [constructor|].
  unfold set_erase in *. cbn [List.filter].
  destruct (negb (a =? n)); [|exact IH].
  constructor; [exact IH|].
  rewrite List.Forall_forall in *. intros y Hy. apply List.filter_In in Hy as [Hy _].
  apply Hall, Hy.
Qed.

Lemma sorted_head_least a l x : StronglySorted Z.lt (a :: l) -> x ∈ a :: l -> a <= x.
Proof.
  intros Hs Hx. apply StronglySorted_inv in Hs as [_ Hall].
  rewrite List.Forall_forall in Hall.
  apply elem_of_cons in Hx as [->|Hx]; [lia|].
  apply list_elem_of_In, Hall in Hx. lia.
Qed.

Lemma picked_properties first_free rest considered :
  let free := first_free :: rest in
  let nid := picked free considered first_free in
  StronglySorted Z.lt free ->
  nid ∈ free /\
  (StronglySorted Z.lt considered ->
   (exists n, n ∈ free /\ n ∈ considered) ->
   nid ∈ considered /\ forall n, n ∈ free -> n ∈ considered -> nid <= n) /\
  ((forall n, n ∈ free -> n ∉ considered) -> forall n, n ∈ free -> nid <= n).
Proof.
  intros free nid Hsorted. subst nid. unfold picked.
  destruct considered as [|c considered'] eqn:Hcons.
  - split; [left|]. split.
    + intros _ (n & _ & Hn). inversion Hn.
    + intros _ n Hn. eapply sorted_head_least; eassumption.
  - rewrite <- Hcons. clear Hcons.
    destruct (set_intersection free considered) as [|n inter] eqn:Hinter.
    + split; [left|]. split.
      * intros Hsc (n & Hn1 & Hn2).
        pose proof (set_intersection_complete free considered n Hsorted Hsc Hn1 Hn2) as Hin.
        rewrite Hinter in Hin. inversion Hin.
      * intros _ n Hn. eapply sorted_head_least; eassumption.
    + assert (n ∈ set_intersection free considered) as Hn by (rewrite Hinter; left).
      apply set_intersection_sound in Hn as [Hn1 Hn2].
      split; [exact Hn1|]. split.
      * intros Hsc _. split; [exact Hn2|]. intros m Hm1 Hm2.
        pose proof (set_intersection_complete free considered m Hsorted Hsc Hm1 Hm2) as Hin.
        pose proof (set_intersection_sorted free considered Hsorted) as Hsi.
        rewrite Hinter in Hin, Hsi. eapply sorted_head_least; eassumption.
      * intros Hnone. exfalso. exact (Hnone n Hn1 Hn2).
Qed.

Section Assignment.
Context {region box buffer_state : Type}.
Variable get_source_nodes : buffer_state -> region -> list (box * list node_id).

Abbreviation assign_entry := (assign_entry get_source_nodes).
Abbreviation assign_chunk := (assign_chunk get_source_nodes).
Abbreviation source_nodes_of := (source_nodes_of get_source_nodes).

Lemma read_sources_considered vbr i it sources src sources' :
  read_sources get_source_nodes vbr i it sources = Returns (src, sources') ->
  src = source_nodes_of vbr it.
Proof.
  unfold read_sources, Generate.source_nodes_of, map_at. cbv zeta.
  destruct (read_req (snd it)) as [r|]; [|intros [= <- _]; reflexivity].
  destruct (vbr !! fst it) as [bs|]; cbn [bind]; [|discriminate].
  destruct (get_source_nodes bs r) as [|[b nodes] sn]; cbn; [discriminate|].
  intros [= <- _]. reflexivity.
Qed.

(** Once a node is assigned, the remaining entries leave it alone. *)
Lemma assign_entry_assigned vbr i it st st' :
  node_assigned st = true -> assign_entry vbr i it st = Returns st' ->
  node_assigned st' = true /\ free_nodes st' = free_nodes st /\
  chunk_nodes st' = chunk_nodes st.
Proof.
  intros Hassigned. unfold Generate.assign_entry.
  destruct (read_sources _ _ _ _ _) as [[src sources]| |]; cbn [bind]; try discriminate.
  rewrite Hassigned. intros [= <-]. auto.
Qed.

Lemma assign_entries_assigned vbr i entries : forall st st',
  node_assigned st = true -> for_each (assign_entry vbr i) entries st = Returns st' ->
  node_assigned st' = true /\ free_nodes st' = free_nodes st /\
  chunk_nodes st' = chunk_nodes st.
Proof.
  induction entries as [|it entries IH]; intros st st' Hassigned; cbn [for_each].
  - intros [= <-]. auto.
  - destruct (assign_entry vbr i it st) as [st1| |] eqn:Hit; cbn [bind]; try discriminate.
    destruct (assign_entry_assigned _ _ _ _ _ Hassigned Hit) as (H1 & H2 & H3).
    intros Hrest. destruct (IH _ _ H1 Hrest) as (H4 & H5 & H6).
    rewrite H5, H6. auto.
Qed.

(** The first entry decides. *)
Lemma assign_entry_first vbr i it st st' :
  node_assigned st = false -> assign_entry vbr i it st = Returns st' ->
  exists first_free rest,
    free_nodes st = first_free :: rest /\
    let nid := picked (free_nodes st) (source_nodes_of vbr it) first_free in
    node_assigned st' = true /\
    free_nodes st' = set_erase nid (free_nodes st) /\
    chunk_nodes st' = <[i := nid]> (chunk_nodes st).
Proof.
  intros Hfree. unfold Generate.assign_entry.
  destruct (read_sources _ _ _ _ _) as [[src sources]| |] eqn:Hread; cbn [bind];
    try discriminate.
  apply read_sources_considered in Hread as ->. rewrite Hfree.
  destruct (free_nodes st) as [|first_free rest] eqn:Hnodes; [discriminate|].
  cbv zeta.
  destruct (negb (picked _ _ _ =? SIZE_MAX)); cbn [assert bind]; [|discriminate].
  intros [= <-]. exists first_free, rest. cbn. auto.
Qed.

(** What one round of the outer loop does. *)
Lemma assign_chunk_effect chunk_reqs vbr i st st' :
  assign_chunk chunk_reqs vbr i st = Returns st' ->
  exists entries,
    chunk_reqs !! i = Some entries /\
    match entries with
    | [] => free_nodes st' = free_nodes st /\ chunk_nodes st' = chunk_nodes st
    | first :: _ =>
        exists first_free rest,
          free_nodes st = first_free :: rest /\
          let nid := picked (free_nodes st) (source_nodes_of vbr first) first_free in
          free_nodes st' = set_erase nid (free_nodes st) /\
          chunk_nodes st' = <[i := nid]> (chunk_nodes st)
    end.
Proof.
  unfold Generate.assign_chunk, map_at.
  destruct (chunk_reqs !! i) as [entries|]; cbn [bind]; [|discriminate].
  intros Hrun. exists entries. split; [reflexivity|].
  destruct entries as [|first entries]; cbn [for_each] in Hrun.
  - injection Hrun as <-. auto.
  - destruct (assign_entry vbr i first _) as [st1| |] eqn:Hfirst; cbn [bind] in Hrun;
      try discriminate.
    apply assign_entry_first in Hfirst as (first_free & rest & Hfree & Ha & Hf & Hc);
      [|reflexivity].
    apply assign_entries_assigned in Hrun as (_ & Hf' & Hc'); [|exact Ha].
    cbn [free_nodes chunk_nodes] in *. exists first_free, rest.
    split; [exact Hfree|]. cbn. rewrite Hf', Hc'. auto.
Qed.

Lemma assign_chunk_invariant chunk_reqs vbr free0 i st st' :
  assignment_invariant free0 st ->
  assign_chunk chunk_reqs vbr i st = Returns st' ->
  assignment_invariant free0 st'.
Proof.
  unfold assignment_invariant. intros (Hsorted & Hsub & Hgiven & Hinj) Hrun.
  apply assign_chunk_effect in Hrun as (entries & _ & Heffect).
  destruct entries as [|first entries].
  - destruct Heffect as [Hf Hc]. rewrite Hf, Hc.
    split; [exact Hsorted|]. split; [exact Hsub|]. split; [exact Hgiven | exact Hinj].
  - destruct Heffect as (first_free & rest & Hfree & Hf & Hc). cbv zeta in Hf, Hc.
    set (nid := picked (free_nodes st) (source_nodes_of vbr first) first_free) in *.
    assert (nid ∈ free_nodes st) as Hnid.
    { rewrite Hfree in Hsorted. subst nid. rewrite Hfree.
      apply (picked_properties first_free rest _ Hsorted). }
    rewrite Hf, Hc. split; [apply set_erase_sorted, Hsorted|]. split; [|split].
    + intros n Hn. apply elem_of_set_erase in Hn as [Hn _]. auto.
    + intros k n Hk. rewrite elem_of_set_erase.
      destruct (decide (i = k)) as [->|Hne].
      * rewrite lookup_insert_eq in Hk. injection Hk as <-. split; [auto | tauto].
      * rewrite lookup_insert_ne in Hk by exact Hne.
        destruct (Hgiven k n Hk) as [H1 H2]. split; [exact H1 | tauto].
    + intros k j n Hk Hj.
      destruct (decide (i = k)) as [Hik|Hik]; destruct (decide (i = j)) as [Hij|Hij].
      * congruence.
      * subst k. rewrite lookup_insert_eq in Hk. injection Hk as <-.
        rewrite lookup_insert_ne in Hj by assumption.
        destruct (Hgiven j nid Hj) as [_ Hnot]. contradiction.
      * subst j. rewrite lookup_insert_eq in Hj. injection Hj as <-.
        rewrite lookup_insert_ne in Hk by assumption.
        destruct (Hgiven k nid Hk) as [_ Hnot]. contradiction.
      * rewrite lookup_insert_ne in Hk, Hj by assumption. eauto.
Qed.

Lemma read_sources_returns vbr i it sources :
  readable get_source_nodes vbr it ->
  exists found, read_sources get_source_nodes vbr i it sources = Returns found.
Proof.
  unfold readable, read_sources, map_at. cbv zeta.
  destruct (read_req (snd it)) as [r|]; [|eauto].
  intros (bs & -> & Hcover). cbn [bind].
  destruct (get_source_nodes bs r) as [|[b nodes] sn]; [contradiction|].
  cbn. eauto.
Qed.

Lemma assign_entries_return vbr i entries : forall st,
  node_assigned st = true -> Forall (readable get_source_nodes vbr) entries ->
  exists st', for_each (assign_entry vbr i) entries st = Returns st'.
Proof.
  induction entries as [|it entries IH]; intros st Hassigned Hreadable; cbn [for_each];
    [eauto|].
  apply Forall_cons in Hreadable as [Hit Hreadable].
  destruct (read_sources_returns vbr i it (chunk_buffer_sources st) Hit) as [[src sources] Hread].
  unfold Generate.assign_entry at 1. rewrite Hread. cbn [bind]. rewrite Hassigned.
  cbn [bind]. apply IH; [reflexivity | exact Hreadable].
Qed.

(** With a first entry, readable entries and a free node that is not the
    sentinel, a round of the outer loop returns. *)
Lemma assign_chunk_returns chunk_reqs vbr i st first rest :
  StronglySorted Z.lt (free_nodes st) ->
  free_nodes st <> [] -> SIZE_MAX ∉ free_nodes st ->
  chunk_reqs !! i = Some (first :: rest) ->
  Forall (readable get_source_nodes vbr) (first :: rest) ->
  exists st', assign_chunk chunk_reqs vbr i st = Returns st'.
Proof.
  intros Hsorted Hfree Hmax Hentries Hreadable.
  unfold Generate.assign_chunk, map_at. rewrite Hentries. cbn [bind for_each].
  apply Forall_cons in Hreadable as [Hfirst Hrest].
  destruct (read_sources_returns vbr i first (chunk_buffer_sources st) Hfirst)
    as [[src sources] Hread].
  unfold Generate.assign_entry at 1. cbn [chunk_buffer_sources node_assigned free_nodes].
  rewrite Hread. cbn [bind].
  destruct (free_nodes st) as [|first_free others] eqn:Hnodes; [contradiction|].
  cbv zeta.
  pose proof (proj1 (picked_properties first_free others src Hsorted)) as Hpicked.
  destruct (Z.eqb_spec (picked (first_free :: others) src first_free) SIZE_MAX) as [Heq|Hne].
  - rewrite Heq in Hpicked. contradiction.
  - cbn [negb assert bind]. apply assign_entries_return; [reflexivity | exact Hrest].
Qed.

(** C2 (as amended).  With [free_nodes] ascending, as a [std::set] is, not
    empty and without the sentinel [max], a chunk whose requirement map has a
    first entry in iteration order, all of its read buffers having sources,
    is given a node as follows.  The source nodes considered are the holders
    of the first box of the read requirement of that first buffer, none when
    that buffer is not read.  The node is a free node; if the considered
    nodes are ascending and some of them are free, it is the smallest free
    node among them; if none of them is free (also when there are none), it
    is the smallest free node.  The node is then erased from [free_nodes].
    Over the whole task every node handed out is one of the free nodes given,
    and no two chunks share a node. *)
Theorem assign_chunks_to_nodes_rule chunk_reqs vbr (fuel : nat) (num_chunks : Z)
    (free : list node_id) sources nodes sources' :
  StronglySorted Z.lt free ->
  assign_chunks_to_nodes get_source_nodes fuel num_chunks chunk_reqs vbr free sources
  = Returns (nodes, sources') ->
  (forall i st first rest,
     StronglySorted Z.lt (free_nodes st) ->
     free_nodes st <> [] -> SIZE_MAX ∉ free_nodes st ->
     chunk_reqs !! i = Some (first :: rest) ->
     Forall (readable get_source_nodes vbr) (first :: rest) ->
     let considered := source_nodes_of vbr first in
     exists st' nid,
       assign_chunk chunk_reqs vbr i st = Returns st' /\
       nid ∈ free_nodes st /\
       chunk_nodes st' = (<[i := nid]> (chunk_nodes st)) /\
       free_nodes st' = set_erase nid (free_nodes st) /\
       (nid ∉ free_nodes st') /\
       StronglySorted Z.lt (free_nodes st') /\
       (StronglySorted Z.lt considered ->
        (exists n, n ∈ free_nodes st /\ n ∈ considered) ->
        nid ∈ considered /\
        forall n, n ∈ free_nodes st -> n ∈ considered -> nid <= n) /\
       ((forall n, n ∈ free_nodes st -> n ∉ considered) ->
        forall n, n ∈ free_nodes st -> nid <= n)) /\
  (forall i n, nodes !! i = Some n -> n ∈ free) /\
  (forall i j n, nodes !! i = Some n -> nodes !! j = Some n -> i = j).
Proof.
  intros Hsorted Hrun. split.
  - intros i st first rest Hs Hfree Hmax Hentries Hreadable considered.
    destruct (assign_chunk_returns chunk_reqs vbr i st first rest Hs Hfree Hmax Hentries
                Hreadable) as [st' Hchunk].
    exists st'. pose proof Hchunk as Hreturns.
    apply assign_chunk_effect in Hchunk as (entries & Hlook & Heffect).
    rewrite Hentries in Hlook. injection Hlook as <-.
    destruct Heffect as (first_free & others & Hnodes & Hf & Hc). cbv zeta in Hf, Hc.
    exists (picked (free_nodes st) (source_nodes_of vbr first) first_free).
    rewrite Hnodes in Hs.
    destruct (picked_properties first_free others considered Hs) as (Hin & Hcommon & Hnone).
    rewrite <- Hnodes in Hin, Hcommon, Hnone, Hs.
    split; [exact Hreturns|].
    split; [exact Hin|]. split; [exact Hc|]. split; [exact Hf|].
    split; [rewrite Hf, elem_of_set_erase; tauto|].
    split; [rewrite Hf; apply set_erase_sorted, Hs|].
    split; [exact Hcommon | exact Hnone].
  - unfold assign_chunks_to_nodes in Hrun.
    destruct (for_loop _ _ _ _ _ _) as [st| |] eqn:Hloop; cbn [bind] in Hrun;
      try discriminate.
    injection Hrun as <- <-.
    assert (assignment_invariant free st) as (_ & _ & Hgiven & Hinj).
    { apply (for_loop_invariant uint_incr
               (Generate.assign_chunk get_source_nodes chunk_reqs vbr) num_chunks
               (assignment_invariant free)
               (fun i s s' Hs Hb => assign_chunk_invariant chunk_reqs vbr free i s s' Hs Hb)
               fuel 0 (mk_assignment false free ∅ sources) st); [|exact Hloop].
      unfold assignment_invariant. cbn [free_nodes chunk_nodes].
      split; [exact Hsorted|]. split; [auto|].
      split; intros *; rewrite lookup_empty; discriminate. }
    split; [intros i n Hn; apply (Hgiven i n Hn) | exact Hinj].
Qed.

End Assignment.

Lemma assign_chunks_to_nodes_rule_witness :
  exists nodes sources,
    assign_chunks_to_nodes example_sources 5 2
      {[ 0 := [(7, mk_mode_requirements (Some tt) None)];
         1 := [(7, mk_mode_requirements (Some tt) None)] ]}
      {[ 7 := [(0%nat, [2])] ]} [1; 2] ∅ = Returns (nodes, sources) /\
    nodes !! 0 = Some 2 /\ nodes !! 1 = Some 1 /\
    (forall i j n, nodes !! i = Some n -> nodes !! j = Some n -> i = j) /\
    exists st' nid,
      assign_chunk example_sources
        {[ 0 := [(7, mk_mode_requirements (Some tt) None)];
           1 := [(7, mk_mode_requirements (Some tt) None)] ]}
        {[ 7 := [(0%nat, [2])] ]} 0 (mk_assignment false [1; 2] ∅ ∅) = Returns st' /\
      chunk_nodes st' = (<[0 := nid]> ∅) /\ nid ∈ [2].
Proof.
  destruct (assign_chunks_to_nodes example_sources 5 2
      {[ 0 := [(7, mk_mode_requirements (Some tt) None)];
         1 := [(7, mk_mode_requirements (Some tt) None)] ]}
      {[ 7 := [(0%nat, [2])] ]} [1; 2] ∅) as [[nodes sources]| |] eqn:Hrun;
    [|vm_compute in Hrun; discriminate..].
  exists nodes, sources. split; [reflexivity|].
  assert (StronglySorted Z.lt [1; 2]) as Hsorted by (repeat constructor; lia).
  pose proof (assign_chunks_to_nodes_rule example_sources _ _ _ _ _ _ _ _ Hsorted Hrun)
    as (Hchunk & _ & Hinj).
  vm_compute in Hrun. injection Hrun as <- <-.
  split; [reflexivity|]. split; [reflexivity|]. split; [exact Hinj|].
  destruct (Hchunk 0 (mk_assignment false [1; 2] ∅ ∅) (7, mk_mode_requirements (Some tt) None) [])
    as (st' & nid & Hret & _ & Hnodes & _ & _ & _ & Hcommon & _).
  - exact Hsorted.
  - discriminate.
  - cbn [free_nodes]. rewrite !elem_of_cons. unfold SIZE_MAX.
    intros [H|[H|H]]; [discriminate | discriminate | inversion H].
  - reflexivity.
  - repeat constructor. exists [(0%nat, [2])]. split; [reflexivity | discriminate].
  - exists st', nid. split; [exact Hret|]. split; [exact Hnodes|].
    apply Hcommon; [repeat constructor|]. exists 2. split; [right; left | left].
Defined.

(** C2, as stated, fails in three ways.  A first buffer that is only written
    decides although a later buffer is read: the chunk gets the smallest free
    node 1, not node 2 that holds the data.  Source nodes iterated in
    descending order make the merge miss node 1: the chunk gets node 2, not
    the smallest common node 1.  Only the first box of the cover is looked
    at: the chunk gets node 3, not the smallest common node 1 of the second
    box. *)
Lemma assign_chunks_to_nodes_departs_from_spec :
  ~ assigns_by_spec_rule example_sources
      {[ 0 := [(0, mk_mode_requirements None (Some tt));
               (1, mk_mode_requirements (Some tt) None)] ]}
      {[ 1 := [(0%nat, [2])] ]} [1; 2] /\
  ~ assigns_by_spec_rule example_sources
      {[ 0 := [(0, mk_mode_requirements (Some tt) None)] ]}
      {[ 0 := [(0%nat, [2; 1])] ]} [1; 2] /\
  ~ assigns_by_spec_rule example_sources
      {[ 0 := [(0, mk_mode_requirements (Some tt) None)] ]}
      {[ 0 := [(0%nat, [3]); (1%nat, [1])] ]} [1; 3].
Proof.
  repeat split; intros Hrule;
    match type of Hrule with
    | assigns_by_spec_rule ?get ?reqs ?vbr ?free =>
        destruct (assign_chunks_to_nodes get 5 1 reqs vbr free ∅)
          as [[nodes sources]| |] eqn:Hrun; [|vm_compute in Hrun; discriminate..];
        pose proof (Hrule 5%nat _ nodes sources eq_refl Hrun) as Hnode
    end;
    vm_compute in Hrun; injection Hrun as <- <-; vm_compute in Hnode; discriminate.
Qed.

End AssignProofs.

(** ** Compute tasks that cannot be lowered *)

Module GenerateProofs.
Import Split Generate MachineFacts SplitProofs ChunkProofs.
Local Open Scope Z_scope.

Section NoBuffers.
Context {region box buffer_state : Type}.
Variable merge : region -> region -> region.
Variable empty_region : region.
Variable subrange_to_grid_region : subrange range3 -> region.
Variable get_source_nodes : buffer_state -> region -> list (box * list node_id).
Variable umap_emplace :
  buffer_id -> @mode_requirements region -> list (buffer_id * @mode_requirements region) ->
  list (buffer_id * @mode_requirements region).
Context {command_dag vertex task_vertices : Type}.
Variable add_compute_cmd :
  command_id -> node_id -> task_vertices -> subrange range3 -> command_dag ->
  vertex * command_id * command_dag.

Lemma initial_free_nodes_returns (fuel : nat) (n : Z) (only : bool) :
  1 <= n <= INT_MAX -> (Z.to_nat n + 1 < fuel)%nat ->
  exists free, initial_free_nodes fuel n only = Returns free.
Proof.
  intros Hn Hfuel. unfold initial_free_nodes.
  assert (INT_MAX < UINT_MAX /\ UINT_MAX <= SIZE_MAX) as [Hiu Hus]
    by (unfold INT_MAX, UINT_MAX, SIZE_MAX; lia).
  rewrite wrap_size_small by lia.
  rewrite (for_loop_iterate uint_incr UINT_MAX _ uint_incr_small (Z.to_nat (n + 1)))
    by lia.
  apply iterate_total. intros i s.
  destruct (negb only && (i =? 0)); eauto.
Qed.

(** With no entry for chunk 0 the assignment stops at [chunk_reqs.at(0)]. *)
Lemma assign_without_requirements (fuel : nat) (n : Z) vbr free sources :
  0 < n -> (0 < fuel)%nat ->
  assign_chunks_to_nodes get_source_nodes fuel n ∅ vbr free sources
  = Throws (Out_of_range "chunk_reqs.at(i)").
Proof.
  intros Hn Hfuel. unfold assign_chunks_to_nodes.
  destruct fuel as [|fuel]; [lia|]. cbn [for_loop].
  destruct (Z.ltb_spec 0 n); [|lia].
  unfold assign_chunk, map_at. rewrite lookup_empty. reflexivity.
Qed.

(** C6 (what the code does).  For a compute task of one or two dimensions
    without range mappers, on any number of nodes, [build_command_graph]
    does not get past node assignment: no chunk has an entry in the
    requirement map, and [chunk_reqs.at(0)] throws [std::out_of_range]
    before a single compute command is created. *)
Theorem compute_task_without_buffers_throws (fuel : nat) (world_size : Z)
    (next_cmd_id : command_id) (tid : task_id) (tv : task_vertices)
    (vbr : gmap Z buffer_state) (graph : command_dag) :
  1 <= world_size <= INT_MAX ->
  (Z.to_nat (num_worker_nodes (runtime_num_nodes world_size)) + 1 < fuel)%nat ->
  (forall (gs : range1) promote,
     is_size gs ->
     build_compute_task merge empty_region subrange_to_grid_region get_source_nodes
       umap_emplace add_compute_cmd promote fuel (runtime_num_nodes world_size)
       next_cmd_id tid (mk_compute_task gs []) tv vbr graph
     = Throws (Out_of_range "chunk_reqs.at(i)")) /\
  (forall (gs : range2) promote,
     is_size (fst gs) ->
     build_compute_task merge empty_region subrange_to_grid_region get_source_nodes
       umap_emplace add_compute_cmd promote fuel (runtime_num_nodes world_size)
       next_cmd_id tid (mk_compute_task gs []) tv vbr graph
     = Throws (Out_of_range "chunk_reqs.at(i)")).
Proof.
  intros Hws Hfuel.
  destruct (num_worker_nodes_max world_size Hws) as (_ & _ & Hrange).
  set (n := num_worker_nodes (runtime_num_nodes world_size)) in *.
  assert (0 < n <= UINT_MAX) as Hn by (unfold INT_MAX, UINT_MAX in *; lia).
  split; intros gs promote Hgs; unfold build_compute_task, process_compute_task; fold n.
  - rewrite task_chunks_1 by (try assumption; lia). cbn [bind for_each get_range_mappers].
    destruct (initial_free_nodes_returns fuel n (master_only (runtime_num_nodes world_size))
                Hrange Hfuel) as [free ->].
    cbn [bind]. rewrite assign_without_requirements; [reflexivity | | lia].
    rewrite equal_chunks_length. lia.
  - rewrite task_chunks_2 by (try assumption; lia). cbn [bind for_each get_range_mappers].
    destruct (initial_free_nodes_returns fuel n (master_only (runtime_num_nodes world_size))
                Hrange Hfuel) as [free ->].
    cbn [bind]. rewrite assign_without_requirements; [reflexivity | | lia].
    rewrite length_map, equal_chunks_length. lia.
Qed.

(** C8.  [split_equal] on a three-dimensional subrange throws
    ["3D split_equal NYI"] whatever the subrange and the chunk count, and so
    returns no chunk list; a three-dimensional compute task therefore stops
    [build_command_graph] with this error, whatever its range mappers and
    the number of nodes. *)
Theorem split_equal_3d_throws (fuel : nat) (sr : subrange range3) (num_chunks : Z) :
  split_equal fuel sr num_chunks = Throws (Runtime_error "3D split_equal NYI") /\
  (forall chunks, split_equal fuel sr num_chunks <> Returns chunks) /\
  (forall num_nodes (next_cmd_id : command_id) (tid : task_id) (ctsk : compute_task range3)
          (tv : task_vertices) (vbr : gmap Z buffer_state) (graph : command_dag) promote,
     build_compute_task merge empty_region subrange_to_grid_region get_source_nodes
       umap_emplace add_compute_cmd promote fuel num_nodes next_cmd_id tid ctsk tv vbr graph
     = Throws (Runtime_error "3D split_equal NYI")).
Proof.
  split; [reflexivity|]. split; [discriminate|]. reflexivity.
Qed.

End NoBuffers.

Lemma compute_task_without_buffers_throws_witness :
  build_compute_task (fun _ _ => tt) tt (fun _ => tt) example_sources
    (fun bid reqs m => (bid, reqs) :: m)
    (fun (next : Z) (nid : Z) (_ : unit) sr (graph : list (Z * Z)) =>
       (length graph, next + 1, graph ++ [(next, nid)]))
    (fun c : subrange range1 => mk_subrange (start c, 0, 0) (range c, 1, 1) (global_size c, 1, 1))
    10 (runtime_num_nodes 2) 0 0 (mk_compute_task 100 []) tt ∅ []
  = Throws (Out_of_range "chunk_reqs.at(i)").
Proof.
  refine (proj1 (compute_task_without_buffers_throws _ _ _ _ _ _ 10 2 0 0 tt ∅ [] _ _)
            100 _ _).
  - unfold INT_MAX. lia.
  - vm_compute. lia.
  - unfold is_size, SIZE_MAX. lia.
Defined.

End GenerateProofs.

(** ** The command graph *)

Module CommandGraphProofs.
Import CommandGraph MachineFacts.
Local Open Scope N_scope.

Lemma on_node_lookup g c n : on_node g c n <-> get_nid <$> commands g !! c = Some n.
Proof.
  unfold on_node. split.
  - intros (cmd & -> & <-). reflexivity.
  - destruct (commands g !! c) as [cmd|]; [|discriminate]. intros [= <-]. eauto.
Qed.

Lemma is_nop_lookup g c : is_nop g c <-> get_kind <$> commands g !! c = Some nop_command.
Proof.
  unfold is_nop. split.
  - intros (cmd & -> & <-). reflexivity.
  - destruct (commands g !! c) as [cmd|]; [|discriminate]. intros [= Hk]. eauto.
Qed.

(** *** [create] *)

Section Create.
Variables (T : command_kind) (nid tid : N) (g : command_graph).
Hypothesis Hwf : well_formed g.

Let cid := next_cmd_id g.
Let fresh := mk_command cid nid T tid [] 0.
Let g' := snd (create T nid tid g).

Lemma create_unused : commands g !! cid = None.
Proof using Hwf.
  destruct (commands g !! cid) as [cmd|] eqn:Hc; [|reflexivity].
  apply Hwf in Hc as [Hlt _]. subst cid. lia.
Qed.

Lemma create_commands : commands g' = <[cid := fresh]> (commands g).
Proof using Hwf.
  subst g'. unfold create. fold cid. rewrite create_unused. reflexivity.
Qed.

Lemma create_next : next_cmd_id g' = cid + 1.
Proof using Type. reflexivity. Qed.

Lemma create_front n c :
  c ∈ execution_front g' n <->
  c ∈ execution_front g n \/ (T <> nop_command /\ n = nid /\ c = cid).
Proof using Hwf.
  subst g'. unfold create, execution_front. fold cid. rewrite create_unused.
  cbn [snd execution_fronts]. rewrite lookup_insert_eq. cbn [default from_option id get_nid].
  case_bool_decide as HT.
  - tauto.
  - destruct (decide (nid = n)) as [->|Hne].
    + rewrite lookup_insert_eq. cbn [default from_option id].
      rewrite elem_of_union, elem_of_singleton. intuition congruence.
    + rewrite lookup_insert_ne by exact Hne. intuition congruence.
Qed.

Lemma create_depends_on d e : depends_on g' d e <-> depends_on g d e.
Proof using Hwf.
  unfold depends_on. rewrite create_commands. split.
  - intros (cmd & Hcmd & Hin). destruct (decide (cid = d)) as [<-|Hne].
    + rewrite lookup_insert_eq in Hcmd. injection Hcmd as <-. inversion Hin.
    + rewrite lookup_insert_ne in Hcmd by exact Hne. eauto.
  - intros (cmd & Hcmd & Hin). exists cmd. split; [|exact Hin].
    rewrite lookup_insert_ne; [exact Hcmd|]. intros <-.
    rewrite create_unused in Hcmd. discriminate.
Qed.

Lemma create_on_node c n : on_node g' c n <-> on_node g c n \/ (c = cid /\ n = nid).
Proof using Hwf.
  rewrite !on_node_lookup, create_commands. destruct (decide (cid = c)) as [<-|Hne].
  - rewrite lookup_insert_eq, create_unused. cbn. intuition congruence.
  - rewrite lookup_insert_ne by exact Hne. intuition congruence.
Qed.

Lemma create_is_nop c : is_nop g' c <-> is_nop g c \/ (c = cid /\ T = nop_command).
Proof using Hwf.
  rewrite !is_nop_lookup, create_commands. destruct (decide (cid = c)) as [<-|Hne].
  - rewrite lookup_insert_eq, create_unused. cbn. intuition congruence.
  - rewrite lookup_insert_ne by exact Hne. intuition congruence.
Qed.

Lemma create_well_formed : well_formed g'.
Proof using Hwf.
  destruct Hwf as [Hids Hdeps]. split.
  - intros c cmd. rewrite create_commands, create_next.
    destruct (decide (cid = c)) as [<-|Hne].
    + rewrite lookup_insert_eq. intros [= <-]. split; [lia | reflexivity].
    + rewrite lookup_insert_ne by exact Hne. intros Hc. apply Hids in Hc as [Hlt Heq].
      fold cid in Hlt. split; [lia | exact Heq].
  - intros d e Hde. apply create_depends_on, Hdeps in Hde as [cmd Hcmd].
    rewrite create_commands. destruct (decide (cid = e)) as [<-|Hne].
    + rewrite create_unused in Hcmd. discriminate.
    + rewrite lookup_insert_ne by exact Hne. eauto.
Qed.

Lemma create_edges : edges_stay_on_node g -> edges_stay_on_node g'.
Proof using Hwf.
  intros Hedges d e Hde. apply create_depends_on in Hde.
  destruct (Hedges d e Hde) as (Hne & n & Hd & He). split; [exact Hne|].
  exists n. rewrite !create_on_node. tauto.
Qed.

Lemma create_fronts : fronts_hold_leaves_but_nop g -> fronts_hold_leaves_but_nop g'.
Proof using Hwf.
  intros Hfronts n c. rewrite create_front, create_on_node, create_is_nop.
  unfold has_dependents. setoid_rewrite create_depends_on.
  fold (has_dependents g c). rewrite (Hfronts n c).
  assert (~ on_node g cid n) as Hnew.
  { intros (cmd & Hcmd & _). rewrite create_unused in Hcmd. discriminate. }
  assert (~ has_dependents g cid) as Hleaf.
  { intros (d & Hd). apply Hwf in Hd as [cmd Hcmd]. rewrite create_unused in Hcmd.
    discriminate. }
  assert (~ is_nop g cid) as Hkind.
  { intros (cmd & Hcmd & _). rewrite create_unused in Hcmd. discriminate. }
  split.
  - intros [(Hon & Hnop & Hdep)|(HT & -> & ->)].
    + split; [tauto|]. split; [|exact Hdep]. intros [Hn|[-> _]]; [tauto|]. tauto.
    + split; [tauto|]. split; [|exact Hleaf]. tauto.
  - intros ([Hon|[-> ->]] & Hnop & Hdep).
    + left. tauto.
    + right. split; [|tauto]. intros ->. tauto.
Qed.

End Create.

(** *** [add_dependency] *)

(** When it returns, both commands were there, on one node, and distinct. *)
Lemma add_dependency_returns er ee anti g g' :
  add_dependency er ee anti g = Returns g' ->
  exists a b,
    commands g !! er = Some a /\ commands g !! ee = Some b /\
    get_nid a = get_nid b /\ ee <> er /\
    g' = mk_graph (next_cmd_id g)
           (<[er := command_add_dependency a (ee, anti) (get_pseudo_critical_path_length b)]>
              (commands g))
           (by_task g)
           (<[get_nid a := default ∅ (execution_fronts g !! get_nid a) ∖ {[ee]}]>
              (execution_fronts g))
           (N.max (max_pseudo_critical_path_length g)
              (get_pseudo_critical_path_length
                 (command_add_dependency a (ee, anti) (get_pseudo_critical_path_length b)))).
Proof.
  unfold add_dependency.
  destruct (commands g !! er) as [a|]; [|discriminate].
  destruct (commands g !! ee) as [b|]; [|discriminate].
  destruct (N.eqb_spec (get_nid a) (get_nid b)) as [Hnid|]; cbn [assert bind negb];
    [|discriminate].
  destruct (N.eqb_spec ee er) as [|Hne]; cbn [assert bind negb]; [discriminate|].
  intros [= <-]. exists a, b. auto.
Qed.

Section AddDependency.
Variables (er ee : N) (anti : bool) (g g' : command_graph).
Hypothesis Hadd : add_dependency er ee anti g = Returns g'.

Lemma add_dependency_depends_on d e :
  depends_on g' d e <-> depends_on g d e \/ (d = er /\ e = ee).
Proof using Hadd.
  destruct (add_dependency_returns _ _ _ _ _ Hadd) as (a & b & Ha & Hb & Hnid & Hne & ->).
  unfold depends_on. cbn [commands]. destruct (decide (er = d)) as [<-|Hd].
  - rewrite lookup_insert_eq. split.
    + intros (cmd & [= <-] & Hin). cbn [command_add_dependency get_dependencies] in Hin.
      rewrite fmap_app, elem_of_app in Hin. destruct Hin as [Hin|Hin]; [left; eauto|].
      cbn in Hin. apply list_elem_of_singleton in Hin. auto.
    + intros [(cmd & Hcmd & Hin)|[_ ->]]; eexists; (split; [reflexivity|]);
        cbn [command_add_dependency get_dependencies]; rewrite fmap_app, elem_of_app.
      * left. congruence.
      * right. cbn. left.
  - rewrite lookup_insert_ne by exact Hd. intuition congruence.
Qed.

Lemma add_dependency_on_node c n : on_node g' c n <-> on_node g c n.
Proof using Hadd.
  destruct (add_dependency_returns _ _ _ _ _ Hadd) as (a & b & Ha & Hb & Hnid & Hne & ->).
  rewrite !on_node_lookup. cbn [commands]. destruct (decide (er = c)) as [<-|Hc].
  - rewrite lookup_insert_eq, Ha. reflexivity.
  - rewrite lookup_insert_ne by exact Hc. reflexivity.
Qed.

Lemma add_dependency_is_nop c : is_nop g' c <-> is_nop g c.
Proof using Hadd.
  destruct (add_dependency_returns _ _ _ _ _ Hadd) as (a & b & Ha & Hb & Hnid & Hne & ->).
  rewrite !is_nop_lookup. cbn [commands]. destruct (decide (er = c)) as [<-|Hc].
  - rewrite lookup_insert_eq, Ha. reflexivity.
  - rewrite lookup_insert_ne by exact Hc. reflexivity.
Qed.

Lemma add_dependency_front n c :
  c ∈ execution_front g' n <-> c ∈ execution_front g n /\ ~ (on_node g ee n /\ c = ee).
Proof using Hadd.
  destruct (add_dependency_returns _ _ _ _ _ Hadd) as (a & b & Ha & Hb & Hnid & Hne & ->).
  unfold execution_front, on_node. cbn [execution_fronts]. rewrite Hb.
  destruct (decide (get_nid a = n)) as [<-|Hn].
  - rewrite lookup_insert_eq. cbn [default from_option id].
    rewrite elem_of_difference, elem_of_singleton. split.
    + intros [Hin Hc]. split; [exact Hin|]. tauto.
    + intros [Hin Hc]. split; [exact Hin|]. intros ->. apply Hc. eauto.
  - rewrite lookup_insert_ne by exact Hn. split; [|tauto].
    intros Hin. split; [exact Hin|]. intros [(cmd & [= <-] & Hb') _]. congruence.
Qed.

Lemma add_dependency_well_formed : well_formed g -> well_formed g'.
Proof using Hadd.
  intros [Hids Hdeps].
  assert (forall c, is_Some (commands g' !! c) <-> is_Some (commands g !! c)) as Hsame.
  { intros c. rewrite <- !(fmap_is_Some get_nid). unfold is_Some.
    setoid_rewrite <- on_node_lookup. setoid_rewrite add_dependency_on_node. reflexivity. }
  destruct (add_dependency_returns _ _ _ _ _ Hadd) as (a & b & Ha & Hb & Hnid & Hne & Hg').
  split.
  - intros c cmd Hc. rewrite Hg' in Hc |- *. cbn [commands next_cmd_id] in *.
    destruct (decide (er = c)) as [<-|Hd].
    + rewrite lookup_insert_eq in Hc. injection Hc as <-. apply (Hids er a Ha).
    + rewrite lookup_insert_ne in Hc by exact Hd. apply (Hids c cmd Hc).
  - intros d e Hde. apply add_dependency_depends_on in Hde as [Hde|[-> ->]].
    + apply Hdeps in Hde. apply Hsame in Hde. exact Hde.
    + apply Hsame. eauto.
Qed.

Lemma add_dependency_edges : edges_stay_on_node g -> edges_stay_on_node g'.
Proof using Hadd.
  intros Hedges d e Hde. setoid_rewrite add_dependency_on_node.
  apply add_dependency_depends_on in Hde as [Hde|[-> ->]]; [apply Hedges, Hde|].
  destruct (add_dependency_returns _ _ _ _ _ Hadd) as (a & b & Ha & Hb & Hnid & Hne & _).
  split; [congruence|]. exists (get_nid a). unfold on_node.
  split; [exists a | exists b]; auto.
Qed.

Lemma add_dependency_fronts :
  fronts_hold_leaves_but_nop g -> fronts_hold_leaves_but_nop g'.
Proof using Hadd.
  intros Hfronts n c.
  rewrite add_dependency_front, add_dependency_on_node, add_dependency_is_nop.
  unfold has_dependents. setoid_rewrite add_dependency_depends_on.
  fold (has_dependents g c). rewrite (Hfronts n c). split.
  - intros ((Hon & Hnop & Hdep) & Hee). split; [exact Hon|]. split; [exact Hnop|].
    intros (d & [Hd|[_ ->]]); [apply Hdep; exists d; exact Hd | tauto].
  - intros (Hon & Hnop & Hdep). split.
    + split; [exact Hon|]. split; [exact Hnop|]. intros (d & Hd). apply Hdep. eauto.
    + intros [_ ->]. apply Hdep. exists er. auto.
Qed.

End AddDependency.

(** *** [remove_dependency] *)

Lemma remove_dependency_returns er ee g g' :
  remove_dependency er ee g = Returns g' ->
  exists a,
    commands g !! er = Some a /\
    g' = mk_graph (next_cmd_id g)
           (<[er := command_remove_dependency a ee]> (commands g))
           (by_task g) (execution_fronts g) (max_pseudo_critical_path_length g).
Proof.
  unfold remove_dependency. destruct (commands g !! er) as [a|]; [|discriminate].
  intros [= <-]. eauto.
Qed.

Section RemoveDependency.
Variables (er ee : N) (g g' : command_graph).
Hypothesis Hremove : remove_dependency er ee g = Returns g'.

Lemma remove_dependency_depends_on d e : depends_on g' d e -> depends_on g d e.
Proof using Hremove.
  destruct (remove_dependency_returns _ _ _ _ Hremove) as (a & Ha & ->).
  unfold depends_on. cbn [commands]. destruct (decide (er = d)) as [<-|Hd].
  - rewrite lookup_insert_eq. intros (cmd & [= <-] & Hin). exists a. split; [exact Ha|].
    cbn [command_remove_dependency get_dependencies] in Hin.
    apply list_elem_of_fmap in Hin as (dep & -> & Hdep).
    apply list_elem_of_In, List.filter_In in Hdep as [Hdep _].
    apply list_elem_of_fmap. exists dep. split; [reflexivity|]. apply list_elem_of_In, Hdep.
  - rewrite lookup_insert_ne by exact Hd. auto.
Qed.

Lemma remove_dependency_on_node c n : on_node g' c n <-> on_node g c n.
Proof using Hremove.
  destruct (remove_dependency_returns _ _ _ _ Hremove) as (a & Ha & ->).
  rewrite !on_node_lookup. cbn [commands]. destruct (decide (er = c)) as [<-|Hc].
  - rewrite lookup_insert_eq, Ha. reflexivity.
  - rewrite lookup_insert_ne by exact Hc. reflexivity.
Qed.

Lemma remove_dependency_well_formed : well_formed g -> well_formed g'.
Proof using Hremove.
  intros [Hids Hdeps].
  assert (forall c, is_Some (commands g' !! c) <-> is_Some (commands g !! c)) as Hsame.
  { intros c. rewrite <- !(fmap_is_Some get_nid). unfold is_Some.
    setoid_rewrite <- on_node_lookup. setoid_rewrite remove_dependency_on_node. reflexivity. }
  destruct (remove_dependency_returns _ _ _ _ Hremove) as (a & Ha & Hg').
  split.
  - intros c cmd Hc. rewrite Hg' in Hc |- *. cbn [commands next_cmd_id] in *.
    destruct (decide (er = c)) as [<-|Hd].
    + rewrite lookup_insert_eq in Hc. injection Hc as <-. apply (Hids er a Ha).
    + rewrite lookup_insert_ne in Hc by exact Hd. apply (Hids c cmd Hc).
  - intros d e Hde. apply remove_dependency_depends_on, Hdeps in Hde.
    apply Hsame in Hde. exact Hde.
Qed.

Lemma remove_dependency_edges : edges_stay_on_node g -> edges_stay_on_node g'.
Proof using Hremove.
  intros Hedges d e Hde. setoid_rewrite remove_dependency_on_node.
  apply Hedges, remove_dependency_depends_on, Hde.
Qed.

End RemoveDependency.

(** *** Sequences of calls *)

Lemma empty_graph_well_formed : well_formed empty_graph.
Proof.
  split.
  - intros c cmd Hc. cbn in Hc. rewrite lookup_empty in Hc. discriminate.
  - intros d e (cmd & Hc & _). cbn in Hc. rewrite lookup_empty in Hc. discriminate.
Qed.

Lemma run_well_formed ops g :
  run ops empty_graph = Returns g -> well_formed g /\ edges_stay_on_node g.
Proof.
  apply (for_each_invariant apply (fun _ => True)
           (fun g => well_formed g /\ edges_stay_on_node g)).
  - intros [T nid tid|er ee anti|er ee] s s' _ [Hwf Hedges] Hstep; cbn [apply] in Hstep.
    + injection Hstep as <-. split; [apply create_well_formed | apply create_edges]; assumption.
    + split; [eapply add_dependency_well_formed | eapply add_dependency_edges]; eassumption.
    + split; [eapply remove_dependency_well_formed | eapply remove_dependency_edges];
        eassumption.
  - apply Forall_forall. auto.
  - split; [apply empty_graph_well_formed|].
    intros d e (cmd & Hc & _). cbn in Hc. rewrite lookup_empty in Hc. discriminate.
Qed.

(** C5.  In every graph built by [create], [add_dependency] and
    [remove_dependency], a dependency joins two distinct commands of one
    node; and on such a graph [add_dependency] fails an assertion exactly
    when its two commands are on different nodes or are one and the same. *)
Theorem dependencies_stay_on_node (ops : list operation) (g : command_graph) :
  run ops empty_graph = Returns g ->
  (forall depender dependee,
     depends_on g depender dependee ->
     depender <> dependee /\
     exists n, on_node g depender n /\ on_node g dependee n) /\
  (forall depender dependee is_anti er ee,
     commands g !! depender = Some er -> commands g !! dependee = Some ee ->
     (get_nid er <> get_nid ee \/ depender = dependee) <->
     exists what, add_dependency depender dependee is_anti g = Throws (Assertion_failed what)).
Proof.
  intros Hrun. split; [apply (run_well_formed ops g Hrun)|].
  intros depender dependee is_anti er ee Her Hee. unfold add_dependency. rewrite Her, Hee.
  destruct (N.eqb_spec (get_nid er) (get_nid ee)) as [Hnid|Hnid]; cbn [assert bind negb].
  - destruct (N.eqb_spec dependee depender) as [Heq|Hne]; cbn [assert bind negb].
    + split; [eauto | intros _; right; congruence].
    + split; [intros [?|?]; congruence | intros (what & [=])].
  - split; [eauto | intros _; left; exact Hnid].
Qed.

Lemma dependencies_stay_on_node_witness :
  exists g,
    run [op_create compute_command 1 0; op_create push_command 1 0;
         op_add_dependency 1 0 false] empty_graph = Returns g /\
    depends_on g 1 0 /\
    exists n, on_node g 1 n /\ on_node g 0 n.
Proof.
  destruct (run [op_create compute_command 1 0; op_create push_command 1 0;
                 op_add_dependency 1 0 false] empty_graph) as [g| |] eqn:Hrun;
    [|vm_compute in Hrun; discriminate..].
  exists g. split; [reflexivity|].
  assert (depends_on g 1 0) as Hdep.
  { vm_compute in Hrun. injection Hrun as <-. eexists. split; [reflexivity|]. cbn. left. }
  split; [exact Hdep|].
  exact (proj2 (proj1 (dependencies_stay_on_node _ g Hrun) 1 0 Hdep)).
Defined.

Lemma empty_graph_fronts : fronts_hold_leaves_but_nop empty_graph.
Proof.
  intros n c. split.
  - unfold execution_front. cbn [execution_fronts empty_graph]. rewrite lookup_empty.
    intros Hin. apply not_elem_of_empty in Hin. contradiction.
  - intros [(cmd & Hc & _) _]. cbn in Hc. rewrite lookup_empty in Hc. discriminate.
Qed.

(** C4 (as amended).  After any sequence of [create] and [add_dependency]
    calls, [execution_fronts[n]] is, for every node [n], exactly the set of
    the commands on node [n] that are not [nop] and have no dependents. *)
Theorem fronts_are_leaves_but_nop (ops : list operation) (g : command_graph) :
  Forall (fun o => is_remove o = false) ops ->
  run ops empty_graph = Returns g ->
  forall n c,
    c ∈ execution_front g n <->
    on_node g c n /\ ~ is_nop g c /\ ~ has_dependents g c.
Proof.
  intros Hops Hrun.
  enough (well_formed g /\ fronts_hold_leaves_but_nop g) as [_ H] by exact H.
  revert Hops. revert Hrun. unfold run. intros Hrun Hops. revert Hrun.
  apply (for_each_invariant apply (fun o => is_remove o = false)
           (fun g => well_formed g /\ fronts_hold_leaves_but_nop g)).
  - intros [T nid tid|er ee anti|er ee] s s' Hkind [Hwf Hfronts] Hstep;
      cbn [apply is_remove] in Hstep, Hkind; [| |discriminate].
    + injection Hstep as <-. split; [apply create_well_formed | apply create_fronts]; assumption.
    + split; [eapply add_dependency_well_formed | eapply add_dependency_fronts]; eassumption.
  - exact Hops.
  - split; [apply empty_graph_well_formed | apply empty_graph_fronts].
Qed.

Lemma fronts_are_leaves_but_nop_witness :
  exists g,
    run [op_create compute_command 1 0; op_create nop_command 1 0;
         op_create push_command 1 0; op_add_dependency 2 0 false] empty_graph
    = Returns g /\
    forall c, c ∈ execution_front g 1 <->
              on_node g c 1 /\ ~ is_nop g c /\ ~ has_dependents g c.
Proof.
  destruct (run [op_create compute_command 1 0; op_create nop_command 1 0;
                 op_create push_command 1 0; op_add_dependency 2 0 false] empty_graph)
    as [g| |] eqn:Hrun; [|vm_compute in Hrun; discriminate..].
  exists g. split; [reflexivity|].
  refine (fronts_are_leaves_but_nop _ g _ Hrun 1).
  repeat constructor.
Defined.

Lemma has_dependents_Exists g c :
  has_dependents g c <->
  map_Exists (fun _ cmd => c ∈ (get_dependencies cmd).*1) (commands g).
Proof.
  unfold has_dependents, depends_on, map_Exists. split.
  - intros (d & cmd & Hd & Hin). eauto.
  - intros (d & cmd & Hd & Hin). eauto.
Qed.

(** C4, as stated, fails in two ways.  A [nop] command is never put into the
    execution front of its node, although nothing depends on it.  And
    [remove_dependency] does not put the dependee back: after command 1 was
    made to depend on command 0 and the dependency was removed again,
    command 0 has no dependents and is missing from the front. *)
Lemma fronts_miss_leaves :
  ~ (forall ops g, run ops empty_graph = Returns g -> fronts_hold_all_leaves g) /\
  ~ (forall ops g, run ops empty_graph = Returns g -> fronts_hold_leaves_but_nop g).
Proof.
  split; intros Hall.
  - pose proof (Hall [op_create nop_command 0 0] _ eq_refl 0 0) as [_ Hback].
    assert (0 ∈ execution_front (snd (create nop_command 0 0 empty_graph)) 0) as Hin.
    { apply Hback. split.
      - apply on_node_lookup. reflexivity.
      - rewrite has_dependents_Exists.
        refine (proj1 (bool_decide_eq_false _) _). vm_compute. reflexivity. }
    pose proof (bool_decide_eq_true_2 _ Hin) as Hdec. vm_compute in Hdec. discriminate.
  - destruct (run [op_create compute_command 0 0; op_create compute_command 0 0;
                   op_add_dependency 1 0 false; op_remove_dependency 1 0] empty_graph)
      as [g| |] eqn:Hrun; [|vm_compute in Hrun; discriminate..].
    pose proof (Hall _ g Hrun 0 0) as [_ Hback].
    vm_compute in Hrun. injection Hrun as <-.
    match type of Hback with
    | _ -> ?c ∈ ?front =>
        assert (c ∈ front) as Hin;
        [|pose proof (bool_decide_eq_true_2 _ Hin) as Hdec; vm_compute in Hdec; discriminate]
    end.
    apply Hback. split; [|split].
    + apply on_node_lookup. reflexivity.
    + rewrite is_nop_lookup. discriminate.
    + rewrite has_dependents_Exists.
      refine (proj1 (bool_decide_eq_false _) _). vm_compute. reflexivity.
Qed.

End CommandGraphProofs.

(** ** The rendezvous of [await_push] and arriving data *)

Module TransferProofs.
Import Command Transfer MachineFacts.

(** Transfers whose receive has not finished stay where they are. *)
Lemma update_loop_skip mpi_test (waiting rest : list transfer_in) st :
  (forall t', t' ∈ waiting -> mpi_test (request t') = false) ->
  update_loop mpi_test (waiting ++ rest) st
  = (do r <- update_loop mpi_test rest st; Returns (waiting ++ fst r, snd r)).
Proof.
  induction waiting as [|t' waiting IH]; intros Hwait.
  - cbn [app]. destruct (update_loop mpi_test rest st) as [[l s]| |]; reflexivity.
  - cbn [app update_loop]. rewrite (Hwait t') by left.
    rewrite IH by (intros t'' Ht''; apply Hwait; right; exact Ht'').
    destruct (update_loop mpi_test rest st) as [[l s]| |]; reflexivity.
Qed.

Lemma update_loop_waiting mpi_test (waiting : list transfer_in) st :
  (forall t', t' ∈ waiting -> mpi_test (request t') = false) ->
  update_loop mpi_test waiting st = Returns (waiting, st).
Proof.
  intros Hwait. rewrite <- (app_nil_r waiting) at 1.
  rewrite update_loop_skip by exact Hwait. cbn. rewrite app_nil_r. reflexivity.
Qed.

Lemma alter_last {A : Type} (f : A -> A) (l : list A) (x : A) :
  alter f (length l) (l ++ [x]) = l ++ [f x].
Proof.
  replace (length l) with (length l + 0)%nat by lia. apply (alter_app_r f l [x] 0).
Qed.

(** One finished receive among waiting ones. *)
Lemma update_one_finished mpi_test before t after st :
  mpi_test (request t) = true ->
  (forall t', t' ∈ before ++ after -> mpi_test (request t') = false) ->
  incoming_transfers st = before ++ t :: after ->
  update_incoming_transfers mpi_test st
  = (do st' <- receive_finished t st;
     Returns (mk_node_state (before ++ after) (push_blackboard st') (handles st')
                (buffer_ptrs st'))).
Proof.
  intros Ht Hwait Hincoming. unfold update_incoming_transfers. rewrite Hincoming.
  rewrite update_loop_skip by (intros t' Ht'; apply Hwait, elem_of_app; left; exact Ht').
  cbn [update_loop]. rewrite Ht.
  destruct (receive_finished t st) as [st'| |]; cbn [bind]; try reflexivity.
  rewrite update_loop_waiting by (intros t' Ht'; apply Hwait, elem_of_app; right; exact Ht').
  reflexivity.
Qed.

Section Rendezvous.
Variables (pkg : command_pkg) (d : await_push_data) (st : node_state).
Variables (t : transfer_in) (before after : list transfer_in).
Variables (mpi_test : Z -> bool) (storage : buffer_storage).

(** The package is an [await_push] for the push [await_source_cid d]; nothing
    is on the blackboard for it yet. *)
Hypothesis Hcmd : cmd pkg = AWAIT_PUSH.
Hypothesis Hdata : data pkg = data_await_push d.
Hypothesis Hblank : push_blackboard st !! await_source_cid d = None.
(** The matching transfer is being received, and its receive is the one that
    has finished. *)
Hypothesis Hincoming : incoming_transfers st = before ++ t :: after.
Hypothesis Hheader :
  header t = mk_data_header (await_bid d) (await_subrange d) (await_source_cid d).
Hypothesis Hfinished : mpi_test (request t) = true.
Hypothesis Hwaiting : forall t', t' ∈ before ++ after -> mpi_test (request t') = false.
(** The buffer is registered with the runtime. *)
Hypothesis Hbuffer : buffer_ptrs st !! await_bid d = Some (Some storage).

Let push_cid := await_source_cid d.
Let t_handle := length (handles st).
Let written := <[await_bid d := Some (storage ++ [data_of t])]> (buffer_ptrs st).

(** [await_push] first ... *)
Let awaiting :=
  mk_node_state (incoming_transfers st) (<[push_cid := t_handle]> (push_blackboard st))
    (handles st ++ [mk_handle false None]) (buffer_ptrs st).
Let await_first :=
  mk_node_state (before ++ after) (delete push_cid (<[push_cid := t_handle]> (push_blackboard st)))
    (handles st ++ [mk_handle true None]) written.

(** ... or the data first. *)
Let parked :=
  mk_node_state (before ++ after) (<[push_cid := t_handle]> (push_blackboard st))
    (handles st ++ [mk_handle true (Some t)]) (buffer_ptrs st).
Let data_first :=
  mk_node_state (before ++ after) (delete push_cid (<[push_cid := t_handle]> (push_blackboard st)))
    (handles st ++ [mk_handle true (Some t)]) written.

Lemma write_matching ptrs :
  ptrs = buffer_ptrs st -> write_data_to_buffer t ptrs = Returns written.
Proof using Hheader Hbuffer.
  intros ->. unfold write_data_to_buffer, set_buffer_data. rewrite Hheader.
  cbn [header_bid header_subrange]. rewrite Hbuffer. unfold set_data, written, data_of.
  rewrite Hheader. reflexivity.
Qed.

Lemma await_push_posts : await_push pkg st = Returns (t_handle, awaiting).
Proof using Hcmd Hdata Hblank.
  unfold await_push. rewrite Hcmd, Hdata. cbn [assert bind]. rewrite Hblank. reflexivity.
Qed.

Lemma data_arrives_for_waiter :
  update_incoming_transfers mpi_test awaiting = Returns await_first.
Proof using Hincoming Hheader Hfinished Hwaiting Hbuffer.
  rewrite (update_one_finished mpi_test before t after awaiting Hfinished Hwaiting Hincoming).
  unfold receive_finished. rewrite Hheader. cbn [header_push_cid push_blackboard awaiting].
  fold push_cid. rewrite lookup_insert_eq. cbn [buffer_ptrs].
  rewrite write_matching by reflexivity. cbn [bind handles push_blackboard buffer_ptrs].
  unfold await_first, awaiting, t_handle. cbn [handles]. rewrite alter_last. reflexivity.
Qed.

Lemma data_arrives_unawaited : update_incoming_transfers mpi_test st = Returns parked.
Proof using Hincoming Hheader Hfinished Hwaiting Hblank.
  rewrite (update_one_finished mpi_test before t after st Hfinished Hwaiting Hincoming).
  unfold receive_finished. rewrite Hheader. cbn [header_push_cid]. fold push_cid.
  unfold push_cid at 1. rewrite Hblank. reflexivity.
Qed.

Lemma await_push_collects : await_push pkg parked = Returns (t_handle, data_first).
Proof using Hcmd Hdata Hheader Hbuffer.
  unfold await_push, parked. rewrite Hcmd, Hdata.
  cbn [assert bind push_blackboard handles buffer_ptrs incoming_transfers].
  fold push_cid. rewrite lookup_insert_eq.
  unfold t_handle. rewrite lookup_app_r by lia. rewrite Nat.sub_diag. cbn [lookup list_lookup transfer].
  rewrite Hheader. cbn [header_bid header_subrange].
  rewrite !bool_decide_eq_true_2 by reflexivity. cbn [assert bind buffer_ptrs].
  rewrite write_matching by reflexivity. reflexivity.
Qed.

Lemma erased_again : delete push_cid (<[push_cid := t_handle]> (push_blackboard st)) !! push_cid = None.
Proof using All. apply lookup_delete_eq. Qed.

Lemma storage_written s :
  buffer_ptrs s = written -> storage_of s (await_bid d) = storage ++ [data_of t].
Proof using All.
  intros Hs. unfold storage_of. rewrite Hs. unfold written. rewrite lookup_insert_eq.
  reflexivity.
Qed.

Lemma handle_complete s h :
  handles s = handles st ++ [h] -> is_complete s t_handle = complete h.
Proof using All.
  intros Hs. unfold is_complete, t_handle. rewrite Hs.
  rewrite lookup_app_r by lia. rewrite Nat.sub_diag. reflexivity.
Qed.

(** C3.  Whether [await_push(pkg)] runs before or after the call of
    [update_incoming_transfers] that sees the matching receive finished, the
    same handle is returned and the node ends in the same state as far as
    anyone but the handle itself can tell: the received bytes have been
    handed to the buffer storage, the blackboard has no entry for the push,
    and the handle is complete.  (The two states differ in one place only:
    when the data came first, the handle still holds the transfer.) *)
Theorem await_push_and_arrival_commute :
  exists handle st_await_first st_data_first,
    (do r <- await_push pkg st;
     do st' <- update_incoming_transfers mpi_test (snd r);
     Returns (fst r, st')) = Returns (handle, st_await_first) /\
    (do st' <- update_incoming_transfers mpi_test st;
     await_push pkg st') = Returns (handle, st_data_first) /\
    visible st_await_first = visible st_data_first /\
    storage_of st_await_first (await_bid d) = storage ++ [data_of t] /\
    storage_of st_data_first (await_bid d) = storage ++ [data_of t] /\
    push_blackboard st_await_first !! await_source_cid d = None /\
    push_blackboard st_data_first !! await_source_cid d = None /\
    is_complete st_await_first handle = true /\
    is_complete st_data_first handle = true.
Proof using All.
  exists t_handle, await_first, data_first.
  rewrite await_push_posts. cbn [bind snd fst]. rewrite data_arrives_for_waiter.
  rewrite data_arrives_unawaited. cbn [bind]. rewrite await_push_collects.
  split; [reflexivity|]. split; [reflexivity|]. split.
  { unfold visible, await_first, data_first. cbn [incoming_transfers push_blackboard handles buffer_ptrs].
    rewrite !map_app. reflexivity. }
  split; [apply storage_written; reflexivity|].
  split; [apply storage_written; reflexivity|].
  split; [apply erased_again|]. split; [apply erased_again|].
  split; [apply (handle_complete await_first (mk_handle true None)); reflexivity|].
  apply (handle_complete data_first (mk_handle true (Some t))); reflexivity.
Qed.

(** C9.  In either order the first of the two events only puts an entry for
    the push on the blackboard and writes nothing; the second one erases the
    entry and hands the data to the buffer storage, which thus receives it
    exactly once; afterwards the blackboard has no entry for the push and the
    handle returned by [await_push] is complete. *)
Theorem second_event_erases_and_writes_once :
  (exists handle st1 st2,
     await_push pkg st = Returns (handle, st1) /\
     push_blackboard st1 !! await_source_cid d = Some handle /\
     buffer_ptrs st1 = buffer_ptrs st /\
     is_complete st1 handle = false /\
     update_incoming_transfers mpi_test st1 = Returns st2 /\
     push_blackboard st2 !! await_source_cid d = None /\
     storage_of st2 (await_bid d) = storage_of st (await_bid d) ++ [data_of t] /\
     is_complete st2 handle = true) /\
  (exists handle st1 st2,
     update_incoming_transfers mpi_test st = Returns st1 /\
     push_blackboard st1 !! await_source_cid d = Some handle /\
     buffer_ptrs st1 = buffer_ptrs st /\
     await_push pkg st1 = Returns (handle, st2) /\
     push_blackboard st2 !! await_source_cid d = None /\
     storage_of st2 (await_bid d) = storage_of st (await_bid d) ++ [data_of t] /\
     is_complete st2 handle = true).
Proof using All.
  assert (storage_of st (await_bid d) = storage) as Hold
    by (unfold storage_of; rewrite Hbuffer; reflexivity).
  rewrite Hold. split.
  - exists t_handle, awaiting, await_first.
    split; [apply await_push_posts|]. split; [apply lookup_insert_eq|].
    split; [reflexivity|].
    split; [apply (handle_complete awaiting (mk_handle false None)); reflexivity|].
    split; [apply data_arrives_for_waiter|]. split; [apply erased_again|].
    split; [apply storage_written; reflexivity|].
    apply (handle_complete await_first (mk_handle true None)); reflexivity.
  - exists t_handle, parked, data_first.
    split; [apply data_arrives_unawaited|]. split; [apply lookup_insert_eq|].
    split; [reflexivity|]. split; [apply await_push_collects|].
    split; [apply erased_again|]. split; [apply storage_written; reflexivity|].
    apply (handle_complete data_first (mk_handle true (Some t))); reflexivity.
Qed.

End Rendezvous.
End TransferProofs.

Module TransferExamples.
Import Command Transfer TransferProofs.
Local Open Scope Z_scope.

Lemma await_push_and_arrival_commute_witness :
  exists handle st1 st2,
    (do r <- await_push example_pkg (example_node [example_transfer; example_other]);
     do st' <- update_incoming_transfers (Z.eqb 1) (snd r);
     Returns (fst r, st')) = Returns (handle, st1) /\
    (do st' <- update_incoming_transfers (Z.eqb 1)
                 (example_node [example_transfer; example_other]);
     await_push example_pkg st') = Returns (handle, st2) /\
    visible st1 = visible st2.
Proof.
  destruct (await_push_and_arrival_commute example_pkg example_await
              (example_node [example_transfer; example_other])
              example_transfer [] [example_other] (Z.eqb 1) [])
    as (handle & st1 & st2 & Ha & Hb & Hsame & _); try reflexivity.
  - intros t' Ht'. cbn [app] in Ht'. apply list_elem_of_singleton in Ht' as ->. reflexivity.
  - exists handle, st1, st2. auto.
Defined.

Lemma second_event_erases_and_writes_once_witness :
  exists handle st1 st2,
    update_incoming_transfers (Z.eqb 1) (example_node [example_other; example_transfer])
    = Returns st1 /\
    push_blackboard st1 !! 7 = Some handle /\
    await_push example_pkg st1 = Returns (handle, st2) /\
    push_blackboard st2 !! 7 = None /\
    storage_of st2 3 = [data_of example_transfer].
Proof.
  destruct (second_event_erases_and_writes_once example_pkg example_await
              (example_node [example_other; example_transfer])
              example_transfer [example_other] [] (Z.eqb 1) [])
    as [_ (handle & st1 & st2 & H1 & H2 & _ & H3 & H4 & H5 & _)]; try reflexivity.
  - intros t' Ht'. cbn [app] in Ht'. apply list_elem_of_singleton in Ht' as ->. reflexivity.
  - exists handle, st1, st2. auto.
Defined.

End TransferExamples.

(** ** Shutdown *)

Module ExecutorProofs.
Import Command Executor MachineFacts.
Local Open Scope Z_scope.

Lemma stream_sent d k :
  k <> 0 -> stream d k = map snd (List.filter (fun m => fst m =? k) (sent d)).
Proof. intros Hk. unfold stream. destruct (Z.eqb_spec k 0); [contradiction | reflexivity]. Qed.

Lemma stream_master d : stream d 0 = master_commands d.
Proof. reflexivity. Qed.

(** The walk over the command graph passes on the commands it finds, to one
    stream each. *)
Lemma visit_no_shutdown d v k :
  v_cmd v <> SHUTDOWN -> no_shutdown (stream d k) -> no_shutdown (stream (visit d v) k).
Proof.
  intros Hv Hd. unfold visit. case_bool_decide; [exact Hd|].
  destruct (Z.eqb_spec (v_nid v) 0) as [Hzero|Hzero]; cbn [negb].
  - unfold stream in *. destruct (k =? 0); cbn [master_commands sent]; [|exact Hd].
    apply Forall_app. split; [exact Hd|]. repeat constructor. exact Hv.
  - unfold stream in *. destruct (k =? 0); cbn [master_commands sent]; [exact Hd|].
    rewrite List.filter_app, map_app. apply Forall_app. split; [exact Hd|].
    cbn [List.filter fst]. destruct (v_nid v =? k); cbn [map snd]; repeat constructor.
    exact Hv.
Qed.

Lemma walk_no_shutdown visited : forall d k,
  Forall (fun v => v_cmd v <> SHUTDOWN) visited ->
  no_shutdown (stream d k) -> no_shutdown (stream (fold_left visit visited d) k).
Proof.
  induction visited as [|v visited IH]; intros d k Hvisited Hd; cbn [fold_left]; [exact Hd|].
  apply Forall_cons in Hvisited as [Hv Hvisited].
  apply IH; [exact Hvisited|]. apply visit_no_shutdown; assumption.
Qed.

(** The loop over the workers: one shutdown for each of [i .. i + count - 1],
    none for anyone else, the master's queue untouched. *)
Lemma shutdown_rounds (count : nat) : forall (i : Z) (d : dispatched),
  0 < i ->
  exists d',
    iterate send_shutdown count i d = Returns d' /\
    master_commands d' = master_commands d /\
    forall k, k <> 0 ->
      exists extra,
        stream d' k = stream d k ++ extra /\
        if (i <=? k) && (k <? i + Z.of_nat count)
        then exists sd, extra = [sd] /\ cmd sd = SHUTDOWN
        else extra = [].
Proof.
  induction count as [|count IH]; intros i d Hi.
  - exists d. split; [reflexivity|]. split; [reflexivity|]. intros k Hk. exists [].
    split; [rewrite app_nil_r; reflexivity|].
    destruct (Z.leb_spec i k), (Z.ltb_spec k (i + Z.of_nat 0)); cbn; try reflexivity; lia.
  - cbn [iterate]. unfold send_shutdown at 1. cbn [bind].
    set (pkg := mk_command_pkg 0 (next_cmd_id d) SHUTDOWN data_none).
    set (d1 := mk_dispatched (sent d ++ [(i, pkg)]) (master_commands d)
                 (wrap_size (next_cmd_id d + 1))).
    destruct (IH (i + 1) d1 ltac:(lia)) as (d' & Hrun & Hmaster & Hstreams).
    exists d'. split; [exact Hrun|]. split; [exact Hmaster|]. intros k Hk.
    destruct (Hstreams k Hk) as (extra & Hextra & Hshape).
    rewrite Hextra. rewrite (stream_sent d1 k Hk), (stream_sent d k Hk).
    unfold d1. cbn [sent]. rewrite List.filter_app, map_app. cbn [List.filter fst].
    destruct (Z.eqb_spec i k) as [Heq|Hne].
    + subst k. cbn [map snd]. exists (pkg :: extra). rewrite <- app_assoc. split; [reflexivity|].
      destruct (Z.leb_spec (i + 1) i); [lia|]. cbn [andb] in Hshape. subst extra.
      destruct (Z.leb_spec i i), (Z.ltb_spec i (i + Z.of_nat (S count))); try lia.
      cbn [andb]. exists pkg. split; reflexivity.
    + cbn [map]. rewrite app_nil_r. exists extra. split; [reflexivity|].
      destruct (Z.leb_spec (i + 1) k), (Z.ltb_spec k (i + 1 + Z.of_nat count)),
        (Z.leb_spec i k), (Z.ltb_spec k (i + Z.of_nat (S count)));
        cbn [andb] in *; try exact Hshape; lia.
Qed.

Section Loop.
Context {job : Type}.
Variable create_job : command_pkg -> job.

Abbreviation executor_loop := (executor_loop create_job).
Abbreviation loop_body := (loop_body create_job).

Lemma loop_body_pending is_master r st st' :
  shutdown_pending st -> loop_body is_master r st = Returns st' -> shutdown_pending st'.
Proof.
  unfold Executor.loop_body.
  intros [(Hdone & cmds & sd & Hinbox & Hsd & Hcmds)|(Hdone & Hinbox)]; rewrite Hinbox.
  - destruct cmds as [|pkg cmds]; cbn [app].
    + destruct (if is_master then true else probe r).
      * rewrite bool_decide_eq_true_2 by exact Hsd. intros [= <-]. right. auto.
      * intros [= <-]. left. split; [exact Hdone|]. exists [], sd. auto.
    + apply Forall_cons in Hcmds as [Hpkg Hcmds].
      destruct (if is_master then true else probe r).
      * rewrite bool_decide_eq_false_2 by exact Hpkg.
        destruct (handle_command_pkg create_job pkg _) as [js'| |]; cbn [bind];
          try discriminate.
        intros [= <-]. left. split; [exact Hdone|]. exists cmds, sd. auto.
      * intros [= <-]. left. split; [exact Hdone|]. exists (pkg :: cmds), sd.
        split; [reflexivity|]. split; [exact Hsd|].
        apply Forall_cons. auto.
  - intros [= <-]. right. auto.
Qed.

(** The loop is left only with [done] set, no job left, and every package
    taken. *)
Lemma executor_loop_exit is_master rounds : forall st st',
  shutdown_pending st -> executor_loop is_master rounds st = Returns st' ->
  done st' = true /\ jobs st' = [] /\ inbox st' = [].
Proof.
  induction rounds as [|r rounds IH]; intros st st' Hpending; cbn [Executor.executor_loop];
    destruct (loop_condition st) eqn:Hcond; try discriminate.
  - intros [= <-]. unfold loop_condition in Hcond.
    apply orb_false_elim in Hcond as [Hdone Hjobs].
    apply negb_false_iff in Hdone. apply negb_false_iff, Nat.eqb_eq in Hjobs.
    destruct Hpending as [[Hd _]|[_ Hinbox]]; [congruence|].
    split; [exact Hdone|]. split; [|exact Hinbox].
    destruct (jobs st); [reflexivity | discriminate].
  - destruct (loop_body is_master r st) as [st1| |] eqn:Hbody; cbn [bind]; try discriminate.
    apply IH. eapply loop_body_pending; eassumption.
  - intros [= <-]. unfold loop_condition in Hcond.
    apply orb_false_elim in Hcond as [Hdone Hjobs].
    apply negb_false_iff in Hdone. apply negb_false_iff, Nat.eqb_eq in Hjobs.
    destruct Hpending as [[Hd _]|[_ Hinbox]]; [congruence|].
    split; [exact Hdone|]. split; [|exact Hinbox].
    destruct (jobs st); [reflexivity | discriminate].
Qed.

(** C7.  After the commands of the graph, none of which is a shutdown, the
    master sends one shutdown to every worker and queues one for itself: the
    packages that reach a node, master or worker, end with a shutdown and
    contain no other.  And the executor loop of a node fed with them, with
    whatever jobs and in whatever rhythm, is left only in a state where
    [done] is set, the job list is empty, and every package has been
    received. *)
Theorem shutdown_once_and_exit_when_drained (fuel : nat) (num_nodes : Z)
    (visited : list vertex_data) (next : Z) :
  1 <= num_nodes <= INT_MAX -> (Z.to_nat num_nodes < fuel)%nat ->
  Forall (fun v => v_cmd v <> SHUTDOWN) visited ->
  exists d,
    dispatch fuel num_nodes visited next = Returns d /\
    forall k, 0 <= k < num_nodes ->
      (exists task_cmds sd,
         stream d k = task_cmds ++ [sd] /\ cmd sd = SHUTDOWN /\
         Forall (fun p => cmd p <> SHUTDOWN) task_cmds) /\
      forall rounds js st',
        executor_loop (k =? 0) rounds (mk_executor false js (stream d k)) = Returns st' ->
        done st' = true /\ jobs st' = [] /\ inbox st' = [].
Proof.
  intros Hn Hfuel Hvisited. unfold dispatch.
  set (d0 := fold_left visit visited (mk_dispatched [] [] next)).
  rewrite (for_loop_iterate int_incr INT_MAX _ int_incr_small (Z.to_nat (num_nodes - 1)))
    by lia.
  destruct (shutdown_rounds (Z.to_nat (num_nodes - 1)) 1 d0 ltac:(lia))
    as (d1 & -> & Hmaster & Hstreams).
  cbn [bind]. eexists. split; [reflexivity|].
  assert (forall k, no_shutdown (stream d0 k)) as Hclean.
  { intros k. apply walk_no_shutdown; [exact Hvisited|].
    unfold stream. destruct (k =? 0); constructor. }
  intros k Hk.
  assert (exists task_cmds sd,
            stream (mk_dispatched (sent d1)
                      (master_commands d1 ++
                       [mk_command_pkg 0 (next_cmd_id d1) SHUTDOWN data_none])
                      (wrap_size (next_cmd_id d1 + 1))) k = task_cmds ++ [sd] /\
            cmd sd = SHUTDOWN /\ no_shutdown task_cmds) as Hstream.
  { destruct (Z.eq_dec k 0) as [->|Hk0].
    - rewrite stream_master. cbn [master_commands]. rewrite Hmaster.
      eexists _, _. split; [reflexivity|]. split; [reflexivity|]. apply (Hclean 0).
    - rewrite stream_sent by exact Hk0. cbn [sent]. rewrite <- stream_sent by exact Hk0.
      destruct (Hstreams k Hk0) as (extra & -> & Hshape).
      destruct (Z.leb_spec 1 k), (Z.ltb_spec k (1 + Z.of_nat (Z.to_nat (num_nodes - 1))));
        try lia.
      cbn [andb] in Hshape. destruct Hshape as (sd & -> & Hsd).
      exists (stream d0 k), sd. split; [reflexivity|]. split; [exact Hsd | apply Hclean]. }
  split; [exact Hstream|].
  intros rounds js st' Hloop. refine (executor_loop_exit _ _ _ _ _ Hloop).
  left. split; [reflexivity|]. exact Hstream.
Qed.

End Loop.

Lemma shutdown_once_and_exit_when_drained_witness :
  exists d,
    dispatch 5 2
      [mk_vertex_data 0 0 NOP 0 data_none;
       mk_vertex_data 0 1 COMPUTE 1 (data_compute (mk_command_subrange (0, 0, 0) (8, 1, 1)))]
      2 = Returns d /\
    exists task_cmds sd,
      stream d 1 = task_cmds ++ [sd] /\ cmd sd = SHUTDOWN /\
      Forall (fun p => cmd p <> SHUTDOWN) task_cmds.
Proof.
  destruct (shutdown_once_and_exit_when_drained (fun pkg => pkg) 5 2
              [mk_vertex_data 0 0 NOP 0 data_none;
               mk_vertex_data 0 1 COMPUTE 1
                 (data_compute (mk_command_subrange (0, 0, 0) (8, 1, 1)))] 2)
    as (d & Hd & Hall).
  - unfold INT_MAX. lia.
  - vm_compute. lia.
  - repeat constructor; discriminate.
  - exists d. split; [exact Hd|]. exact (proj1 (Hall 1 ltac:(lia))).
Defined.

End ExecutorProofs.

(** ** Shares of the equal split *)

Module SplitShares.
Import Split Shares MachineFacts SplitProofs.
Local Open Scope Z_scope.

Lemma total_range_app l1 l2 : total_range (l1 ++ l2) = total_range l1 + total_range l2.
Proof.
  unfold total_range. induction l1 as [|c l1 IH]; cbn [app map foldr]; [lia|].
  unfold range1 in *. rewrite IH. lia.
Qed.

Lemma total_range_prefix gs len n (k : nat) :
  Z.of_nat k <= n - 1 -> total_range (equal_chunks gs len n k) = Z.of_nat k * (len / n).
Proof.
  induction k as [|k IH]; intros Hk; [reflexivity|].
  rewrite equal_chunks_S, total_range_app, IH by lia.
  unfold total_range, nth_chunk. cbn [map foldr range].
  destruct (Z.eqb_spec (Z.of_nat k) (n - 1)); lia.
Qed.

Lemma total_range_all gs len n :
  0 <= len -> 0 < n -> total_range (equal_chunks gs len n (Z.to_nat n)) = len.
Proof.
  intros Hlen Hn. destruct (div_mod_facts len n Hlen Hn) as (Hq & Hr & Hqr).
  replace (Z.to_nat n) with (S (Z.to_nat (n - 1))) by lia.
  rewrite equal_chunks_S, total_range_app, total_range_prefix by lia.
  unfold total_range, nth_chunk. cbn [map foldr range].
  rewrite Z2Nat.id by lia. rewrite Z.eqb_refl. lia.
Qed.

(** X1.  What the chunks of [split_equal] get: their ranges add up to the
    range that was split; every chunk but the last has [range / num_chunks]
    indices and the last one has the remainder more, fewer than
    [num_chunks] extra; so with more chunks than indices every chunk but the
    last is empty and the last one holds the whole range. *)
Theorem split_equal_shares (fuel : nat) (sr : subrange range1) (num_chunks : Z) :
  is_size (range sr) -> 0 < num_chunks <= UINT_MAX -> (Z.to_nat num_chunks < fuel)%nat ->
  exists chunks,
    split_equal_1 fuel sr num_chunks = Returns chunks /\
    total_range chunks = range sr /\
    (forall (k : nat) c, chunks !! k = Some c ->
       (Z.of_nat k < num_chunks - 1 -> range c = range sr / num_chunks) /\
       (Z.of_nat k = num_chunks - 1 ->
        range sr / num_chunks <= range c < range sr / num_chunks + num_chunks)) /\
    (range sr < num_chunks ->
     forall (k : nat) c, chunks !! k = Some c ->
       range c = if Z.of_nat k =? num_chunks - 1 then range sr else 0).
Proof.
  intros Hsize Hn Hfuel.
  destruct (div_mod_facts (range sr) num_chunks (proj1 Hsize) ltac:(lia)) as (Hq & Hr & Hqr).
  exists (equal_chunks (global_size sr) (range sr) num_chunks (Z.to_nat num_chunks)).
  split; [apply split_equal_1_returns; assumption|].
  split; [apply total_range_all; [apply Hsize | lia]|].
  assert (forall (k : nat) c,
            equal_chunks (global_size sr) (range sr) num_chunks (Z.to_nat num_chunks) !! k
            = Some c ->
            c = nth_chunk (global_size sr) (range sr) num_chunks (Z.of_nat k)) as Hnth.
  { intros k c Hc. pose proof (lookup_lt_Some _ _ _ Hc) as Hlt.
    rewrite equal_chunks_length in Hlt. rewrite equal_chunks_lookup in Hc by exact Hlt.
    congruence. }
  split.
  - intros k c Hc. rewrite (Hnth k c Hc). unfold nth_chunk. cbn [range].
    destruct (Z.eqb_spec (Z.of_nat k) (num_chunks - 1)); split; intros; lia.
  - intros Hfew k c Hc. rewrite (Hnth k c Hc). unfold nth_chunk. cbn [range].
    assert (range sr / num_chunks = 0) as Hzero by (apply Z.div_small; lia).
    rewrite Hzero in *. destruct (Z.of_nat k =? num_chunks - 1); lia.
Qed.

Lemma split_equal_shares_witness :
  exists chunks,
    split_equal_1 8 (mk_subrange 0 2 2) 5 = Returns chunks /\
    total_range chunks = 2 /\
    forall (k : nat) c, chunks !! k = Some c ->
      range c = if Z.of_nat k =? 4 then 2 else 0.
Proof.
  destruct (split_equal_shares 8 (mk_subrange 0 2 2) 5) as (chunks & Hret & Hsum & _ & Hfew).
  - unfold is_size, SIZE_MAX. cbn [range]. lia.
  - unfold UINT_MAX. lia.
  - vm_compute. lia.
  - exists chunks. split; [exact Hret|]. split; [exact Hsum|].
    apply Hfew. cbn [range]. lia.
Defined.

(** X2.  The two-dimensional [split_equal] splits by row for any subrange:
    chunk [k] takes the rows from [k * (rows / num_chunks)] on, counted from
    0 whatever [sr.start[0]] is, and keeps the column offset [sr.start[1]],
    the column extent [sr.range[1]] and the global size of [sr]; together
    the chunks cover the rows [0 .. sr.range[0])] of the columns of [sr]. *)
Theorem split_equal_2_by_row (fuel : nat) (sr : subrange range2) (num_chunks : Z) :
  is_size (fst (range sr)) -> 0 < num_chunks <= UINT_MAX ->
  (Z.to_nat num_chunks < fuel)%nat ->
  let rows := fst (range sr) in
  exists chunks,
    split_equal_2 fuel sr num_chunks = Returns chunks /\
    length chunks = Z.to_nat num_chunks /\
    (forall k, 0 <= k < num_chunks ->
       chunks !! Z.to_nat k
       = Some (mk_subrange (k * (rows / num_chunks), snd (start sr))
                 (if k =? num_chunks - 1
                  then rows / num_chunks + rows mod num_chunks
                  else rows / num_chunks, snd (range sr))
                 (global_size sr))) /\
    (forall p, (exists c, c ∈ chunks /\ in_subrange_2 p c) <->
               0 <= fst p < rows /\
               snd (start sr) <= snd p < snd (start sr) + snd (range sr)).
Proof.
  intros Hsize Hn Hfuel rows. unfold split_equal_2.
  rewrite split_equal_1_returns by assumption. cbn [bind range global_size].
  fold rows. eexists. split; [reflexivity|].
  split; [rewrite length_map; apply equal_chunks_length|]. split.
  - intros k Hk. rewrite list_lookup_fmap, equal_chunks_lookup by lia.
    rewrite Z2Nat.id by lia. reflexivity.
  - intros p. split.
    + intros (c & Hc & Hp). apply list_elem_of_fmap in Hc as (row & -> & Hrow).
      unfold in_subrange_2 in Hp. cbn [start range fst snd] in Hp.
      destruct Hp as [Hp0 Hp1]. split; [|exact Hp1].
      apply (equal_chunks_cover (fst (global_size sr)) rows num_chunks (fst p));
        [apply Hsize | lia|].
      exists row. split; [exact Hrow | exact Hp0].
    + intros [Hp0 Hp1].
      apply (equal_chunks_cover (fst (global_size sr)) rows num_chunks (fst p)) in Hp0
        as (row & Hrow & Hin); [|apply Hsize | lia].
      eexists. split; [apply list_elem_of_fmap; exists row; split; [reflexivity | exact Hrow]|].
      unfold in_subrange_2. cbn [start range fst snd]. split; [exact Hin | exact Hp1].
Qed.

Lemma split_equal_2_by_row_witness :
  exists chunks,
    split_equal_2 5 (mk_subrange (4, 7) (10, 3) (20, 20)) 3 = Returns chunks /\
    chunks !! 2%nat = Some (mk_subrange (6, 7) (4, 3) (20, 20)).
Proof.
  destruct (split_equal_2_by_row 5 (mk_subrange (4, 7) (10, 3) (20, 20)) 3)
    as (chunks & Hret & _ & Hnth & _).
  - unfold is_size, SIZE_MAX. cbn [range fst]. lia.
  - unfold UINT_MAX. lia.
  - vm_compute. lia.
  - exists chunks. split; [exact Hret|]. exact (Hnth 2 ltac:(lia)).
Defined.

End SplitShares.

(** ** More on loops *)

Module LoopFacts.
Import MachineFacts.
Local Open Scope Z_scope.

(** A loop that returns was a plain iteration, when the counter could not
    leave its range. *)
Lemma for_loop_returns_iterate {St : Type} (incr : Z -> outcome Z) (limit : Z)
    (body : Z -> St -> outcome St) :
  (forall i, 0 <= i < limit -> incr i = Returns (i + 1)) ->
  forall (fuel : nat) (bound i : Z) (s s' : St),
    0 <= i <= bound -> bound <= limit ->
    for_loop incr fuel bound body i s = Returns s' ->
    iterate body (Z.to_nat (bound - i)) i s = Returns s'.
Proof.
  intros Hincr. induction fuel as [|fuel IH]; intros bound i s s' Hi Hb; cbn [for_loop];
    [discriminate|].
  destruct (Z.ltb_spec i bound) as [Hlt|Hge].
  - replace (Z.to_nat (bound - i)) with (S (Z.to_nat (bound - (i + 1)))) by lia.
    cbn [iterate]. destruct (body i s) as [s1| |]; cbn [bind]; try discriminate.
    rewrite Hincr by lia. cbn [bind]. apply IH; lia.
  - replace (bound - i) with 0 by lia. intros [= <-]. reflexivity.
Qed.

(** Rounds that return can be taken off the front of a loop. *)
Lemma for_loop_prefix {St : Type} (incr : Z -> outcome Z) (limit : Z)
    (body : Z -> St -> outcome St) :
  (forall i, 0 <= i < limit -> incr i = Returns (i + 1)) ->
  forall (count fuel : nat) (bound i : Z) (s s' : St),
    0 <= i -> i + Z.of_nat count <= bound -> bound <= limit ->
    iterate body count i s = Returns s' ->
    for_loop incr (count + fuel) bound body i s
    = for_loop incr fuel bound body (i + Z.of_nat count) s'.
Proof.
  intros Hincr. induction count as [|count IH]; intros fuel bound i s s' Hi Hsum Hb.
  - cbn [iterate]. intros [= <-]. rewrite Z.add_0_r. reflexivity.
  - cbn [iterate]. destruct (body i s) as [s1| |] eqn:Hbody; cbn [bind]; try discriminate.
    intros Hrest. cbn [Nat.add for_loop].
    destruct (Z.ltb_spec i bound); [|lia]. rewrite Hbody. cbn [bind].
    rewrite Hincr by lia. cbn [bind].
    rewrite (IH fuel bound (i + 1) s1 s') by (try exact Hrest; lia).
    f_equal. lia.
Qed.

(** An iteration that returns has kept what every round carries on, round
    by round. *)
Lemma iterate_invariant {St : Type} (body : Z -> St -> outcome St) (Inv : Z -> St -> Prop)
    (first : Z) :
  (forall i s s', first <= i -> Inv i s -> body i s = Returns s' -> Inv (i + 1) s') ->
  forall (count : nat) (i : Z) (s s' : St),
    first <= i -> Inv i s -> iterate body count i s = Returns s' ->
    Inv (i + Z.of_nat count) s'.
Proof.
  intros Hbody. induction count as [|count IH]; intros i s s' Hi Hs; cbn [iterate].
  - intros [= <-]. rewrite Z.add_0_r. exact Hs.
  - destruct (body i s) as [s1| |] eqn:Hb; cbn [bind]; try discriminate.
    intros Hrest. replace (i + Z.of_nat (S count)) with (i + 1 + Z.of_nat count) by lia.
    apply (IH (i + 1) s1 s'); [lia | | exact Hrest]. eapply Hbody; eassumption.
Qed.

(** An iteration whose rounds return as long as what they carry on holds,
    returns. *)
Lemma iterate_returns {St : Type} (body : Z -> St -> outcome St) (Inv : Z -> St -> Prop)
    (first last : Z) :
  (forall i s, first <= i < last -> Inv i s ->
     exists s', body i s = Returns s' /\ Inv (i + 1) s') ->
  forall (count : nat) (i : Z) (s : St),
    first <= i -> i + Z.of_nat count <= last -> Inv i s ->
    exists s', iterate body count i s = Returns s' /\ Inv (i + Z.of_nat count) s'.
Proof.
  intros Hbody. induction count as [|count IH]; intros i s Hi Hlast Hs; cbn [iterate].
  - exists s. rewrite Z.add_0_r. auto.
  - destruct (Hbody i s ltac:(lia) Hs) as (s1 & -> & Hs1). cbn [bind].
    replace (i + Z.of_nat (S count)) with (i + 1 + Z.of_nat count) by lia.
    apply IH; [lia | lia | exact Hs1].
Qed.

Lemma for_each_app {A St : Type} (body : A -> St -> outcome St) (l1 l2 : list A) (s : St) :
  for_each body (l1 ++ l2) s = (do s' <- for_each body l1 s; for_each body l2 s').
Proof.
  revert s. induction l1 as [|a l1 IH]; intros s; cbn [app for_each bind]; [reflexivity|].
  destruct (body a s) as [s1| |]; cbn [bind]; [apply IH | reflexivity..].
Qed.

End LoopFacts.

(** ** The free nodes of a compute task *)

Module FreeNodeProofs.
Import Split Generate Outcomes MachineFacts LoopFacts.
Local Open Scope Z_scope.

Lemma node_range_S first (count : nat) :
  node_range first (S count) = node_range first count ++ [first + Z.of_nat count].
Proof. unfold node_range. rewrite seq_S, map_app. reflexivity. Qed.

Lemma elem_of_node_range first (count : nat) x :
  x ∈ node_range first count <-> first <= x < first + Z.of_nat count.
Proof.
  unfold node_range. rewrite list_elem_of_fmap. split.
  - intros (k & -> & Hk). apply elem_of_seq in Hk. lia.
  - intros Hx. exists (Z.to_nat (x - first)). split; [lia|]. apply elem_of_seq. lia.
Qed.

Lemma node_range_length first (count : nat) : length (node_range first count) = count.
Proof. unfold node_range. rewrite length_map, length_seq. reflexivity. Qed.

Lemma node_range_sorted first (count : nat) : StronglySorted Z.lt (node_range first count).
Proof.
  unfold node_range. revert first. induction count as [|count IH]; intros first; [constructor|].
  rewrite <- cons_seq. cbn [map]. rewrite <- seq_shift, map_map.
  constructor.
  - erewrite map_ext; [apply (IH (first + 1))|]. intros k. cbn. lia.
  - apply List.Forall_forall. intros y Hy. apply in_map_iff in Hy as (k & <- & _). lia.
Qed.

(** A new largest element goes to the end of a [std::set]. *)
Lemma set_insert_last x l : (forall y, y ∈ l -> y < x) -> set_insert x l = l ++ [x].
Proof.
  induction l as [|y l IH]; intros Hall; [reflexivity|]. cbn [set_insert app].
  pose proof (Hall y ltac:(left)) as Hy.
  destruct (Z.ltb_spec x y); [lia|]. destruct (Z.eqb_spec x y); [lia|].
  rewrite IH; [reflexivity|]. intros z Hz. apply Hall. right. exact Hz.
Qed.

(** The loop that collects the free nodes. *)
Lemma initial_free_nodes_closed (fuel : nat) (num_worker_nodes : Z)
    (master_only : bool) :
  1 <= num_worker_nodes < UINT_MAX -> (Z.to_nat num_worker_nodes + 1 < fuel)%nat ->
  initial_free_nodes fuel num_worker_nodes master_only
  = Returns (if master_only
             then node_range 0 (Z.to_nat num_worker_nodes + 1)
             else node_range 1 (Z.to_nat num_worker_nodes)).
Proof.
  intros Hn Hfuel. unfold initial_free_nodes.
  assert (UINT_MAX <= SIZE_MAX) as Hus by (unfold UINT_MAX, SIZE_MAX; lia).
  rewrite wrap_size_small by lia.
  rewrite (for_loop_iterate uint_incr UINT_MAX _ uint_incr_small
             (Z.to_nat (num_worker_nodes + 1))) by lia.
  set (body := fun (i : Z) (free : list Z) =>
                 if negb master_only && (i =? 0) then Returns free
                 else Returns (set_insert i free)).
  set (free_after := fun (i : Z) =>
                       if master_only then node_range 0 (Z.to_nat i)
                       else node_range 1 (Z.to_nat (i - 1))).
  assert (forall (count : nat) (i : Z), 0 <= i ->
            iterate body count i (free_after i)
            = Returns (free_after (i + Z.of_nat count))) as Hrounds.
  { induction count as [|count IH]; intros i Hi.
    - rewrite Z.add_0_r. reflexivity.
    - cbn [iterate]. replace (i + Z.of_nat (S count)) with (i + 1 + Z.of_nat count) by lia.
      rewrite <- IH by lia.
      assert (body i (free_after i) = Returns (free_after (i + 1))) as ->; [|reflexivity].
      unfold body, free_after. destruct master_only; cbn [negb andb].
      + rewrite set_insert_last
          by (intros y Hy; apply elem_of_node_range in Hy; lia).
        replace (Z.to_nat (i + 1)) with (S (Z.to_nat i)) by lia.
        rewrite node_range_S. do 3 f_equal. lia.
      + destruct (Z.eqb_spec i 0) as [->|Hne]; [reflexivity|].
        rewrite set_insert_last
          by (intros y Hy; apply elem_of_node_range in Hy; lia).
        replace (Z.to_nat (i + 1 - 1)) with (S (Z.to_nat (i - 1))) by lia.
        rewrite node_range_S. do 3 f_equal. lia. }
  specialize (Hrounds (Z.to_nat (num_worker_nodes + 1)) 0 ltac:(lia)).
  replace (free_after 0) with (@nil Z) in Hrounds by (unfold free_after; destruct master_only; reflexivity).
  rewrite Hrounds. unfold free_after. destruct master_only; do 2 f_equal; lia.
Qed.

(** X3.  The free nodes that [process_compute_task] hands to the
    assignment are the nodes 1 to [num_worker_nodes], in ascending order,
    when there are workers; on a single node ([master_only]) they are the
    nodes 0 and 1 to [num_worker_nodes], the master first. *)
Theorem initial_free_nodes_are_workers (fuel : nat) (num_worker_nodes : Z)
    (master_only : bool) :
  1 <= num_worker_nodes < UINT_MAX -> (Z.to_nat num_worker_nodes + 1 < fuel)%nat ->
  initial_free_nodes fuel num_worker_nodes master_only
  = Returns (if master_only
             then node_range 0 (Z.to_nat num_worker_nodes + 1)
             else node_range 1 (Z.to_nat num_worker_nodes)).
Proof. apply initial_free_nodes_closed. Qed.

Lemma initial_free_nodes_are_workers_witness :
  initial_free_nodes 6 3 false = Returns [1; 2; 3] /\
  initial_free_nodes 6 1 true = Returns [0; 1].
Proof.
  split.
  - apply (initial_free_nodes_are_workers 6 3 false); [unfold UINT_MAX; lia | vm_compute; lia].
  - apply (initial_free_nodes_are_workers 6 1 true); [unfold UINT_MAX; lia | vm_compute; lia].
Defined.

End FreeNodeProofs.

(** ** Node assignment: when it returns, when it fails, what it records *)

Module AssignmentProofs.
Import Split Generate Outcomes MachineFacts LoopFacts AssignProofs.
Local Open Scope Z_scope.

Lemma set_erase_absent n l : n ∉ l -> set_erase n l = l.
Proof.
  induction l as [|a l IH]; intros Hn; [reflexivity|].
  unfold set_erase in *. cbn [List.filter].
  destruct (Z.eqb_spec a n) as [->|Hne]; [exfalso; apply Hn; left|].
  cbn [negb]. rewrite IH; [reflexivity|]. intros Hin. apply Hn. right. exact Hin.
Qed.

Lemma set_erase_length n l :
  StronglySorted Z.lt l -> n ∈ l -> S (length (set_erase n l)) = length l.
Proof.
  induction 1 as [|a l Hs IH Hall]; intros Hn; [inversion Hn|].
  unfold set_erase in *. cbn [List.filter length].
  destruct (Z.eqb_spec a n) as [->|Hne]; cbn [negb length].
  - fold (set_erase n l). rewrite set_erase_absent; [reflexivity|].
    intros Hin. rewrite List.Forall_forall in Hall.
    apply list_elem_of_In, Hall in Hin. lia.
  - f_equal. apply IH. apply elem_of_cons in Hn as [->|Hn]; [contradiction | exact Hn].
Qed.

Section Assignment.
Context {region box buffer_state : Type}.
Variable get_source_nodes : buffer_state -> region -> list (box * list node_id).

Abbreviation read_sources := (read_sources get_source_nodes).
Abbreviation assign_entry := (assign_entry get_source_nodes).
Abbreviation assign_chunk := (assign_chunk get_source_nodes).
Abbreviation readable := (readable get_source_nodes).

(** What the rounds of the outer loop carry on, round [i] being next, when
    every chunk has entries: the free nodes left, how many they are, and the
    chunks that have their node. *)
Let rounds_keep (free : list node_id) (i : Z) (st : @assignment box) : Prop :=
  StronglySorted Z.lt (free_nodes st) /\
  (forall n, n ∈ free_nodes st -> n ∈ free) /\
  Z.of_nat (length (free_nodes st)) + i = Z.of_nat (length free) /\
  (forall j, is_Some (chunk_nodes st !! j) <-> 0 <= j < i) /\
  (forall j n, chunk_nodes st !! j = Some n -> n ∈ free).

Lemma assign_chunk_round chunk_reqs vbr free num_chunks :
  SIZE_MAX ∉ free ->
  (forall i, 0 <= i < num_chunks ->
     exists first rest, chunk_reqs !! i = Some (first :: rest) /\
                        Forall (readable vbr) (first :: rest)) ->
  forall i st,
    0 <= i < Z.min num_chunks (Z.of_nat (length free)) -> rounds_keep free i st ->
    exists st', assign_chunk chunk_reqs vbr i st = Returns st' /\ rounds_keep free (i + 1) st'.
Proof using Type.
  intros Hmax Hreqs i st Hi (Hsorted & Hsub & Hlen & Hdom & Hin).
  destruct (Hreqs i ltac:(lia)) as (first & rest & Hentries & Hreadable).
  assert (free_nodes st <> []) as Hfree by (intros Hnil; rewrite Hnil in Hlen; cbn in Hlen; lia).
  assert (SIZE_MAX ∉ free_nodes st) as Hmax' by (intros Hm; apply Hmax, Hsub, Hm).
  destruct (assign_chunk_returns get_source_nodes chunk_reqs vbr i st first rest
              Hsorted Hfree Hmax' Hentries Hreadable) as [st' Hrun].
  exists st'. split; [exact Hrun|].
  apply assign_chunk_effect in Hrun as (entries & Hentries' & Heffect).
  rewrite Hentries in Hentries'. injection Hentries' as <-.
  destruct Heffect as (first_free & others & Hnodes & Hf & Hc). cbv zeta in Hf, Hc.
  set (nid := picked (free_nodes st) (source_nodes_of get_source_nodes vbr first) first_free)
    in *.
  assert (nid ∈ free_nodes st) as Hnid.
  { rewrite Hnodes in Hsorted. subst nid. rewrite Hnodes.
    apply (picked_properties first_free others _ Hsorted). }
  unfold rounds_keep. rewrite Hf, Hc.
  split; [apply set_erase_sorted, Hsorted|].
  split; [intros n Hn; apply elem_of_set_erase in Hn as [Hn _]; apply Hsub, Hn|].
  split; [pose proof (set_erase_length nid _ Hsorted Hnid); lia|].
  split.
  - intros j. destruct (Z.eq_dec i j) as [Heq|Hne].
    + subst j. rewrite lookup_insert_eq. split; [lia | eauto].
    + rewrite lookup_insert_ne by exact Hne. rewrite Hdom. lia.
  - intros j n. destruct (Z.eq_dec i j) as [Heq|Hne].
    + subst j. rewrite lookup_insert_eq. intros [= <-]. apply Hsub, Hnid.
    + rewrite lookup_insert_ne by exact Hne. apply Hin.
Qed.

(** X4.  With ascending free nodes, none of them the sentinel
    [numeric_limits<node_id>::max()], at least as many of them as chunks,
    and for every chunk a requirement map that is not empty and whose read
    requirements can be looked up, [assign_chunks_to_nodes] returns: every
    chunk [0 <= i < num_chunks] has one of the free nodes, and the map has no
    other key. *)
Theorem assign_chunks_to_nodes_returns chunk_reqs vbr (fuel : nat) (num_chunks : Z)
    (free : list node_id) sources :
  StronglySorted Z.lt free -> SIZE_MAX ∉ free ->
  0 <= num_chunks <= UINT_MAX -> (Z.to_nat num_chunks < fuel)%nat ->
  num_chunks <= Z.of_nat (length free) ->
  (forall i, 0 <= i < num_chunks ->
     exists first rest, chunk_reqs !! i = Some (first :: rest) /\
                        Forall (readable vbr) (first :: rest)) ->
  exists nodes sources',
    assign_chunks_to_nodes get_source_nodes fuel num_chunks chunk_reqs vbr free sources
    = Returns (nodes, sources') /\
    (forall i, 0 <= i < num_chunks -> exists n, nodes !! i = Some n /\ n ∈ free) /\
    (forall i, is_Some (nodes !! i) -> 0 <= i < num_chunks).
Proof using Type.
  intros Hsorted Hmax Hn Hfuel Henough Hreqs. unfold assign_chunks_to_nodes.
  rewrite (for_loop_iterate uint_incr UINT_MAX _ uint_incr_small (Z.to_nat num_chunks))
    by lia.
  destruct (iterate_returns (assign_chunk chunk_reqs vbr) (rounds_keep free) 0
              (Z.min num_chunks (Z.of_nat (length free)))
              (assign_chunk_round chunk_reqs vbr free num_chunks Hmax Hreqs)
              (Z.to_nat num_chunks) 0 (mk_assignment false free ∅ sources))
    as (st & -> & Hkeep); [lia | lia | |].
  { unfold rounds_keep. cbn [free_nodes chunk_nodes].
    split; [exact Hsorted|]. split; [auto|]. split; [lia|]. split.
    - intros j. rewrite lookup_empty. split; [intros [x Hx]; discriminate | lia].
    - intros j n. rewrite lookup_empty. discriminate. }
  cbn [bind]. exists (chunk_nodes st), (chunk_buffer_sources st). split; [reflexivity|].
  destruct Hkeep as (_ & _ & _ & Hdom & Hin). split.
  - intros i Hi. destruct (proj2 (Hdom i) ltac:(lia)) as [n Hnode]. eauto.
  - intros i Hi. apply Hdom in Hi. lia.
Qed.

(** X5.  With more chunks than free nodes the assignment fails: once every
    free node is taken, the next chunk runs into the assertion
    [free_nodes.size() > 0]. *)
Theorem assign_chunks_to_nodes_runs_out chunk_reqs vbr (fuel : nat) (num_chunks : Z)
    (free : list node_id) sources :
  StronglySorted Z.lt free -> SIZE_MAX ∉ free ->
  Z.of_nat (length free) < num_chunks <= UINT_MAX -> (length free < fuel)%nat ->
  (forall i, 0 <= i < num_chunks ->
     exists first rest, chunk_reqs !! i = Some (first :: rest) /\
                        Forall (readable vbr) (first :: rest)) ->
  assign_chunks_to_nodes get_source_nodes fuel num_chunks chunk_reqs vbr free sources
  = Throws (Assertion_failed "free_nodes.size() > 0").
Proof using Type.
  intros Hsorted Hmax Hn Hfuel Hreqs. unfold assign_chunks_to_nodes.
  destruct (iterate_returns (assign_chunk chunk_reqs vbr) (rounds_keep free) 0
              (Z.min num_chunks (Z.of_nat (length free)))
              (assign_chunk_round chunk_reqs vbr free num_chunks Hmax Hreqs)
              (length free) 0 (mk_assignment false free ∅ sources))
    as (st & Hrounds & Hkeep); [lia | lia | |].
  { unfold rounds_keep. cbn [free_nodes chunk_nodes].
    split; [exact Hsorted|]. split; [auto|]. split; [lia|]. split.
    - intros j. rewrite lookup_empty. split; [intros [x Hx]; discriminate | lia].
    - intros j n. rewrite lookup_empty. discriminate. }
  replace fuel with (length free + S (fuel - length free - 1))%nat by lia.
  rewrite (for_loop_prefix uint_incr UINT_MAX _ uint_incr_small (length free) _ num_chunks 0
             _ st) by (try exact Hrounds; lia).
  cbn [for_loop]. destruct (Z.ltb_spec (0 + Z.of_nat (length free)) num_chunks); [|lia].
  destruct Hkeep as (_ & _ & Hlen & _).
  assert (free_nodes st = []) as Hnone by (destruct (free_nodes st); [reflexivity | cbn in Hlen; lia]).
  destruct (Hreqs (0 + Z.of_nat (length free)) ltac:(lia))
    as (first & rest & Hentries & Hreadable).
  unfold Generate.assign_chunk at 1, map_at. rewrite Hentries. cbn [bind for_each].
  apply Forall_cons in Hreadable as [Hfirst _].
  destruct (read_sources_returns get_source_nodes vbr (0 + Z.of_nat (length free)) first
              (chunk_buffer_sources st) Hfirst) as [[src sources'] Hread].
  unfold Generate.assign_entry at 1. cbn [chunk_buffer_sources node_assigned free_nodes].
  rewrite Hread. cbn [bind]. rewrite Hnone. reflexivity.
Qed.

End Assignment.

Lemma assign_chunks_to_nodes_returns_witness :
  exists nodes sources,
    assign_chunks_to_nodes example_sources 5 2
      {[ 0 := [(7, mk_mode_requirements (Some tt) None)];
         1 := [(7, mk_mode_requirements None (Some tt))] ]}
      {[ 7 := [(0%nat, [2])] ]} [1; 2] ∅ = Returns (nodes, sources) /\
    (exists n, nodes !! 1 = Some n /\ n ∈ [1; 2]).
Proof.
  destruct (assign_chunks_to_nodes_returns example_sources
              {[ 0 := [(7, mk_mode_requirements (Some tt) None)];
                 1 := [(7, mk_mode_requirements None (Some tt))] ]}
              {[ 7 := [(0%nat, [2])] ]} 5 2 [1; 2] ∅)
    as (nodes & sources & Hret & Hall & _).
  - repeat constructor; lia.
  - intros Hin. apply list_elem_of_In in Hin. cbn in Hin. unfold SIZE_MAX in Hin. lia.
  - unfold UINT_MAX. lia.
  - vm_compute. lia.
  - cbn. lia.
  - intros i Hi. assert (i = 0 \/ i = 1) as [-> | ->] by lia.
    + eexists _, _. split; [reflexivity|]. repeat constructor.
      cbn. eexists. split; [reflexivity | discriminate].
    + eexists _, _. split; [reflexivity|]. repeat constructor.
  - exists nodes, sources. split; [exact Hret|]. apply (Hall 1). lia.
Defined.

Lemma assign_chunks_to_nodes_runs_out_witness :
  assign_chunks_to_nodes example_sources 5 2
    {[ 0 := [(7, mk_mode_requirements (Some tt) None)];
       1 := [(7, mk_mode_requirements None (Some tt))] ]}
    {[ 7 := [(0%nat, [2])] ]} [1] ∅
  = Throws (Assertion_failed "free_nodes.size() > 0").
Proof.
  apply (assign_chunks_to_nodes_runs_out example_sources).
  - repeat constructor.
  - intros Hin. apply list_elem_of_In in Hin. cbn in Hin. unfold SIZE_MAX in Hin. lia.
  - unfold UINT_MAX. cbn. lia.
  - cbn. lia.
  - intros i Hi. assert (i = 0 \/ i = 1) as [-> | ->] by lia.
    + eexists _, _. split; [reflexivity|]. repeat constructor.
      cbn. eexists. split; [reflexivity | discriminate].
    + eexists _, _. split; [reflexivity|]. repeat constructor.
Defined.

End AssignmentProofs.

(** ** The source nodes that the assignment records *)

Module SourceProofs.
Import Split Generate Outcomes MachineFacts LoopFacts AssignProofs.
Local Open Scope Z_scope.

Section Sources.
Context {region box buffer_state : Type}.
Variable get_source_nodes : buffer_state -> region -> list (box * list node_id).

Abbreviation read_sources := (read_sources get_source_nodes).
Abbreviation assign_entry := (assign_entry get_source_nodes).
Abbreviation assign_chunk := (assign_chunk get_source_nodes).

Lemma sources_at_insert (sources : gmap Z (gmap Z (list (box * list node_id)))) i bid cover j b :
  sources_at (<[i := <[bid := cover]> (default ∅ (sources !! i))]> sources) j b
  = if bool_decide (j = i /\ b = bid) then Some cover else sources_at sources j b.
Proof using Type.
  unfold sources_at. case_bool_decide as Hjb.
  - destruct Hjb as [-> ->]. rewrite lookup_insert_eq. cbn. apply lookup_insert_eq.
  - destruct (decide (i = j)) as [<-|Hij].
    + rewrite lookup_insert_eq. cbn.
      rewrite lookup_insert_ne by (intros <-; apply Hjb; auto).
      destruct (sources !! i); cbn; [reflexivity | apply lookup_empty].
    + rewrite lookup_insert_ne by exact Hij. reflexivity.
Qed.

(** What one entry does to the recorded sources. *)
Lemma assign_entry_sources vbr i it st st' :
  assign_entry vbr i it st = Returns st' ->
  match read_req (snd it) with
  | Some r =>
      exists bs, vbr !! fst it = Some bs /\ get_source_nodes bs r <> [] /\
        forall j b, sources_at (chunk_buffer_sources st') j b
                    = if bool_decide (j = i /\ b = fst it)
                      then Some (get_source_nodes bs r)
                      else sources_at (chunk_buffer_sources st) j b
  | None => chunk_buffer_sources st' = chunk_buffer_sources st
  end.
Proof using Type.
  unfold Generate.assign_entry, Generate.read_sources, map_at. cbv zeta.
  destruct (read_req (snd it)) as [r|].
  - destruct (vbr !! fst it) as [bs|]; cbn [bind]; [|discriminate].
    intros Hrun. exists bs. split; [reflexivity|]. revert Hrun.
    destruct (get_source_nodes bs r) as [|c cover]; cbn [length Nat.eqb negb assert bind];
      [discriminate|].
    intros Hrun. split; [discriminate|]. intros j b.
    rewrite <- sources_at_insert.
    destruct (node_assigned st).
    + injection Hrun as <-. reflexivity.
    + destruct (free_nodes st); [discriminate|].
      destruct (negb _); cbn [assert bind] in Hrun; [|discriminate].
      injection Hrun as <-. reflexivity.
  - cbn [bind]. destruct (node_assigned st).
    + intros [= <-]. reflexivity.
    + destruct (free_nodes st); [discriminate|].
      destruct (negb _); cbn [assert bind]; [|discriminate].
      intros [= <-]. reflexivity.
Qed.

(** Any loop over the entries of a chunk whose rounds record the cover of
    what they read, as [assign_entry] does, leaves alone what the entries do
    not read ... *)
Section Recording.
Context {St : Type}.
Variable body : buffer_id * @mode_requirements region -> St -> outcome St.
Variable recorded : St -> gmap Z (gmap Z (list (box * list node_id))).
Variable vbr : gmap Z buffer_state.
Variable i : chunk_id.
Hypothesis body_records : forall it st st',
  body it st = Returns st' ->
  match read_req (snd it) with
  | Some r =>
      exists bs, vbr !! fst it = Some bs /\ get_source_nodes bs r <> [] /\
        forall j b, sources_at (recorded st') j b
                    = if bool_decide (j = i /\ b = fst it)
                      then Some (get_source_nodes bs r)
                      else sources_at (recorded st) j b
  | None => recorded st' = recorded st
  end.

Lemma entries_leave entries : forall st st' j b,
  for_each body entries st = Returns st' ->
  j <> i \/ (forall reqs, (b, reqs) ∈ entries -> read_req reqs = None) ->
  sources_at (recorded st') j b = sources_at (recorded st) j b.
Proof using body_records.
  induction entries as [|it entries IH]; intros st st' j b; cbn [for_each].
  - intros [= <-] _. reflexivity.
  - destruct (body it st) as [st1| |] eqn:Hit; cbn [bind]; try discriminate.
    intros Hrest Hjb. rewrite (IH st1 st' j b Hrest).
    2: { destruct Hjb as [Hj|Hb]; [left; exact Hj|]. right. intros reqs Hin.
         apply (Hb reqs). right. exact Hin. }
    apply body_records in Hit. destruct (read_req (snd it)) as [r|] eqn:Hread.
    + destruct Hit as (bs & _ & _ & Hat). rewrite Hat. case_bool_decide as Hhit; [|reflexivity].
      destruct Hhit as [-> ->]. destruct Hjb as [Hj|Hb]; [contradiction|].
      specialize (Hb (snd it)). rewrite Hread in Hb. discriminate Hb.
      destruct it; left.
    + rewrite Hit. reflexivity.
Qed.

(** ... and ends with the cover of every read requirement recorded. *)
Lemma entries_record entries : forall st st',
  NoDup entries.*1 ->
  for_each body entries st = Returns st' ->
  forall bid reqs r,
    (bid, reqs) ∈ entries -> read_req reqs = Some r ->
    exists bs, vbr !! bid = Some bs /\ get_source_nodes bs r <> [] /\
               sources_at (recorded st') i bid = Some (get_source_nodes bs r).
Proof using body_records.
  induction entries as [|it entries IH]; intros st st' Hkeys; cbn [for_each].
  - intros _ bid reqs r Hin. inversion Hin.
  - destruct (body it st) as [st1| |] eqn:Hit; cbn [bind]; try discriminate.
    intros Hrest bid reqs r Hin Hread. cbn [fmap list_fmap] in Hkeys.
    apply NoDup_cons in Hkeys as [Hfresh Hkeys].
    apply elem_of_cons in Hin as [<-|Hin].
    + apply body_records in Hit. cbn [fst snd] in Hit. rewrite Hread in Hit.
      destruct Hit as (bs & Hbs & Hcover & Hat). exists bs.
      split; [exact Hbs|]. split; [exact Hcover|].
      rewrite (entries_leave entries st1 st' i bid Hrest).
      * rewrite Hat. rewrite bool_decide_eq_true_2 by auto. reflexivity.
      * right. intros reqs' Hin'. exfalso. apply Hfresh.
        apply list_elem_of_fmap. exists (bid, reqs'). split; [reflexivity | exact Hin'].
    + apply (IH st1 st' Hkeys Hrest bid reqs r Hin Hread).
Qed.

End Recording.

Lemma assign_entries_leave vbr i entries st st' j b :
  for_each (assign_entry vbr i) entries st = Returns st' ->
  j <> i \/ (forall reqs, (b, reqs) ∈ entries -> read_req reqs = None) ->
  sources_at (chunk_buffer_sources st') j b = sources_at (chunk_buffer_sources st) j b.
Proof using Type.
  apply (entries_leave (assign_entry vbr i) chunk_buffer_sources vbr i
           (assign_entry_sources vbr i)).
Qed.

Lemma assign_entries_record vbr i entries st st' :
  NoDup entries.*1 ->
  for_each (assign_entry vbr i) entries st = Returns st' ->
  forall bid reqs r,
    (bid, reqs) ∈ entries -> read_req reqs = Some r ->
    exists bs, vbr !! bid = Some bs /\ get_source_nodes bs r <> [] /\
               sources_at (chunk_buffer_sources st') i bid = Some (get_source_nodes bs r).
Proof using Type.
  apply (entries_record (assign_entry vbr i) chunk_buffer_sources vbr i
           (assign_entry_sources vbr i)).
Qed.

Lemma assign_chunk_entries chunk_reqs vbr i st st' :
  assign_chunk chunk_reqs vbr i st = Returns st' ->
  exists entries,
    chunk_reqs !! i = Some entries /\
    for_each (assign_entry vbr i) entries
      (mk_assignment false (free_nodes st) (chunk_nodes st) (chunk_buffer_sources st))
    = Returns st'.
Proof using Type.
  unfold Generate.assign_chunk, map_at.
  destruct (chunk_reqs !! i) as [entries|]; cbn [bind]; [|discriminate]. eauto.
Qed.

(** X6.  When [assign_chunks_to_nodes] returns, [chunk_buffer_sources]
    holds, for every chunk and every buffer that the chunk reads, the cover
    that [get_source_nodes] gives for the read requirement, which is not
    empty; what a chunk does not read, and what belongs to no chunk of the
    task, is as it was. *)
Theorem assign_chunks_to_nodes_records_sources chunk_reqs vbr (fuel : nat) (num_chunks : Z)
    (free : list node_id) sources nodes sources' :
  0 <= num_chunks <= UINT_MAX ->
  assign_chunks_to_nodes get_source_nodes fuel num_chunks chunk_reqs vbr free sources
  = Returns (nodes, sources') ->
  (forall i entries bid reqs r,
     0 <= i < num_chunks -> chunk_reqs !! i = Some entries -> NoDup entries.*1 ->
     (bid, reqs) ∈ entries -> read_req reqs = Some r ->
     exists bs, vbr !! bid = Some bs /\ get_source_nodes bs r <> [] /\
                sources_at sources' i bid = Some (get_source_nodes bs r)) /\
  (forall i bid,
     ~ 0 <= i < num_chunks \/
     (forall entries reqs, chunk_reqs !! i = Some entries -> (bid, reqs) ∈ entries ->
                           read_req reqs = None) ->
     sources_at sources' i bid = sources_at sources i bid).
Proof using Type.
  intros Hn. unfold assign_chunks_to_nodes.
  destruct (for_loop uint_incr fuel num_chunks _ 0 _) as [st| |] eqn:Hloop; cbn [bind];
    try discriminate.
  intros [= <- <-].
  apply (for_loop_returns_iterate uint_incr UINT_MAX _ uint_incr_small) in Hloop; [|lia..].
  rewrite Z.sub_0_r in Hloop.
  set (keeps := fun (k : Z) (st : @assignment box) =>
    (forall i entries bid reqs r,
       0 <= i < k -> chunk_reqs !! i = Some entries -> NoDup entries.*1 ->
       (bid, reqs) ∈ entries -> read_req reqs = Some r ->
       exists bs, vbr !! bid = Some bs /\ get_source_nodes bs r <> [] /\
                  sources_at (chunk_buffer_sources st) i bid = Some (get_source_nodes bs r)) /\
    (forall i bid,
       ~ 0 <= i < k \/
       (forall entries reqs, chunk_reqs !! i = Some entries -> (bid, reqs) ∈ entries ->
                             read_req reqs = None) ->
       sources_at (chunk_buffer_sources st) i bid = sources_at sources i bid)).
  enough (keeps (0 + Z.of_nat (Z.to_nat num_chunks)) st) as Hkeeps.
  { rewrite Z.add_0_l, Z2Nat.id in Hkeeps by lia. exact Hkeeps. }
  refine (iterate_invariant (assign_chunk chunk_reqs vbr) keeps 0 _ _ 0 _ st
            (Z.le_refl 0) _ Hloop).
  - intros k s s' Hk [Hhit Hmiss] Hrun.
    apply assign_chunk_entries in Hrun as (entries & Hentries & Hrun). split.
    + intros i entries' bid reqs r Hi Hentries' Hkeys Hin Hread.
      destruct (Z.eq_dec i k) as [->|Hik].
      * rewrite Hentries in Hentries'. injection Hentries' as <-.
        apply (assign_entries_record vbr k entries _ s' Hkeys Hrun bid reqs r Hin Hread).
      * rewrite (assign_entries_leave vbr k entries _ s' i bid Hrun) by (left; exact Hik).
        cbn [chunk_buffer_sources].
        apply (Hhit i entries' bid reqs r ltac:(lia) Hentries' Hkeys Hin Hread).
    + intros i bid Hout.
      rewrite (assign_entries_leave vbr k entries _ s' i bid Hrun).
      * cbn [chunk_buffer_sources]. apply Hmiss.
        destruct Hout as [Hout|Hout]; [left; lia | right; exact Hout].
      * destruct (Z.eq_dec i k) as [->|Hik]; [|left; exact Hik].
        destruct Hout as [Hout|Hout]; [lia|]. right. intros reqs Hin.
        apply (Hout entries reqs Hentries Hin).
  - split; [intros; lia|]. intros i bid _. reflexivity.
Qed.

End Sources.

Lemma assign_chunks_to_nodes_records_sources_witness :
  exists nodes sources,
    assign_chunks_to_nodes example_sources 5 2
      {[ 0 := [(7, mk_mode_requirements (Some tt) None)];
         1 := [(7, mk_mode_requirements (Some tt) None)] ]}
      {[ 7 := [(0%nat, [2])] ]} [1; 2] ∅ = Returns (nodes, sources) /\
    sources_at sources 1 7 = Some [(0%nat, [2])].
Proof.
  destruct (assign_chunks_to_nodes example_sources 5 2
              {[ 0 := [(7, mk_mode_requirements (Some tt) None)];
                 1 := [(7, mk_mode_requirements (Some tt) None)] ]}
              {[ 7 := [(0%nat, [2])] ]} [1; 2] ∅) as [[nodes sources]| |] eqn:Hrun;
    [|vm_compute in Hrun; discriminate..].
  exists nodes, sources. split; [reflexivity|].
  destruct (proj1 (assign_chunks_to_nodes_records_sources example_sources _ _ 5 2 _ _ _ _
                     ltac:(unfold UINT_MAX; lia) Hrun)
              1 [(7, mk_mode_requirements (Some tt) None)] 7
              (mk_mode_requirements (Some tt) None) tt ltac:(lia) eq_refl)
    as (bs & Hbs & _ & Hat).
  - repeat constructor. intros Hin. inversion Hin.
  - left.
  - reflexivity.
  - rewrite Hat. vm_compute in Hbs. injection Hbs as <-. reflexivity.
Defined.

End SourceProofs.

(** ** The compute commands of a task *)

Module EmitProofs.
Import Split Generate Outcomes MachineFacts LoopFacts.
Local Open Scope Z_scope.

Section Emit.
Context {region box buffer_state : Type}.
Variable merge : region -> region -> region.
Variable empty_region : region.
Variable subrange_to_grid_region : subrange range3 -> region.
Variable get_source_nodes : buffer_state -> region -> list (box * list node_id).
Variable umap_emplace :
  buffer_id -> @mode_requirements region -> list (buffer_id * @mode_requirements region) ->
  list (buffer_id * @mode_requirements region).
Context {R : Type} `{Dimension R} `{Splittable R}.
Context {command_dag vertex task_vertices : Type}.
Variable add_compute_cmd :
  command_id -> node_id -> task_vertices -> subrange range3 -> command_dag ->
  vertex * command_id * command_dag.
Variable promote : subrange R -> subrange range3.

Abbreviation emit_compute := (emit_compute add_compute_cmd promote).
Abbreviation compute_commands := (compute_commands add_compute_cmd promote).

(** The rounds of the last loop of [process_compute_task], from chunk
    [length done] on. *)
Lemma emit_rounds (tv : task_vertices) (chunks : list (subrange R)) :
  forall (rest done : list (subrange R)) (g g' : @generated region box command_dag vertex),
    chunks = done ++ rest ->
    iterate (emit_compute tv chunks) (length rest) (Z.of_nat (length done)) g = Returns g' ->
    gen_num_chunks g' = gen_num_chunks g /\
    (gen_next_cmd_id g', gen_chunk_command_vertices g', gen_command_graph g')
    = compute_commands tv (gen_chunk_nodes g') rest (Z.of_nat (length done))
        (gen_next_cmd_id g, gen_chunk_command_vertices g, gen_command_graph g) /\
    (forall j, Z.of_nat (length done) <= j < Z.of_nat (length chunks) ->
               is_Some (gen_chunk_nodes g' !! j)) /\
    (forall j, j < Z.of_nat (length done) -> gen_chunk_nodes g' !! j = gen_chunk_nodes g !! j) /\
    length (gen_chunk_command_vertices g')
    = (length (gen_chunk_command_vertices g) + length rest)%nat.
Proof using Type.
  induction rest as [|chunk rest IH]; intros done g g' Hchunks; cbn [length iterate].
  - intros [= <-]. split; [reflexivity|]. split; [reflexivity|].
    split; [|split; [reflexivity | lia]].
    intros j Hj. rewrite Hchunks, app_nil_r in Hj. lia.
  - unfold Generate.emit_compute at 1. rewrite Nat2Z.id.
    rewrite Hchunks at 1. rewrite lookup_app_r by lia. rewrite Nat.sub_diag.
    cbn [lookup list_lookup].
    destruct (add_compute_cmd (gen_next_cmd_id g)
                (default 0 (gen_chunk_nodes g !! Z.of_nat (length done))) tv (promote chunk)
                (gen_command_graph g)) as [[cv next'] graph'] eqn:Hadd.
    cbn [bind]. intros Hrest.
    replace (Z.of_nat (length done) + 1) with (Z.of_nat (length (done ++ [chunk]))) in Hrest
      by (rewrite length_app; cbn [length]; lia).
    apply IH in Hrest; [|rewrite <- app_assoc; exact Hchunks].
    cbn [gen_num_chunks gen_next_cmd_id gen_chunk_command_vertices gen_command_graph
         gen_chunk_nodes] in Hrest.
    destruct Hrest as (Hnum & Hcmds & Hsome & Hsame & Hlen).
    rewrite length_app in Hsome, Hsame, Hcmds. cbn [length] in Hsome, Hsame, Hcmds.
    assert (gen_chunk_nodes g' !! Z.of_nat (length done)
            = Some (default 0 (gen_chunk_nodes g !! Z.of_nat (length done)))) as Hhere.
    { rewrite Hsame by lia. apply lookup_insert_eq. }
    split; [exact Hnum|]. split.
    + cbn [Outcomes.compute_commands]. rewrite Hhere. cbn [default from_option id].
      rewrite Hadd. rewrite Hcmds. f_equal. lia.
    + split; [|split].
      * intros j Hj. destruct (Z.eq_dec j (Z.of_nat (length done))) as [->|Hne].
        -- rewrite Hhere. eauto.
        -- apply Hsome. lia.
      * intros j Hj. rewrite Hsame by lia. apply lookup_insert_ne. lia.
      * rewrite Hlen, length_app. cbn [length]. lia.
Qed.

(** X7.  Whenever [process_compute_task] returns, it has created one
    compute command for every chunk of the task, in the order of the chunks
    and each for the subrange of its chunk, on the node that the chunk has in
    [chunk_nodes]; every chunk has a node there; [num_chunks] is the number
    of worker nodes; and [chunk_command_vertices] has grown by one vertex
    for each chunk. *)
Theorem process_compute_task_emits (fuel : nat) (next_cmd_id : command_id) (tid : task_id)
    (ctsk : compute_task R) (num_worker_nodes : Z) (master_only : bool)
    (tv : task_vertices) (vbr : gmap Z buffer_state)
    (chunk_requirements : gmap Z (list (buffer_id * @mode_requirements region)))
    (chunk_buffer_sources : gmap Z (gmap Z (list (box * list node_id))))
    (chunk_command_vertices : list vertex) (command_graph : command_dag)
    (g : @generated region box command_dag vertex) :
  process_compute_task merge empty_region subrange_to_grid_region get_source_nodes
    umap_emplace add_compute_cmd promote fuel next_cmd_id tid ctsk num_worker_nodes
    master_only tv vbr chunk_requirements chunk_buffer_sources chunk_command_vertices
    command_graph = Returns g ->
  exists chunks,
    task_chunks fuel ctsk num_worker_nodes = Returns chunks /\
    gen_num_chunks g = num_worker_nodes /\
    (forall i, 0 <= i < Z.of_nat (length chunks) -> is_Some (gen_chunk_nodes g !! i)) /\
    (gen_next_cmd_id g, gen_chunk_command_vertices g, gen_command_graph g)
    = compute_commands tv (gen_chunk_nodes g) chunks 0
        (next_cmd_id, chunk_command_vertices, command_graph) /\
    length (gen_chunk_command_vertices g)
    = (length chunk_command_vertices + length chunks)%nat.
Proof using Type.
  unfold process_compute_task.
  destruct (task_chunks fuel ctsk num_worker_nodes) as [chunks| |]; cbn [bind];
    try discriminate.
  destruct (for_each _ (get_range_mappers ctsk) chunk_requirements) as [reqs| |];
    cbn [bind]; try discriminate.
  destruct (initial_free_nodes fuel num_worker_nodes master_only) as [free| |];
    cbn [bind]; try discriminate.
  destruct (assign_chunks_to_nodes get_source_nodes fuel (Z.of_nat (length chunks)) reqs vbr
              free chunk_buffer_sources) as [assigned| |] eqn:Hassign; cbn [bind];
    try discriminate.
  assert (Z.of_nat (length chunks) <= UINT_MAX) as Hbound.
  { destruct (Z_le_gt_dec (Z.of_nat (length chunks)) UINT_MAX) as [Hle|Hgt]; [exact Hle|].
    exfalso. unfold assign_chunks_to_nodes in Hassign.
    destruct (for_loop uint_incr fuel (Z.of_nat (length chunks)) _ 0 _) as [st| |] eqn:Hloop;
      cbn [bind] in Hassign; try discriminate.
    refine (for_loop_uint_stuck _ _ _ fuel 0 _ _ st Hloop); unfold UINT_MAX in *; lia. }
  intros Hloop. exists chunks. split; [reflexivity|].
  apply (for_loop_returns_iterate size_incr SIZE_MAX _ size_incr_small) in Hloop;
    [|unfold UINT_MAX, SIZE_MAX in *; lia..].
  rewrite Z.sub_0_r, Nat2Z.id in Hloop.
  apply (emit_rounds tv chunks chunks []) in Hloop; [|reflexivity].
  cbn [gen_num_chunks gen_next_cmd_id gen_chunk_command_vertices gen_command_graph
       gen_chunk_nodes length] in Hloop.
  destruct Hloop as (Hnum & Hcmds & Hsome & _ & Hlen).
  split; [exact Hnum|]. split; [exact Hsome|]. split; [exact Hcmds | exact Hlen].
Qed.

End Emit.

Lemma process_compute_task_emits_witness :
  exists g,
    process_compute_task (fun _ _ => tt) tt (fun _ => tt) example_sources
      (fun bid reqs m => (bid, reqs) :: m)
      (fun (next : Z) (nid : Z) (_ : unit) sr (graph : list (Z * Z)) =>
         (length graph, next + 1, graph ++ [(next, nid)]))
      (fun c : subrange range1 =>
         mk_subrange (start c, 0, 0) (range c, 1, 1) (global_size c, 1, 1))
      10 0 0
      (mk_compute_task 100
         [(7, [mk_range_mapper range1 mode_read 1 1
                 (fun c : subrange range1 =>
                    mk_subrange (start c, 0, 0) (range c, 1, 1) (global_size c, 1, 1))
                 (fun c => mk_subrange (0, 0, 0) (0, 0, 0) (0, 0, 0))
                 (fun c => mk_subrange (0, 0, 0) (0, 0, 0) (0, 0, 0))])])
      2 false tt {[ 7 := [(0%nat, [2])] ]} ∅ ∅ [] [] = Returns g /\
    gen_num_chunks g = 2 /\
    gen_command_graph g = [(0, 2); (1, 1)].
Proof.
  match goal with
  | |- exists g, ?run = Returns g /\ _ => destruct run as [g| |] eqn:Hrun
  end; [|vm_compute in Hrun; discriminate..].
  exists g. split; [reflexivity|].
  destruct (process_compute_task_emits _ _ _ _ _ _ _ _ _ _ _ _ _ _ _ _ _ _ _ _ Hrun)
    as (chunks & Hchunks & Hnum & _ & Hcmds & _).
  split; [exact Hnum|].
  vm_compute in Hrun. injection Hrun as <-. reflexivity.
Defined.

End EmitProofs.

(** ** Master-access tasks *)

Module MasterAccessProofs.
Import Split Generate Lowering Outcomes MachineFacts LoopFacts SourceProofs.
Local Open Scope Z_scope.

Section MasterAccess.
Context {region box buffer_state : Type}.
Variable merge : region -> region -> region.
Variable empty_region : region.
Variable subrange_to_grid_region : subrange range3 -> region.
Variable get_source_nodes : buffer_state -> region -> list (box * list node_id).
Variable umap_emplace :
  buffer_id -> @mode_requirements region -> list (buffer_id * @mode_requirements region) ->
  list (buffer_id * @mode_requirements region).
Context {command_dag vertex task_vertices : Type}.
Variable add_master_access_cmd :
  command_id -> task_vertices -> command_dag -> vertex * command_id * command_dag.

Abbreviation process_master_access_task :=
  (process_master_access_task merge empty_region subrange_to_grid_region get_source_nodes
     umap_emplace add_master_access_cmd).
Abbreviation require_access :=
  (require_access merge empty_region subrange_to_grid_region umap_emplace).
Abbreviation lookup_sources := (lookup_sources get_source_nodes).

(** Buffers without an access add nothing to the requirements. *)
Lemma require_nothing (accesses : list (buffer_id * list buffer_access)) reqs :
  Forall (fun it => snd it = []) accesses ->
  for_each (fun it reqs => for_each (require_access (fst it)) (snd it) reqs) accesses reqs
  = Returns reqs.
Proof using Type.
  induction 1 as [|it accesses Hit _ IH]; cbn [for_each]; [reflexivity|].
  rewrite Hit. cbn [for_each bind]. exact IH.
Qed.

(** X8.  A master-access task without a buffer access cannot be lowered:
    with no entry for the master in the requirement map, as in
    [build_command_graph], [chunk_requirements.at(master_node)] throws
    [std::out_of_range] before the master-access command is created. *)
Theorem master_access_without_accesses_throws (next_cmd_id : command_id) (tid : task_id)
    (matsk : master_access_task) (tv : task_vertices) (vbr : gmap Z buffer_state)
    (chunk_nodes : gmap Z node_id)
    (chunk_requirements : gmap Z (list (buffer_id * @mode_requirements region)))
    (chunk_buffer_sources : gmap Z (gmap Z (list (box * list node_id))))
    (chunk_command_vertices : list vertex) (command_graph : command_dag) :
  Forall (fun it => snd it = []) (get_accesses matsk) ->
  chunk_requirements !! 0 = None ->
  process_master_access_task next_cmd_id tid matsk tv vbr chunk_nodes chunk_requirements
    chunk_buffer_sources chunk_command_vertices command_graph
  = Throws (Out_of_range "chunk_requirements.at(master_node)").
Proof using Type.
  intros Hnone Hfresh. unfold Lowering.process_master_access_task. cbv zeta.
  rewrite require_nothing by exact Hnone. cbn [bind]. unfold map_at. rewrite Hfresh.
  reflexivity.
Qed.

Lemma lookup_sources_records vbr it sources sources' :
  lookup_sources vbr it sources = Returns sources' ->
  match read_req (snd it) with
  | Some r =>
      exists bs, vbr !! fst it = Some bs /\ get_source_nodes bs r <> [] /\
        forall j b, sources_at sources' j b
                    = if bool_decide (j = 0 /\ b = fst it)
                      then Some (get_source_nodes bs r)
                      else sources_at sources j b
  | None => sources' = sources
  end.
Proof using Type.
  unfold Lowering.lookup_sources, read_sources, map_at. cbv zeta.
  destruct (read_req (snd it)) as [r|]; cbn [bind snd]; [|intros [= <-]; reflexivity].
  destruct (vbr !! fst it) as [bs|]; cbn [bind]; [|discriminate].
  intros Hrun. exists bs. split; [reflexivity|]. revert Hrun.
  destruct (get_source_nodes bs r) as [|c cover]; cbn [length Nat.eqb negb assert bind snd];
    [discriminate|].
  intros [= <-]. split; [discriminate|]. intros j b. apply sources_at_insert.
Qed.

(** What [process_master_access_task] leaves behind. *)
Lemma master_access_returns (next_cmd_id : command_id) (tid : task_id)
    (matsk : master_access_task) (tv : task_vertices) (vbr : gmap Z buffer_state)
    (chunk_nodes : gmap Z node_id)
    (chunk_requirements : gmap Z (list (buffer_id * @mode_requirements region)))
    (chunk_buffer_sources : gmap Z (gmap Z (list (box * list node_id))))
    (chunk_command_vertices : list vertex) (command_graph : command_dag)
    (g : @generated region box command_dag vertex) :
  process_master_access_task next_cmd_id tid matsk tv vbr chunk_nodes chunk_requirements
    chunk_buffer_sources chunk_command_vertices command_graph = Returns g ->
  gen_num_chunks g = 1 /\
  gen_chunk_nodes g = <[0 := 0]> chunk_nodes /\
  (exists cv,
     add_master_access_cmd next_cmd_id tv command_graph
     = (cv, gen_next_cmd_id g, gen_command_graph g) /\
     gen_chunk_command_vertices g = chunk_command_vertices ++ [cv]) /\
  exists entries,
    gen_chunk_requirements g !! 0 = Some entries /\
    (NoDup entries.*1 ->
     forall bid reqs r,
       (bid, reqs) ∈ entries -> read_req reqs = Some r ->
       exists bs, vbr !! bid = Some bs /\ get_source_nodes bs r <> [] /\
                  sources_at (gen_chunk_buffer_sources g) 0 bid
                  = Some (get_source_nodes bs r)).
Proof using Type.
  unfold Lowering.process_master_access_task. cbv zeta.
  destruct (for_each _ (get_accesses matsk) chunk_requirements) as [reqs| |]; cbn [bind];
    try discriminate.
  unfold map_at. destruct (reqs !! 0) as [entries|] eqn:Hentries; cbn [bind];
    [|discriminate].
  destruct (for_each (lookup_sources vbr) entries chunk_buffer_sources) as [sources| |]
    eqn:Hsources; cbn [bind]; try discriminate.
  destruct (add_master_access_cmd next_cmd_id tv command_graph) as [[cv next] graph].
  intros [= <-]. cbn [gen_num_chunks gen_chunk_nodes gen_next_cmd_id gen_command_graph
                      gen_chunk_command_vertices gen_chunk_requirements
                      gen_chunk_buffer_sources].
  split; [reflexivity|]. split; [reflexivity|]. split; [eauto|].
  exists entries. split; [exact Hentries|]. intros Hkeys.
  apply (entries_record get_source_nodes (lookup_sources vbr) (fun s => s) vbr 0
           (lookup_sources_records vbr) entries _ _ Hkeys Hsources).
Qed.

(** X9.  Whenever [process_master_access_task] returns, the task is one
    chunk, chunk 0, on node 0, whatever the number of nodes; one
    master-access command has been created and its vertex appended; the
    requirement map has an entry for the chunk; and for every buffer that
    the task reads, [chunk_buffer_sources] holds the cover that
    [get_source_nodes] gives for the read requirement, which is not empty. *)
Theorem process_master_access_task_shape (next_cmd_id : command_id) (tid : task_id)
    (matsk : master_access_task) (tv : task_vertices) (vbr : gmap Z buffer_state)
    (chunk_nodes : gmap Z node_id)
    (chunk_requirements : gmap Z (list (buffer_id * @mode_requirements region)))
    (chunk_buffer_sources : gmap Z (gmap Z (list (box * list node_id))))
    (chunk_command_vertices : list vertex) (command_graph : command_dag)
    (g : @generated region box command_dag vertex) :
  process_master_access_task next_cmd_id tid matsk tv vbr chunk_nodes chunk_requirements
    chunk_buffer_sources chunk_command_vertices command_graph = Returns g ->
  gen_num_chunks g = 1 /\
  gen_chunk_nodes g = <[0 := 0]> chunk_nodes /\
  (exists cv,
     add_master_access_cmd next_cmd_id tv command_graph
     = (cv, gen_next_cmd_id g, gen_command_graph g) /\
     gen_chunk_command_vertices g = chunk_command_vertices ++ [cv]) /\
  exists entries,
    gen_chunk_requirements g !! 0 = Some entries /\
    (NoDup entries.*1 ->
     forall bid reqs r,
       (bid, reqs) ∈ entries -> read_req reqs = Some r ->
       exists bs, vbr !! bid = Some bs /\ get_source_nodes bs r <> [] /\
                  sources_at (gen_chunk_buffer_sources g) 0 bid
                  = Some (get_source_nodes bs r)).
Proof using Type.
  apply master_access_returns.
Qed.

End MasterAccess.

Lemma master_access_without_accesses_throws_witness :
  process_master_access_task (fun _ _ => tt) tt (fun _ => tt) example_sources
    (fun bid reqs m => (bid, reqs) :: m)
    (fun (next : Z) (_ : unit) (graph : list Z) => (length graph, next + 1, graph ++ [next]))
    0 0 (mk_master_access_task [(7, [])]) tt ∅ ∅ ∅ ∅ [] []
  = Throws (Out_of_range "chunk_requirements.at(master_node)").
Proof.
  apply master_access_without_accesses_throws.
  - repeat constructor.
  - apply lookup_empty.
Defined.

Lemma process_master_access_task_shape_witness :
  exists g,
    process_master_access_task (fun _ _ => tt) tt (fun _ => tt) example_sources
      (fun bid reqs m => (bid, reqs) :: m)
      (fun (next : Z) (_ : unit) (graph : list Z) => (length graph, next + 1, graph ++ [next]))
      4 0 (mk_master_access_task
             [(7, [mk_buffer_access mode_read (0, 0, 0) (8, 1, 1)])])
      tt {[ 7 := [(0%nat, [2])] ]} ∅ ∅ ∅ [] [] = Returns g /\
    gen_chunk_nodes g = {[ 0 := 0 ]} /\
    sources_at (gen_chunk_buffer_sources g) 0 7 = Some [(0%nat, [2])].
Proof.
  match goal with
  | |- exists g, ?run = Returns g /\ _ => destruct run as [g| |] eqn:Hrun
  end; [|vm_compute in Hrun; discriminate..].
  exists g. split; [reflexivity|].
  destruct (process_master_access_task_shape _ _ _ _ _ _ _ _ _ _ _ _ _ _ _ _ _ Hrun)
    as (_ & Hnodes & _ & entries & Hentries & Hsources).
  split; [exact Hnodes|].
  vm_compute in Hrun. injection Hrun as <-. reflexivity.
Defined.

End MasterAccessProofs.

(** ** Pushes and writers of a task *)

Module DataRequirementProofs.
Import Split Generate Lowering Outcomes MachineFacts LoopFacts FreeNodeProofs.
Local Open Scope Z_scope.

Lemma elem_of_pushes_of_cover {box : Type} i nid bid (cover : list (box * list node_id)) pr :
  pr ∈ pushes_of_cover i nid bid cover <->
  exists b holders source_nid others,
    (b, holders) ∈ cover /\ (nid ∉ holders) /\ holders = source_nid :: others /\
    pr = mk_push_request i nid source_nid bid b holders.
Proof.
  unfold pushes_of_cover. rewrite list_elem_of_omap. split.
  - intros ([b holders] & Hin & Hsome). cbn [fst snd] in Hsome.
    case_bool_decide as Hheld; [discriminate|].
    destruct holders as [|source_nid others]; [discriminate|].
    injection Hsome as <-. exists b, (source_nid :: others), source_nid, others. auto.
  - intros (b & holders & source_nid & others & Hin & Hheld & -> & ->).
    exists (b, source_nid :: others). split; [exact Hin|]. cbn [fst snd].
    rewrite bool_decide_eq_false_2 by exact Hheld. reflexivity.
Qed.

Lemma writers_at_record {region : Type} bid nid (w : region) writers b n :
  writers_at (record_writer bid nid w writers) b n
  = if bool_decide (b = bid /\ n = nid) then writers_at writers b n ++ [w]
    else writers_at writers b n.
Proof.
  unfold writers_at, record_writer. cbv zeta. case_bool_decide as Hbn.
  - destruct Hbn as [-> ->]. rewrite lookup_insert_eq. cbn [mbind option_bind].
    rewrite lookup_insert_eq. cbn [default from_option id].
    destruct (writers !! bid) as [of_buffer|]; cbn [mbind option_bind default from_option id];
      [reflexivity|].
    rewrite lookup_empty. reflexivity.
  - destruct (decide (bid = b)) as [<-|Hb].
    + rewrite lookup_insert_eq. cbn [mbind option_bind].
      rewrite lookup_insert_ne by (intros <-; apply Hbn; auto).
      destruct (writers !! bid); cbn [mbind option_bind default from_option id];
        [reflexivity|].
      rewrite lookup_empty. reflexivity.
    + rewrite lookup_insert_ne by exact Hb. reflexivity.
Qed.

Section DataRequirements.
Context {region box : Type}.
Variable area : region -> Z.
Context {command_dag vertex task_vertices : Type}.
Variable add_push_cmd :
  command_id -> node_id -> node_id -> buffer_id -> task_vertices -> vertex -> box ->
  command_dag -> command_id * command_dag.
Variable label_write : vertex -> buffer_id -> region -> command_dag -> command_dag.
Variable label_read : vertex -> buffer_id -> region -> command_dag -> command_dag.

Abbreviation push_box := (@push_box region box command_dag vertex task_vertices add_push_cmd).
Abbreviation lower_entry := (lower_entry area add_push_cmd label_write label_read).
Abbreviation lower_chunk := (lower_chunk area add_push_cmd label_write label_read).

(** What a stretch of the function has done: the pushes it has added, that
    the command counter moves only with a push, and the writers. *)
Let stretch (st st' : lowered region box command_dag) (added : list (push_request box))
    : Prop :=
  low_pushes st' = low_pushes st ++ added /\
  (added = [] -> low_next_cmd_id st' = low_next_cmd_id st).

Lemma push_boxes_stretch tv i nid bid cv cover : forall st st',
  for_each (push_box tv i nid bid cv) cover st = Returns st' ->
  stretch st st' (pushes_of_cover i nid bid cover) /\
  low_buffer_writers st' = low_buffer_writers st.
Proof using Type.
  unfold stretch.
  induction cover as [|[b holders] cover IH]; intros st st'; cbn [for_each].
  - intros [= <-]. cbn. rewrite app_nil_r. auto.
  - unfold Lowering.push_box at 1, pushes_of_cover. cbn [omap list_omap fst snd].
    fold (pushes_of_cover i nid bid cover).
    case_bool_decide as Hheld; cbn [bind]; [apply IH|].
    destruct holders as [|source_nid others]; cbn [bind]; [discriminate|].
    destruct (add_push_cmd _ _ _ _ _ _ _ _) as [next graph]. cbn [bind].
    intros Hrest. apply IH in Hrest as [[Hpushes _] Hwriters].
    cbn [low_pushes low_buffer_writers] in *.
    split; [|exact Hwriters]. split; [|discriminate].
    rewrite Hpushes, <- app_assoc. reflexivity.
Qed.

Lemma lower_entry_stretch tv sources vertices i nid it st st' :
  lower_entry tv sources vertices i nid it st = Returns st' ->
  stretch st st' (pushes_of_entry sources i nid it) /\
  low_buffer_writers st'
  = match write_req (snd it) with
    | Some w => record_writer (fst it) nid w (low_buffer_writers st)
    | None => low_buffer_writers st
    end.
Proof using Type.
  unfold Lowering.lower_entry, pushes_of_entry, sources_at, vector_at, map_at. cbv zeta.
  destruct (vertices !! Z.to_nat i) as [cv|]; cbn [bind]; [|discriminate].
  set (st1 := match write_req (snd it) with
              | Some w => mk_lowered (low_next_cmd_id st)
                            (label_write cv (fst it) w (low_command_graph st))
                            (record_writer (fst it) nid w (low_buffer_writers st))
                            (low_pushes st)
              | None => st
              end).
  assert (forall k,
            bind match write_req (snd it) with
                 | Some w =>
                     check (0 <? area w) else "write_req.area() > 0";
                     Returns (mk_lowered (low_next_cmd_id st)
                                (label_write cv (fst it) w (low_command_graph st))
                                (record_writer (fst it) nid w (low_buffer_writers st))
                                (low_pushes st))
                 | None => Returns st
                 end k = Returns st' -> k st1 = Returns st') as Hwrite.
  { intros k. subst st1. destruct (write_req (snd it)) as [w|]; cbn [bind]; [|auto].
    destruct (0 <? area w); cbn [assert bind]; [auto | discriminate]. }
  intros Hrun. apply Hwrite in Hrun. clear Hwrite.
  assert (low_pushes st1 = low_pushes st /\ low_next_cmd_id st1 = low_next_cmd_id st /\
          low_buffer_writers st1
          = match write_req (snd it) with
            | Some w => record_writer (fst it) nid w (low_buffer_writers st)
            | None => low_buffer_writers st
            end) as (Hp1 & Hn1 & Hw1)
    by (subst st1; destruct (write_req (snd it)); auto).
  unfold stretch. rewrite <- Hw1, <- Hp1, <- Hn1. clearbody st1.
  destruct (read_req (snd it)) as [r|].
  - destruct (0 <? area r); cbn [assert bind] in Hrun; [|discriminate].
    destruct (sources !! i) as [of_chunk|]; cbn [bind mbind option_bind] in Hrun |- *;
      [|discriminate].
    destruct (of_chunk !! fst it) as [cover|]; cbn [bind default from_option id] in Hrun |- *;
      [|discriminate].
    apply push_boxes_stretch in Hrun as [Hstretch Hwriters].
    cbn [low_pushes low_next_cmd_id low_buffer_writers] in *. auto.
  - injection Hrun as <-. rewrite app_nil_r. auto.
Qed.

Lemma lower_entries_stretch tv sources vertices i nid entries : forall st st',
  for_each (lower_entry tv sources vertices i nid) entries st = Returns st' ->
  stretch st st' (flat_map (pushes_of_entry sources i nid) entries) /\
  forall b n r,
    r ∈ writers_at (low_buffer_writers st') b n <->
    r ∈ writers_at (low_buffer_writers st) b n \/
    (n = nid /\ exists reqs, (b, reqs) ∈ entries /\ write_req reqs = Some r).
Proof using Type.
  unfold stretch.
  induction entries as [|it entries IH]; intros st st'; cbn [for_each flat_map].
  - intros [= <-]. rewrite app_nil_r. split; [auto|]. intros b n r. split; [auto|].
    intros [Hr|(_ & reqs & Hin & _)]; [exact Hr | inversion Hin].
  - destruct (lower_entry tv sources vertices i nid it st) as [st1| |] eqn:Hit; cbn [bind];
      try discriminate.
    intros Hrest. apply lower_entry_stretch in Hit as [[Hp1 Hn1] Hw1].
    apply IH in Hrest as [[Hp Hn] Hw]. split.
    + split; [rewrite Hp, Hp1, <- app_assoc; reflexivity|].
      intros Hnone. apply app_eq_nil in Hnone as [H1 H2].
      rewrite Hn, Hn1 by assumption. reflexivity.
    + intros b n r. rewrite Hw, Hw1. destruct it as [bid reqs]. cbn [fst snd].
      destruct (write_req reqs) as [w|] eqn:Hwrite.
      * rewrite writers_at_record. case_bool_decide as Hbn.
        -- destruct Hbn as [-> ->]. rewrite elem_of_app, list_elem_of_singleton. split.
           ++ intros [[Hr| ->]|(Hnid & reqs' & Hin & Hreq)]; [left; exact Hr | |].
              ** right. split; [reflexivity|]. exists reqs. split; [left | exact Hwrite].
              ** right. split; [reflexivity|]. exists reqs'. split; [right | ]; assumption.
           ++ intros [Hr|(_ & reqs' & Hin & Hreq)]; [left; left; exact Hr|].
              apply elem_of_cons in Hin as [[= <-]|Hin].
              ** left. right. congruence.
              ** right. split; [reflexivity|]. exists reqs'. auto.
        -- split.
           ++ intros [Hr|(Hnid & reqs' & Hin & Hreq)]; [left; exact Hr|].
              right. split; [exact Hnid|]. exists reqs'. split; [right | ]; assumption.
           ++ intros [Hr|(Hnid & reqs' & Hin & Hreq)]; [left; exact Hr|].
              apply elem_of_cons in Hin as [[= <- <-]|Hin].
              ** exfalso. apply Hbn. auto.
              ** right. split; [exact Hnid|]. exists reqs'. auto.
      * split.
        -- intros [Hr|(Hnid & reqs' & Hin & Hreq)]; [left; exact Hr|].
           right. split; [exact Hnid|]. exists reqs'. split; [right | ]; assumption.
        -- intros [Hr|(Hnid & reqs' & Hin & Hreq)]; [left; exact Hr|].
           apply elem_of_cons in Hin as [[= <- <-]|Hin]; [congruence|].
           right. split; [exact Hnid|]. exists reqs'. auto.
Qed.

Abbreviation process_task_data_requirements :=
  (process_task_data_requirements area add_push_cmd label_write label_read).

(** The whole loop over the chunks. *)
Lemma task_stretch (fuel : nat) (tid : task_id) (chunk_nodes : gmap Z node_id)
    (chunk_requirements : gmap Z (list (buffer_id * @mode_requirements region)))
    (sources : gmap Z (gmap Z (list (box * list node_id))))
    (tv : task_vertices) (vertices : list vertex)
    (writers : gmap Z (gmap Z (list region))) (next : command_id) (graph : command_dag)
    (st : lowered region box command_dag) :
  process_task_data_requirements fuel tid chunk_nodes chunk_requirements sources tv vertices
    writers next graph = Returns st ->
  low_pushes st
  = flat_map (pushes_of_chunk chunk_nodes chunk_requirements sources)
      (node_range 0 (size chunk_nodes)) /\
  (low_pushes st = [] -> low_next_cmd_id st = next) /\
  (forall b n r,
     r ∈ writers_at (low_buffer_writers st) b n <->
     r ∈ writers_at writers b n \/
     exists i entries reqs,
       0 <= i < Z.of_nat (size chunk_nodes) /\ chunk_nodes !! i = Some n /\
       chunk_requirements !! i = Some entries /\ (b, reqs) ∈ entries /\
       write_req reqs = Some r) /\
  (forall i, 0 <= i < Z.of_nat (size chunk_nodes) ->
             is_Some (chunk_nodes !! i) /\ is_Some (chunk_requirements !! i)).
Proof using Type.
  unfold Lowering.process_task_data_requirements. intros Hloop.
  assert (Z.of_nat (size chunk_nodes) <= UINT_MAX) as Hbound.
  { destruct (Z_le_gt_dec (Z.of_nat (size chunk_nodes)) UINT_MAX) as [Hle|Hgt]; [exact Hle|].
    exfalso.
    refine (for_loop_uint_stuck _ _ _ fuel 0 _ _ st Hloop); unfold UINT_MAX in *; lia. }
  apply (for_loop_returns_iterate uint_incr UINT_MAX _ uint_incr_small) in Hloop; [|lia..].
  rewrite Z.sub_0_r, Nat2Z.id in Hloop.
  set (keeps := fun (k : Z) (s : lowered region box command_dag) =>
    low_pushes s
    = flat_map (pushes_of_chunk chunk_nodes chunk_requirements sources)
        (node_range 0 (Z.to_nat k)) /\
    (low_pushes s = [] -> low_next_cmd_id s = next) /\
    (forall b n r,
       r ∈ writers_at (low_buffer_writers s) b n <->
       r ∈ writers_at writers b n \/
       exists i entries reqs,
         0 <= i < k /\ chunk_nodes !! i = Some n /\
         chunk_requirements !! i = Some entries /\ (b, reqs) ∈ entries /\
         write_req reqs = Some r) /\
    (forall i, 0 <= i < k -> is_Some (chunk_nodes !! i) /\ is_Some (chunk_requirements !! i))).
  enough (keeps (0 + Z.of_nat (size chunk_nodes)) st) as Hkeeps.
  { unfold keeps in Hkeeps. rewrite Z.add_0_l, Nat2Z.id in Hkeeps. exact Hkeeps. }
  refine (iterate_invariant
            (lower_chunk tv chunk_nodes chunk_requirements sources vertices) keeps 0 _ _ 0 _ st
            (Z.le_refl 0) _ Hloop).
  - intros k s s' Hk (Hpushes & Hnext & Hwriters & Hkeys) Hrun.
    unfold Lowering.lower_chunk, map_at in Hrun.
    destruct (chunk_nodes !! k) as [nid|] eqn:Hnid; cbn [bind] in Hrun; [|discriminate].
    destruct (chunk_requirements !! k) as [entries|] eqn:Hentries; cbn [bind] in Hrun;
      [|discriminate].
    apply lower_entries_stretch in Hrun as [[Hp Hn] Hw].
    split; [|split; [|split]].
    + replace (Z.to_nat (k + 1)) with (S (Z.to_nat k)) by lia.
      rewrite node_range_S, flat_map_app, <- Hpushes, Hp. f_equal.
      cbn [flat_map]. rewrite app_nil_r. unfold pushes_of_chunk.
      rewrite Z.add_0_l, Z2Nat.id by lia. rewrite Hnid, Hentries. reflexivity.
    + rewrite Hp. intros Hnone. apply app_eq_nil in Hnone as [H1 H2].
      rewrite Hn by exact H2. apply Hnext, H1.
    + intros b n r. rewrite Hw, Hwriters. split.
      * intros [[Hr|(i & entries' & reqs & Hi & Hrest)]|(-> & reqs & Hin & Hreq)].
        -- left. exact Hr.
        -- right. exists i, entries', reqs. split; [lia | exact Hrest].
        -- right. exists k, entries, reqs. split; [lia|]. auto.
      * intros [Hr|(i & entries' & reqs & Hi & Hnode & Hentries' & Hin & Hreq)].
        -- left. left. exact Hr.
        -- destruct (Z.eq_dec i k) as [->|Hik].
           ++ right. rewrite Hnid in Hnode. injection Hnode as <-.
              rewrite Hentries in Hentries'. injection Hentries' as <-.
              split; [reflexivity|]. exists reqs. auto.
           ++ left. right. exists i, entries', reqs. split; [lia|]. auto.
    + intros i Hi. destruct (Z.eq_dec i k) as [->|Hik].
      * rewrite Hnid, Hentries. split; eauto.
      * apply Hkeys. lia.
  - unfold keeps. cbn [low_pushes low_next_cmd_id low_buffer_writers].
    split; [reflexivity|]. split; [reflexivity|]. split; [|intros; lia].
    intros b n r. split; [auto|]. intros [Hr|(i & _ & _ & Hi & _)]; [exact Hr | lia].
Qed.

(** The pushes requested, one by one. *)
Lemma pushes_characterised (fuel : nat) (tid : task_id)
    (chunk_nodes : gmap Z node_id)
    (chunk_requirements : gmap Z (list (buffer_id * @mode_requirements region)))
    (sources : gmap Z (gmap Z (list (box * list node_id))))
    (tv : task_vertices) (vertices : list vertex)
    (writers : gmap Z (gmap Z (list region))) (next : command_id) (graph : command_dag)
    (st : lowered region box command_dag) :
  process_task_data_requirements fuel tid chunk_nodes chunk_requirements sources tv vertices
    writers next graph = Returns st ->
  forall pr,
    pr ∈ low_pushes st <->
    exists entries reqs r cover,
      0 <= pr_chunk pr < Z.of_nat (size chunk_nodes) /\
      chunk_nodes !! pr_chunk pr = Some (pr_target pr) /\
      chunk_requirements !! pr_chunk pr = Some entries /\
      (pr_bid pr, reqs) ∈ entries /\ read_req reqs = Some r /\
      sources_at sources (pr_chunk pr) (pr_bid pr) = Some cover /\
      (pr_box pr, pr_holders pr) ∈ cover /\
      (pr_target pr ∉ pr_holders pr) /\
      head (pr_holders pr) = Some (pr_source pr).
Proof using Type.
  intros Hrun pr. destruct (task_stretch _ _ _ _ _ _ _ _ _ _ _ Hrun) as (-> & _).
  rewrite list_elem_of_In, in_flat_map. split.
  - intros (i & Hi & Hpr). apply list_elem_of_In, elem_of_node_range in Hi.
    unfold pushes_of_chunk in Hpr.
    destruct (chunk_nodes !! i) as [nid|] eqn:Hnid; [|inversion Hpr].
    destruct (chunk_requirements !! i) as [entries|] eqn:Hentries; [|inversion Hpr].
    apply in_flat_map in Hpr as ([bid reqs] & Hin & Hpr). unfold pushes_of_entry in Hpr.
    cbn [fst snd] in Hpr. destruct (read_req reqs) as [r|] eqn:Hread; [|inversion Hpr].
    apply list_elem_of_In, elem_of_pushes_of_cover in Hpr
      as (b & holders & source_nid & others & Hbox & Hheld & Hholders & ->).
    cbn [pr_chunk pr_target pr_bid pr_box pr_holders pr_source].
    destruct (sources_at sources i bid) as [cover|] eqn:Hcover;
      cbn [default from_option id] in Hbox; [|inversion Hbox].
    exists entries, reqs, r, cover. rewrite Hnid, Hentries, Hholders.
    split; [lia|]. split; [reflexivity|]. split; [reflexivity|].
    split; [apply list_elem_of_In, Hin|]. split; [exact Hread|]. split; [reflexivity|].
    rewrite <- Hholders. split; [exact Hbox|]. split; [exact Hheld|].
    rewrite Hholders. reflexivity.
  - intros (entries & reqs & r & cover & Hi & Hnid & Hentries & Hin & Hread & Hcover & Hbox
            & Hheld & Hsource).
    exists (pr_chunk pr). split; [apply list_elem_of_In, elem_of_node_range; lia|].
    unfold pushes_of_chunk. rewrite Hnid, Hentries. apply in_flat_map.
    exists (pr_bid pr, reqs). split; [apply list_elem_of_In, Hin|].
    unfold pushes_of_entry. cbn [fst snd]. rewrite Hread, Hcover. cbn [default from_option id].
    apply list_elem_of_In, elem_of_pushes_of_cover.
    destruct (pr_holders pr) as [|source_nid others] eqn:Hholders; [discriminate|].
    injection Hsource as Hsource.
    exists (pr_box pr), (source_nid :: others), source_nid, others.
    split; [exact Hbox|]. split; [exact Hheld|]. split; [reflexivity|].
    destruct pr. cbn in *. congruence.
Qed.


(** X11.  When the node of every chunk holds every box of the covers of
    what the chunk reads, no push is requested and the command counter is
    left as it was. *)
Theorem no_push_for_local_data (fuel : nat) (tid : task_id)
    (chunk_nodes : gmap Z node_id)
    (chunk_requirements : gmap Z (list (buffer_id * @mode_requirements region)))
    (sources : gmap Z (gmap Z (list (box * list node_id))))
    (tv : task_vertices) (vertices : list vertex)
    (writers : gmap Z (gmap Z (list region))) (next : command_id) (graph : command_dag)
    (st : lowered region box command_dag) :
  process_task_data_requirements fuel tid chunk_nodes chunk_requirements sources tv vertices
    writers next graph = Returns st ->
  (forall i nid cover bid b holders,
     chunk_nodes !! i = Some nid -> sources_at sources i bid = Some cover ->
     (b, holders) ∈ cover -> nid ∈ holders) ->
  low_pushes st = [] /\ low_next_cmd_id st = next.
Proof using Type.
  intros Hrun Hlocal.
  assert (low_pushes st = []) as Hnone.
  { destruct (low_pushes st) as [|pr pushes] eqn:Hpushes; [reflexivity | exfalso].
    assert (pr ∈ low_pushes st) as Hpr by (rewrite Hpushes; left).
    apply (pushes_characterised _ _ _ _ _ _ _ _ _ _ _ Hrun) in Hpr
      as (entries & reqs & r & cover & _ & Hnid & _ & _ & _ & Hcover & Hbox & Hheld & _).
    apply Hheld. apply (Hlocal _ _ _ _ _ _ Hnid Hcover Hbox). }
  split; [exact Hnone|].
  destruct (task_stretch _ _ _ _ _ _ _ _ _ _ _ Hrun) as (_ & Hnext & _). apply Hnext, Hnone.
Qed.


End DataRequirements.


Lemma no_push_for_local_data_witness :
  exists st,
    process_task_data_requirements (fun _ : unit => 1)
      (fun (next : Z) (nid src bid : Z) (_ : unit) (cv : nat) (b : nat) (graph : list Z) =>
         (next + 1, graph ++ [next]))
      (fun _ _ _ graph => graph) (fun _ _ _ graph => graph)
      5 0 {[ 0 := 2 ]} {[ 0 := [(7, mk_mode_requirements (Some tt) None)] ]}
      {[ 0 := {[ 7 := [(0%nat, [1; 2])] ]} ]} tt [0%nat] ∅ 5 [] = Returns st /\
    low_pushes st = [] /\ low_next_cmd_id st = 5.
Proof.
  match goal with
  | |- exists st, ?run = Returns st /\ _ => destruct run as [st| |] eqn:Hrun
  end; [|vm_compute in Hrun; discriminate..].
  exists st. split; [reflexivity|].
  apply (no_push_for_local_data _ _ _ _ _ _ _ _ _ _ _ _ _ _ _ Hrun).
  intros i nid cover bid b holders Hnid Hcover Hbox.
  apply lookup_singleton_Some in Hnid as [<- <-].
  unfold sources_at in Hcover. rewrite lookup_singleton_eq in Hcover.
  cbn [mbind option_bind] in Hcover. apply lookup_singleton_Some in Hcover as [<- <-].
  apply list_elem_of_singleton in Hbox. injection Hbox as _ ->. right. left.
Defined.


End DataRequirementProofs.

(** ** The pushes of a master-access task *)

Module MasterPushProofs.
Import Split Generate Lowering Outcomes MachineFacts MasterAccessProofs DataRequirementProofs.
Local Open Scope Z_scope.

Section MasterPushes.
Context {region box buffer_state : Type}.
Variable merge : region -> region -> region.
Variable empty_region : region.
Variable subrange_to_grid_region : subrange range3 -> region.
Variable get_source_nodes : buffer_state -> region -> list (box * list node_id).
Variable umap_emplace :
  buffer_id -> @mode_requirements region -> list (buffer_id * @mode_requirements region) ->
  list (buffer_id * @mode_requirements region).
Variable area : region -> Z.
Context {command_dag vertex task_vertices : Type}.
Variable add_master_access_cmd :
  command_id -> task_vertices -> command_dag -> vertex * command_id * command_dag.
Variable add_push_cmd :
  command_id -> node_id -> node_id -> buffer_id -> task_vertices -> vertex -> box ->
  command_dag -> command_id * command_dag.
Variable label_write : vertex -> buffer_id -> region -> command_dag -> command_dag.
Variable label_read : vertex -> buffer_id -> region -> command_dag -> command_dag.


End MasterPushes.


End MasterPushProofs.

(** ** The indices of the command graph *)

Module GraphQueryProofs.
Import CommandGraph GraphQueries MachineFacts CommandGraphProofs.
Local Open Scope N_scope.

Lemma ids_below_succ n : ids_below (n + 1) = ids_below n ++ [n].
Proof.
  unfold ids_below. replace (N.to_nat (n + 1)) with (S (N.to_nat n)) by lia.
  rewrite seq_S, map_app. cbn [map Nat.add]. rewrite N2Nat.id. reflexivity.
Qed.

Lemma elem_of_ids_below n c : c ∈ ids_below n <-> c < n.
Proof.
  unfold ids_below. rewrite list_elem_of_fmap. split.
  - intros (k & -> & Hk). apply elem_of_seq in Hk. lia.
  - intros Hc. exists (N.to_nat c). split; [lia|]. apply elem_of_seq. lia.
Qed.

(** The task commands of a task depend on kinds and tasks only. *)
Lemma commands_of_task_ext g g' tid :
  next_cmd_id g' = next_cmd_id g ->
  (forall c, c < next_cmd_id g ->
     is_command_of_task g' tid c = is_command_of_task g tid c) ->
  commands_of_task g' tid = commands_of_task g tid.
Proof.
  intros Hnext Hsame. unfold commands_of_task. rewrite Hnext.
  apply List.filter_ext_in. intros c Hc. apply Hsame, elem_of_ids_below, list_elem_of_In, Hc.
Qed.

Lemma create_indexed T nid tid g : indexed g -> indexed (snd (create T nid tid g)).
Proof.
  intros (Hkeys & Hsize & Hids & Htasks & Hfull & Hlong).
  assert (commands g !! next_cmd_id g = None) as Hunused.
  { destruct (commands g !! next_cmd_id g) eqn:Hc; [|reflexivity].
    assert (next_cmd_id g < next_cmd_id g) by (apply Hkeys; eauto). lia. }
  unfold create. rewrite Hunused. cbn [snd]. rewrite lookup_insert_eq.
  cbn [default from_option id get_kind get_tid get_nid].
  set (cid := next_cmd_id g). set (fresh := mk_command cid nid T tid [] 0).
  unfold indexed. cbn [commands next_cmd_id by_task max_pseudo_critical_path_length].
  split; [|split; [|split; [|split; [|split]]]].
  - intros c. destruct (decide (cid = c)) as [<-|Hne].
    + rewrite lookup_insert_eq. split; [lia | eauto].
    + rewrite lookup_insert_ne by exact Hne. rewrite Hkeys. fold cid. lia.
  - rewrite map_size_insert_None by exact Hunused. fold cid. lia.
  - intros c cmd. destruct (decide (cid = c)) as [<-|Hne].
    + rewrite lookup_insert_eq. intros [= <-]. reflexivity.
    + rewrite lookup_insert_ne by exact Hne. apply Hids.
  - intros tid'. unfold commands_of_task at 1. cbn [next_cmd_id].
    rewrite ids_below_succ, List.filter_app. cbn [List.filter].
    assert (List.filter
              (is_command_of_task
                 (mk_graph (cid + 1) (<[cid := fresh]> (commands g))
                    (if isa_task_command T
                     then <[tid := default [] (by_task g !! tid) ++ [cid]]> (by_task g)
                     else by_task g)
                    (if bool_decide (T = nop_command) then execution_fronts g
                     else <[nid := default ∅ (execution_fronts g !! nid) ∪ {[cid]}]>
                            (execution_fronts g))
                    (max_pseudo_critical_path_length g)) tid') (ids_below cid)
            = commands_of_task g tid') as ->.
    { apply List.filter_ext_in. intros c Hc.
      apply list_elem_of_In, elem_of_ids_below in Hc.
      unfold is_command_of_task. cbn [commands]. rewrite lookup_insert_ne by lia.
      reflexivity. }
    unfold is_command_of_task at 1. cbn [commands]. rewrite lookup_insert_eq.
    unfold fresh. cbn [get_kind get_tid]. rewrite <- Htasks.
    destruct (isa_task_command T); cbn [andb].
    + destruct (N.eqb_spec tid tid') as [<-|Hne].
      * rewrite lookup_insert_eq. reflexivity.
      * rewrite lookup_insert_ne by exact Hne. rewrite app_nil_r. reflexivity.
    + rewrite app_nil_r. reflexivity.
  - intros tid' l. destruct (isa_task_command T); [|apply Hfull].
    destruct (decide (tid = tid')) as [<-|Hne].
    + rewrite lookup_insert_eq. intros [= <-]. destruct (default [] (by_task g !! tid)); discriminate.
    + rewrite lookup_insert_ne by exact Hne. apply Hfull.
  - intros c cmd. destruct (decide (cid = c)) as [<-|Hne].
    + rewrite lookup_insert_eq. intros [= <-]. cbn. lia.
    + rewrite lookup_insert_ne by exact Hne. apply Hlong.
Qed.

(** Replacing a command by one of the same id, kind and task, and no longer
    than [longest], keeps the indices. *)
Lemma replace_indexed g c cmd cmd' fronts' longest :
  indexed g -> commands g !! c = Some cmd ->
  get_cid cmd' = get_cid cmd -> get_kind cmd' = get_kind cmd -> get_tid cmd' = get_tid cmd ->
  max_pseudo_critical_path_length g <= longest ->
  get_pseudo_critical_path_length cmd' <= longest ->
  indexed (mk_graph (next_cmd_id g) (<[c := cmd']> (commands g)) (by_task g) fronts' longest).
Proof.
  intros (Hkeys & Hsize & Hids & Htasks & Hfull & Hlong) Hc Hcid Hkind Htid Hmax Hlen.
  unfold indexed. cbn [commands next_cmd_id by_task max_pseudo_critical_path_length].
  split; [|split; [|split; [|split; [|split]]]].
  - intros c'. destruct (decide (c = c')) as [<-|Hne].
    + rewrite lookup_insert_eq. rewrite <- Hkeys, Hc. split; eauto.
    + rewrite lookup_insert_ne by exact Hne. apply Hkeys.
  - rewrite map_size_insert_Some by (rewrite Hc; eauto). exact Hsize.
  - intros c' x. destruct (decide (c = c')) as [<-|Hne].
    + rewrite lookup_insert_eq. intros [= <-]. rewrite Hcid. apply Hids, Hc.
    + rewrite lookup_insert_ne by exact Hne. apply Hids.
  - intros tid. rewrite Htasks. symmetry. apply commands_of_task_ext; [reflexivity|].
    intros c' _. unfold is_command_of_task. cbn [commands].
    destruct (decide (c = c')) as [<-|Hne].
    + rewrite lookup_insert_eq, Hc, Hkind, Htid. reflexivity.
    + rewrite lookup_insert_ne by exact Hne. reflexivity.
  - exact Hfull.
  - intros c' x. destruct (decide (c = c')) as [<-|Hne].
    + rewrite lookup_insert_eq. intros [= <-]. exact Hlen.
    + rewrite lookup_insert_ne by exact Hne. intros Hx. apply Hlong in Hx. lia.
Qed.

Lemma apply_indexed o g g' : indexed g -> apply o g = Returns g' -> indexed g'.
Proof.
  intros Hg. destruct o as [T nid tid|er ee anti|er ee]; cbn [apply].
  - intros [= <-]. apply create_indexed, Hg.
  - intros Hadd.
    destruct (add_dependency_returns _ _ _ _ _ Hadd) as (a & b & Ha & Hb & _ & _ & ->).
    apply (replace_indexed g er a); try assumption; try reflexivity; lia.
  - intros Hremove.
    destruct (remove_dependency_returns _ _ _ _ Hremove) as (a & Ha & ->).
    apply (replace_indexed g er a); try assumption; try reflexivity; try lia.
    destruct Hg as (_ & _ & _ & _ & _ & Hlong). apply (Hlong er a Ha).
Qed.

Lemma empty_graph_indexed : indexed empty_graph.
Proof.
  unfold indexed, empty_graph. cbn [commands next_cmd_id by_task max_pseudo_critical_path_length].
  split; [|split; [|split; [|split; [|split]]]].
  - intros c. rewrite lookup_empty. split; [intros [x Hx]; discriminate | lia].
  - rewrite map_size_empty. reflexivity.
  - intros c cmd. rewrite lookup_empty. discriminate.
  - intros tid. rewrite lookup_empty. reflexivity.
  - intros tid l. rewrite lookup_empty. discriminate.
  - intros c cmd. rewrite lookup_empty. discriminate.
Qed.

Lemma run_indexed ops : forall g g', indexed g -> run ops g = Returns g' -> indexed g'.
Proof.
  intros g g' Hg. unfold run.
  apply (for_each_invariant apply (fun _ => True) indexed); [|apply Forall_forall; auto | exact Hg].
  intros o s s' _ Hs Hstep. eapply apply_indexed; eassumption.
Qed.

(** Every [create] takes the next id. *)
Lemma run_counts ops : forall g g',
  run ops g = Returns g' ->
  next_cmd_id g' = next_cmd_id g + N.of_nat (length (List.filter is_create ops)).
Proof.
  unfold run. induction ops as [|o ops IH]; intros g g'; cbn [for_each List.filter length].
  - intros [= <-]. lia.
  - destruct (apply o g) as [g1| |] eqn:Hstep; cbn [bind]; try discriminate.
    intros Hrest. rewrite (IH g1 g' Hrest).
    destruct o as [T nid tid|er ee anti|er ee]; cbn [apply is_create length] in *.
    + injection Hstep as <-. cbn [create snd next_cmd_id]. lia.
    + destruct (add_dependency_returns _ _ _ _ _ Hstep) as (a & b & _ & _ & _ & _ & ->).
      cbn [next_cmd_id]. lia.
    + destruct (remove_dependency_returns _ _ _ _ Hstep) as (a & _ & ->).
      cbn [next_cmd_id]. lia.
Qed.

(** The longest path noted never gets shorter. *)
Lemma run_longest ops : forall g g',
  run ops g = Returns g' ->
  max_pseudo_critical_path_length g <= max_pseudo_critical_path_length g'.
Proof.
  unfold run. induction ops as [|o ops IH]; intros g g'; cbn [for_each].
  - intros [= <-]. lia.
  - destruct (apply o g) as [g1| |] eqn:Hstep; cbn [bind]; try discriminate.
    intros Hrest. apply IH in Hrest.
    enough (max_pseudo_critical_path_length g <= max_pseudo_critical_path_length g1) by lia.
    destruct o as [T nid tid|er ee anti|er ee]; cbn [apply] in Hstep.
    + injection Hstep as <-. cbn [create snd max_pseudo_critical_path_length]. lia.
    + destruct (add_dependency_returns _ _ _ _ _ Hstep) as (a & b & _ & _ & _ & _ & ->).
      cbn [max_pseudo_critical_path_length]. lia.
    + destruct (remove_dependency_returns _ _ _ _ Hstep) as (a & _ & ->).
      cbn [max_pseudo_critical_path_length]. lia.
Qed.

(** X14.  In a graph built by calls the commands are numbered in the order
    of their creation: there are as many as [create] was called, which is
    also the next id; [get(cid)] gives, for every id below that, the command
    created under this id, and fails its assertion for every other id. *)
Theorem commands_are_numbered (ops : list operation) (g : command_graph) :
  run ops empty_graph = Returns g ->
  next_cmd_id g = N.of_nat (length (List.filter is_create ops)) /\
  command_count g = next_cmd_id g /\
  (forall cid, cid < next_cmd_id g ->
     exists cmd, get cid g = Returns cmd /\ get_cid cmd = cid) /\
  (forall cid, next_cmd_id g <= cid ->
     get cid g = Throws (Assertion_failed "commands.find(cid) != commands.end()")).
Proof.
  intros Hrun.
  destruct (run_indexed ops _ _ empty_graph_indexed Hrun) as (Hkeys & Hsize & Hids & _).
  split; [rewrite (run_counts ops _ _ Hrun); reflexivity|].
  split; [exact Hsize|]. split.
  - intros cid Hcid. apply Hkeys in Hcid as [cmd Hcmd]. exists cmd. unfold get.
    rewrite Hcmd. split; [reflexivity | apply Hids, Hcmd].
  - intros cid Hcid. unfold get. destruct (commands g !! cid) as [cmd|] eqn:Hcmd; [|reflexivity].
    assert (cid < next_cmd_id g) by (apply Hkeys; eauto). lia.
Qed.

Lemma commands_are_numbered_witness :
  exists g,
    run [op_create compute_command 1 0; op_create push_command 1 0;
         op_add_dependency 1 0 false] empty_graph = Returns g /\
    command_count g = 2 /\
    get 2 g = Throws (Assertion_failed "commands.find(cid) != commands.end()").
Proof.
  destruct (run [op_create compute_command 1 0; op_create push_command 1 0;
                 op_add_dependency 1 0 false] empty_graph) as [g| |] eqn:Hrun;
    [|vm_compute in Hrun; discriminate..].
  exists g. split; [reflexivity|].
  destruct (commands_are_numbered _ g Hrun) as (Hnext & Hcount & _ & Hmissing).
  split; [rewrite Hcount, Hnext; reflexivity|]. apply Hmissing. rewrite Hnext. cbn. lia.
Defined.

(** X15.  In a graph built by calls [task_commands(tid)] is the list of the
    compute and master-access commands created for task [tid], in the order
    of their creation, and [task_command_count(tid)] their number, as long
    as there is one; for a task without such a command both throw
    [std::out_of_range]. *)
Theorem task_commands_in_creation_order (ops : list operation) (g : command_graph)
    (tid : task_id) :
  run ops empty_graph = Returns g ->
  (commands_of_task g tid <> [] ->
   task_commands tid g = Returns (commands_of_task g tid) /\
   task_command_count tid g = Returns (N.of_nat (length (commands_of_task g tid)))) /\
  (commands_of_task g tid = [] ->
   task_commands tid g = Throws (Out_of_range "by_task.at(tid)") /\
   task_command_count tid g = Throws (Out_of_range "by_task.at(tid)")).
Proof.
  intros Hrun.
  destruct (run_indexed ops _ _ empty_graph_indexed Hrun) as (_ & _ & _ & Htasks & Hfull & _).
  specialize (Htasks tid). specialize (Hfull tid).
  unfold task_commands, task_command_count.
  destruct (by_task g !! tid) as [l|]; cbn [default from_option id] in Htasks; split.
  - intros _. rewrite <- Htasks. auto.
  - intros Hnone. rewrite Hnone in Htasks. exfalso. apply (Hfull l); [reflexivity | exact Htasks].
  - intros Hsome. rewrite <- Htasks in Hsome. contradiction.
  - auto.
Qed.

Lemma task_commands_in_creation_order_witness :
  exists g,
    run [op_create compute_command 1 4; op_create push_command 1 4;
         op_create compute_command 2 4] empty_graph = Returns g /\
    task_commands 4 g = Returns [0; 2] /\
    task_command_count 5 g = Throws (Out_of_range "by_task.at(tid)").
Proof.
  destruct (run [op_create compute_command 1 4; op_create push_command 1 4;
                 op_create compute_command 2 4] empty_graph) as [g| |] eqn:Hrun;
    [|vm_compute in Hrun; discriminate..].
  exists g. split; [reflexivity|].
  pose proof (task_commands_in_creation_order _ g 4 Hrun) as [Hsome _].
  pose proof (task_commands_in_creation_order _ g 5 Hrun) as [_ Hnone].
  vm_compute in Hrun. injection Hrun as <-. split.
  - apply Hsome. vm_compute. discriminate.
  - apply Hnone. vm_compute. reflexivity.
Defined.

(** X16.  [max_pseudo_critical_path_length] never decreases, whatever is
    called on the graph; and in a graph built by calls no command has a
    pseudo critical path longer than it. *)
Theorem longest_path_is_monotone (before after : list operation) (g g' : command_graph) :
  run before empty_graph = Returns g -> run after g = Returns g' ->
  get_max_pseudo_critical_path_length g <= get_max_pseudo_critical_path_length g' /\
  forall cid cmd,
    get cid g' = Returns cmd ->
    get_pseudo_critical_path_length cmd <= get_max_pseudo_critical_path_length g'.
Proof.
  intros Hbefore Hafter. split; [apply (run_longest after), Hafter|].
  pose proof (run_indexed before _ _ empty_graph_indexed Hbefore) as Hg.
  destruct (run_indexed after _ _ Hg Hafter) as (_ & _ & _ & _ & _ & Hlong).
  intros cid cmd. unfold get. destruct (commands g' !! cid) as [x|] eqn:Hx; [|discriminate].
  intros [= <-]. apply (Hlong cid x Hx).
Qed.

Lemma longest_path_is_monotone_witness :
  exists g g',
    run [op_create compute_command 1 0; op_create push_command 1 0] empty_graph = Returns g /\
    run [op_add_dependency 1 0 false; op_remove_dependency 1 0] g = Returns g' /\
    get_max_pseudo_critical_path_length g <= get_max_pseudo_critical_path_length g'.
Proof.
  destruct (run [op_create compute_command 1 0; op_create push_command 1 0] empty_graph)
    as [g| |] eqn:Hbefore; [|vm_compute in Hbefore; discriminate..].
  destruct (run [op_add_dependency 1 0 false; op_remove_dependency 1 0] g)
    as [g'| |] eqn:Hafter.
  - exists g, g'. split; [reflexivity|]. split; [exact Hafter|].
    apply (longest_path_is_monotone _ _ g g' Hbefore Hafter).
  - vm_compute in Hbefore. injection Hbefore as <-. vm_compute in Hafter. discriminate.
  - vm_compute in Hbefore. injection Hbefore as <-. vm_compute in Hafter. discriminate.
Defined.

(** The nodes that have an execution front. *)
Lemma create_front_keys T nid tid g :
  indexed g ->
  (forall n, is_Some (execution_fronts g !! n) <-> has_counted_command g n) ->
  forall n, is_Some (execution_fronts (snd (create T nid tid g)) !! n) <->
            has_counted_command (snd (create T nid tid g)) n.
Proof.
  intros (Hkeys & _) Hfronts n.
  assert (commands g !! next_cmd_id g = None) as Hunused.
  { destruct (commands g !! next_cmd_id g) eqn:Hc; [|reflexivity].
    assert (next_cmd_id g < next_cmd_id g) by (apply Hkeys; eauto). lia. }
  unfold create, has_counted_command. rewrite Hunused. cbn [snd execution_fronts commands].
  rewrite lookup_insert_eq. cbn [default from_option id get_nid].
  split.
  - intros Hkey.
    destruct (decide (T <> nop_command /\ nid = n)) as [[HT <-]|Hold].
    + eexists _, _. split; [apply lookup_insert_eq|]. cbn. auto.
    + assert (is_Some (execution_fronts g !! n)) as Hbefore.
      { case_bool_decide as HT; [exact Hkey|].
        rewrite lookup_insert_ne in Hkey; [exact Hkey|]. intros <-. apply Hold. auto. }
      apply Hfronts in Hbefore as (c & cmd & Hc & Hrest). exists c, cmd.
      split; [|exact Hrest]. rewrite lookup_insert_ne; [exact Hc|].
      intros <-. rewrite Hunused in Hc. discriminate.
  - intros (c & cmd & Hc & Hnid & Hcounted).
    destruct (decide (next_cmd_id g = c)) as [<-|Hne].
    + rewrite lookup_insert_eq in Hc. injection Hc as <-. cbn in Hnid, Hcounted.
      destruct Hcounted as [HT|Hdeps]; [|contradiction]. subst n.
      rewrite bool_decide_eq_false_2 by exact HT. rewrite lookup_insert_eq. eauto.
    + rewrite lookup_insert_ne in Hc by exact Hne.
      assert (is_Some (execution_fronts g !! n)) as Hbefore
        by (apply Hfronts; exists c, cmd; auto).
      case_bool_decide; [exact Hbefore|].
      destruct (decide (nid = n)) as [<-|Hn]; [rewrite lookup_insert_eq; eauto|].
      rewrite lookup_insert_ne by exact Hn. exact Hbefore.
Qed.

Lemma add_dependency_front_keys er ee anti g g' :
  add_dependency er ee anti g = Returns g' ->
  (forall n, is_Some (execution_fronts g !! n) <-> has_counted_command g n) ->
  forall n, is_Some (execution_fronts g' !! n) <-> has_counted_command g' n.
Proof.
  intros Hadd Hfronts n.
  destruct (add_dependency_returns _ _ _ _ _ Hadd) as (a & b & Ha & Hb & _ & _ & ->).
  unfold has_counted_command. cbn [execution_fronts commands]. split.
  - intros Hkey. destruct (decide (get_nid a = n)) as [<-|Hn].
    + eexists _, _. split; [apply lookup_insert_eq|]. cbn. split; [reflexivity|].
      right. destruct (get_dependencies a); discriminate.
    + rewrite lookup_insert_ne in Hkey by exact Hn.
      apply Hfronts in Hkey as (c & cmd & Hc & Hnid & Hcounted).
      assert (c <> er) as Hne by (intros ->; congruence).
      exists c, cmd. rewrite lookup_insert_ne by auto. auto.
  - intros (c & cmd & Hc & Hnid & Hcounted).
    destruct (decide (er = c)) as [<-|Hne].
    + rewrite lookup_insert_eq in Hc. injection Hc as <-. cbn in Hnid. subst n.
      rewrite lookup_insert_eq. eauto.
    + rewrite lookup_insert_ne in Hc by exact Hne.
      assert (is_Some (execution_fronts g !! n)) as Hbefore
        by (apply Hfronts; exists c, cmd; auto).
      destruct (decide (get_nid a = n)) as [<-|Hn]; [rewrite lookup_insert_eq; eauto|].
      rewrite lookup_insert_ne by exact Hn. exact Hbefore.
Qed.

(** X17.  In a graph built by [create] and [add_dependency],
    [get_execution_front(nid)] returns for exactly the nodes that have a
    command that is not a [nop] or has a dependency, and it returns
    [execution_fronts[nid]]; for every other node, one without commands or
    with none but free-standing [nop] commands, it throws
    [std::out_of_range]. *)
Theorem execution_front_of_known_nodes (ops : list operation) (g : command_graph)
    (nid : node_id) :
  Forall (fun o => is_remove o = false) ops ->
  run ops empty_graph = Returns g ->
  (has_counted_command g nid ->
   get_execution_front nid g = Returns (execution_front g nid)) /\
  (~ has_counted_command g nid ->
   get_execution_front nid g = Throws (Out_of_range "execution_fronts.at(nid)")).
Proof.
  intros Hops Hrun.
  assert (indexed g /\
          forall n, is_Some (execution_fronts g !! n) <-> has_counted_command g n)
    as [_ Hfronts].
  { revert Hrun. unfold run.
    apply (for_each_invariant apply (fun o => is_remove o = false)
             (fun g => indexed g /\
                       forall n, is_Some (execution_fronts g !! n) <->
                                 has_counted_command g n)); [|exact Hops|].
    - intros [T n tid|er ee anti|er ee] s s' Hkind [Hs Hkeys] Hstep;
        [| |discriminate Hkind].
      + cbn [apply] in Hstep. injection Hstep as <-.
        split; [apply create_indexed, Hs | apply create_front_keys; assumption].
      + split; [eapply apply_indexed; eassumption|].
        eapply add_dependency_front_keys; eassumption.
    - split; [apply empty_graph_indexed|]. intros n. cbn. rewrite lookup_empty.
      split; [intros [x Hx]; discriminate|].
      intros (c & cmd & Hc & _). cbn in Hc. rewrite lookup_empty in Hc. discriminate. }
  unfold get_execution_front, execution_front. specialize (Hfronts nid).
  destruct (execution_fronts g !! nid) as [front|]; split.
  - reflexivity.
  - intros Hnone. exfalso. apply Hnone, Hfronts. eauto.
  - intros Hsome. apply Hfronts in Hsome as [x Hx]. discriminate.
  - reflexivity.
Qed.

Lemma execution_front_of_known_nodes_witness :
  exists g,
    run [op_create compute_command 1 0; op_create nop_command 2 0] empty_graph = Returns g /\
    get_execution_front 1 g = Returns {[ 0 ]} /\
    get_execution_front 2 g = Throws (Out_of_range "execution_fronts.at(nid)").
Proof.
  destruct (run [op_create compute_command 1 0; op_create nop_command 2 0] empty_graph)
    as [g| |] eqn:Hrun; [|vm_compute in Hrun; discriminate..].
  exists g. split; [reflexivity|].
  assert (Forall (fun o => is_remove o = false)
            [op_create compute_command 1 0; op_create nop_command 2 0]) as Hops
    by (repeat constructor).
  destruct (execution_front_of_known_nodes _ g 1 Hops Hrun) as [Hknown _].
  destruct (execution_front_of_known_nodes _ g 2 Hops Hrun) as [_ Hunknown].
  cbn [run for_each apply bind] in Hrun. injection Hrun as <-. split.
  - rewrite Hknown; [reflexivity|]. eexists 0, _. split; [reflexivity|]. cbn.
    split; [reflexivity|]. left. discriminate.
  - apply Hunknown. intros (c & cmd & Hc & Hnid & Hcounted).
    assert (map_Exists (fun _ x => get_nid x = 2 /\
                                   (get_kind x <> nop_command \/ get_dependencies x <> []))
              (commands
                 (snd (create nop_command 2 0 (snd (create compute_command 1 0 empty_graph))))))
      as Hexists by (exists c, cmd; auto).
    revert Hexists. refine (proj1 (bool_decide_eq_false _) _). vm_compute. reflexivity.
Defined.

End GraphQueryProofs.

(** ** The filter iterator *)

Module IteratorProofs.
Import Iterators.

Section FilterIterator.
Context {A : Type}.
Variable container : list A.
Variable fn : A -> bool.

Abbreviation advance := (advance container fn).
Abbreviation traverse := (traverse container fn).

Lemma filter_skipped (skipped rest : list A) :
  Forall (fun a => fn a = false) skipped ->
  List.filter fn (skipped ++ rest) = List.filter fn rest.
Proof using Type.
  induction 1 as [|a skipped Ha _ IH]; [reflexivity|].
  cbn [app List.filter]. rewrite Ha. exact IH.
Qed.

(** [advance] stops at the first element from its position on that passes
    the filter, or at the end. *)
Lemma advance_stops : forall (suf pre : list A) (fuel : nat),
  container = pre ++ suf -> length suf < fuel ->
  exists skipped rest,
    suf = skipped ++ rest /\
    Forall (fun a => fn a = false) skipped /\
    match rest with
    | [] => True
    | a :: _ => fn a = true
    end /\
    advance fuel (mk_filter_iterator (length pre) (length container))
    = Returns (mk_filter_iterator (length pre + length skipped) (length container)).
Proof using Type.
  induction suf as [|a suf IH]; intros pre fuel Hcontainer Hfuel;
    (destruct fuel as [|fuel]; [cbn in Hfuel; lia|]); cbn [Iterators.advance it end_].
  - exists [], []. rewrite Hcontainer, (app_nil_r pre), Nat.eqb_refl, Nat.add_0_r. cbn. auto.
  - assert (length container = length pre + S (length suf)) as Hlen
      by (rewrite Hcontainer, length_app; reflexivity).
    destruct (Nat.eqb_spec (length pre) (length container)) as [Heq|_]; [lia|].
    assert (container !! length pre = Some a) as Hhere.
    { rewrite Hcontainer, lookup_app_r by lia. rewrite Nat.sub_diag. reflexivity. }
    cbn [negb]. unfold deref. cbn [it]. rewrite Hhere. cbn [bind].
    destruct (fn a) eqn:Ha; cbn [negb].
    + exists [], (a :: suf). rewrite Nat.add_0_r. cbn. auto.
    + destruct (IH (pre ++ [a]) fuel) as (skipped & rest & Hsuf & Hskipped & Hrest & Hrun).
      * rewrite <- app_assoc. exact Hcontainer.
      * cbn in Hfuel. lia.
      * exists (a :: skipped), rest. split; [cbn; congruence|].
        split; [constructor; assumption|]. split; [exact Hrest|].
        rewrite length_app in Hrun. cbn [length] in Hrun |- *.
        replace (S (length pre)) with (length pre + 1) by lia. rewrite Hrun.
        do 2 f_equal. lia.
Qed.

(** From an element that passes the filter, or the end, the walk visits
    what passes the filter in the rest of the sequence. *)
Lemma traverse_visits (n : nat) : forall (suf pre visited : list A) (fuel : nat),
  length suf <= n -> container = pre ++ suf -> length suf < fuel ->
  match suf with
  | [] => True
  | a :: _ => fn a = true
  end ->
  traverse fuel (mk_filter_iterator (length pre) (length container))
    (mk_filter_iterator (length container) (length container)) visited
  = Returns (visited ++ List.filter fn suf).
Proof using Type.
  induction n as [|n IH]; intros suf pre visited fuel Hn Hcontainer Hfuel Hhead;
    (destruct fuel as [|fuel]; [lia|]); cbn [Iterators.traverse];
    unfold not_equal; cbn [it].
  - destruct suf; [|cbn in Hn; lia].
    rewrite Hcontainer, (app_nil_r pre), Nat.eqb_refl. cbn. rewrite app_nil_r. reflexivity.
  - destruct suf as [|a suf].
    + rewrite Hcontainer, (app_nil_r pre), Nat.eqb_refl. cbn. rewrite app_nil_r. reflexivity.
    + assert (length container = length pre + S (length suf)) as Hlen
        by (rewrite Hcontainer, length_app; reflexivity).
      destruct (Nat.eqb_spec (length pre) (length container)) as [Heq|_]; [lia|].
      assert (container !! length pre = Some a) as Hhere.
      { rewrite Hcontainer, lookup_app_r by lia. rewrite Nat.sub_diag. reflexivity. }
      cbn [negb]. unfold deref. cbn [it]. rewrite Hhere. cbn [bind].
      unfold increment. cbn [it end_].
      destruct (Nat.eqb_spec (length pre) (length container)) as [Heq|_]; [lia|].
      cbn [negb].
      destruct (advance_stops suf (pre ++ [a]) (S fuel))
        as (skipped & rest & Hsuf & Hskipped & Hrest & Hrun).
      * rewrite <- app_assoc. exact Hcontainer.
      * cbn in Hfuel. lia.
      * rewrite length_app in Hrun. cbn [length] in Hrun.
        replace (S (length pre)) with (length pre + 1) by lia. rewrite Hrun. cbn [bind].
        replace (length pre + 1 + length skipped) with (length (pre ++ a :: skipped))
          by (rewrite length_app; cbn [length]; lia).
        assert (length suf = length skipped + length rest) as Hparts
          by (rewrite Hsuf, length_app; reflexivity).
        cbn [length] in Hn, Hfuel.
        rewrite (IH rest (pre ++ a :: skipped) (visited ++ [a]) fuel); try lia; try assumption.
        -- cbn [List.filter]. rewrite Hhead, Hsuf, filter_skipped by exact Hskipped.
           rewrite <- app_assoc. reflexivity.
        -- rewrite <- app_assoc. cbn [app]. rewrite Hcontainer, Hsuf. reflexivity.
Qed.

(** X18.  A range of filter iterators over a sequence, walked from its
    begin to its end, visits exactly the elements that pass the filter, each
    once and in the order of the sequence; the walk and every [advance] in
    it end. *)
Theorem filtered_range_is_filter (fuel : nat) :
  length container < fuel ->
  filtered_range container fn fuel = Returns (List.filter fn container).
Proof using Type.
  intros Hfuel. unfold filtered_range, make_filter_iterator.
  destruct (advance_stops container [] fuel eq_refl Hfuel)
    as (skipped & rest & Hparts & Hskipped & Hrest & Hfirst).
  cbn [length Nat.add] in Hfirst. rewrite Hfirst. cbn [bind].
  destruct (advance_stops [] container fuel) as (none & rest' & Hnone & _ & _ & Hlast).
  { rewrite app_nil_r. reflexivity. }
  { cbn. lia. }
  symmetry in Hnone. apply app_eq_nil in Hnone as [-> _]. rewrite Nat.add_0_r in Hlast.
  rewrite Hlast. cbn [bind].
  replace (length skipped) with (length ([] ++ skipped)) by reflexivity.
  rewrite (traverse_visits (length rest) rest ([] ++ skipped) [] fuel).
  - cbn [app]. rewrite Hparts, filter_skipped by exact Hskipped. reflexivity.
  - lia.
  - exact Hparts.
  - rewrite Hparts, length_app in Hfuel. lia.
  - exact Hrest.
Qed.

End FilterIterator.

Lemma filtered_range_is_filter_witness :
  filtered_range [3; 8; 5; 10; 12; 1] (fun x => Nat.even x) 7 = Returns [8; 10; 12].
Proof.
  apply (filtered_range_is_filter [3; 8; 5; 10; 12; 1] (fun x => Nat.even x) 7).
  cbn. lia.
Defined.

End IteratorProofs.

(** ** Pushes that do not match, and pushes awaited twice *)

Module TransferEdgeProofs.
Import Command Transfer MachineFacts TransferProofs.

(** A poll during which no receive finishes changes nothing. *)
Lemma update_nothing_finished mpi_test st :
  (forall t', t' ∈ incoming_transfers st -> mpi_test (request t') = false) ->
  update_incoming_transfers mpi_test st = Returns st.
Proof.
  intros Hwait. unfold update_incoming_transfers.
  rewrite update_loop_waiting by exact Hwait. cbn [bind fst snd]. destruct st. reflexivity.
Qed.

Section Mismatch.
Variables (pkg : command_pkg) (d : await_push_data) (st : node_state).
Variables (t : transfer_in) (before after : list transfer_in).
Variables (mpi_test : Z -> bool) (storage : buffer_storage).

(** The package awaits the push that the transfer comes from, but for
    another buffer than the one in the header of the transfer. *)
Hypothesis Hcmd : cmd pkg = AWAIT_PUSH.
Hypothesis Hdata : data pkg = data_await_push d.
Hypothesis Hblank : push_blackboard st !! await_source_cid d = None.
Hypothesis Hincoming : incoming_transfers st = before ++ t :: after.
Hypothesis Hpush : header_push_cid (header t) = await_source_cid d.
Hypothesis Hmismatch : header_bid (header t) <> await_bid d.
Hypothesis Hfinished : mpi_test (request t) = true.
Hypothesis Hwaiting : forall t', t' ∈ before ++ after -> mpi_test (request t') = false.
Hypothesis Hbuffer : buffer_ptrs st !! header_bid (header t) = Some (Some storage).

(** X19.  Whether a push for another buffer than the awaited one is
    noticed depends on the order of events.  When the data arrives first,
    [await_push] fails its assertion on the buffer id.  When [await_push]
    comes first, the arrival is not checked against it: the data is written
    to the buffer named in its header, the handle of the [await_push] is
    marked complete, and the awaited buffer gets nothing. *)
Theorem mismatch_noticed_only_after_arrival :
  (do st' <- update_incoming_transfers mpi_test st;
   await_push pkg st')
  = Throws (Assertion_failed "t_handle->transfer->header.bid == data.bid") /\
  exists handle st',
    (do r <- await_push pkg st;
     do st' <- update_incoming_transfers mpi_test (snd r);
     Returns (fst r, st')) = Returns (handle, st') /\
    is_complete st' handle = true /\
    storage_of st' (header_bid (header t)) = storage ++ [data_of t] /\
    storage_of st' (await_bid d) = storage_of st (await_bid d) /\
    push_blackboard st' !! await_source_cid d = None.
Proof using All.
  split.
  - rewrite (update_one_finished mpi_test before t after st Hfinished Hwaiting Hincoming).
    unfold receive_finished. rewrite Hpush, Hblank. cbn [bind].
    unfold await_push. rewrite Hcmd, Hdata.
    cbn [assert bind push_blackboard handles buffer_ptrs incoming_transfers].
    rewrite bool_decide_eq_true_2 by reflexivity. cbn [assert bind].
    rewrite lookup_insert_eq, lookup_app_r by lia. rewrite Nat.sub_diag.
    cbn [lookup list_lookup transfer].
    rewrite bool_decide_eq_false_2 by exact Hmismatch. reflexivity.
  - unfold await_push. rewrite Hcmd, Hdata. rewrite bool_decide_eq_true_2 by reflexivity.
    cbn [assert bind]. rewrite Hblank. cbn [bind snd fst].
    match goal with
    | |- context [update_incoming_transfers mpi_test ?s] =>
        rewrite (update_one_finished mpi_test before t after s Hfinished Hwaiting Hincoming)
    end.
    unfold receive_finished. cbn [push_blackboard handles buffer_ptrs].
    rewrite Hpush, lookup_insert_eq.
    unfold write_data_to_buffer, set_buffer_data. rewrite Hbuffer. cbn [bind].
    eexists _, _. split; [reflexivity|].
    unfold is_complete, storage_of. cbn [handles buffer_ptrs push_blackboard].
    split; [rewrite alter_last, lookup_app_r by lia; rewrite Nat.sub_diag; reflexivity|].
    split; [rewrite lookup_insert_eq; reflexivity|].
    split; [rewrite lookup_insert_ne by exact Hmismatch; reflexivity|].
    apply lookup_delete_eq.
Qed.

End Mismatch.

Section Twice.
Variables (pkg again : command_pkg) (d d' : await_push_data) (st : node_state).
Variable polls : list (Z -> bool).

Hypothesis Hcmd : cmd pkg = AWAIT_PUSH.
Hypothesis Hdata : data pkg = data_await_push d.
Hypothesis Hcmd' : cmd again = AWAIT_PUSH.
Hypothesis Hdata' : data again = data_await_push d'.
(** Both packages await the same push, of which nothing has been seen yet
    and nothing is seen in the polls between the two calls. *)
Hypothesis Hsame : await_source_cid d' = await_source_cid d.
Hypothesis Hblank : push_blackboard st !! await_source_cid d = None.
Hypothesis Hwaiting :
  forall mpi_test t', mpi_test ∈ polls -> t' ∈ incoming_transfers st ->
                      mpi_test (request t') = false.

(** X20.  A push can be awaited once only: a second [await_push] for the
    same push, before its data has arrived, finds the handle of the first on
    the blackboard, without a transfer, and fails the assertion
    [t_handle->transfer != nullptr]. *)
Theorem await_push_twice_fails :
  (do r <- await_push pkg st;
   do st' <- for_each update_incoming_transfers polls (snd r);
   await_push again st')
  = Throws (Assertion_failed "t_handle->transfer != nullptr").
Proof using All.
  unfold await_push at 1. rewrite Hcmd, Hdata. rewrite bool_decide_eq_true_2 by reflexivity.
  cbn [assert bind]. rewrite Hblank. cbn [bind snd].
  set (st1 := mk_node_state _ _ _ _).
  assert (for_each update_incoming_transfers polls st1 = Returns st1) as ->.
  { assert (forall mpi_test, mpi_test ∈ polls ->
              update_incoming_transfers mpi_test st1 = Returns st1) as Hpoll
      by (intros mpi_test Hin; apply update_nothing_finished; intros t' Ht';
          apply (Hwaiting mpi_test t' Hin Ht')).
    clear Hwaiting. induction polls as [|mpi_test rest IH]; [reflexivity|].
    cbn [for_each]. rewrite Hpoll by left. cbn [bind]. apply IH.
    intros m Hm. apply Hpoll. right. exact Hm. }
  cbn [bind]. unfold await_push. rewrite Hcmd', Hdata'.
  rewrite bool_decide_eq_true_2 by reflexivity. cbn [assert bind].
  unfold st1. cbn [push_blackboard handles]. rewrite Hsame, lookup_insert_eq.
  rewrite lookup_app_r by lia. rewrite Nat.sub_diag. reflexivity.
Qed.

End Twice.

End TransferEdgeProofs.

Module TransferEdgeExamples.
Import Command Transfer TransferEdgeProofs.

Lemma mismatch_noticed_only_after_arrival_witness :
  (do st' <- update_incoming_transfers (fun r => Z.eqb r 1)
               (mk_node_state [example_transfer] ∅ [] {[ 3%Z := Some []; 4%Z := Some [] ]});
   await_push (mk_command_pkg 0%Z 9%Z AWAIT_PUSH
                 (data_await_push (mk_await_push_data 4%Z 7%Z example_box))) st')
  = Throws (Assertion_failed "t_handle->transfer->header.bid == data.bid").
Proof.
  refine (proj1 (mismatch_noticed_only_after_arrival
                   (mk_command_pkg 0%Z 9%Z AWAIT_PUSH
                      (data_await_push (mk_await_push_data 4%Z 7%Z example_box)))
                   (mk_await_push_data 4%Z 7%Z example_box)
                   (mk_node_state [example_transfer] ∅ [] {[ 3%Z := Some []; 4%Z := Some [] ]})
                   example_transfer [] [] (fun r => Z.eqb r 1) []
                   eq_refl eq_refl _ eq_refl eq_refl _ eq_refl _ _)).
  - apply lookup_empty.
  - cbn. discriminate.
  - intros t' Hin. inversion Hin.
  - reflexivity.
Defined.

Lemma await_push_twice_fails_witness :
  (do r <- await_push example_pkg (example_node [example_other]);
   do st' <- for_each update_incoming_transfers [fun _ => false] (snd r);
   await_push example_pkg st')
  = Throws (Assertion_failed "t_handle->transfer != nullptr").
Proof.
  apply (await_push_twice_fails example_pkg example_pkg example_await example_await
           (example_node [example_other]) [fun _ => false]
           eq_refl eq_refl eq_refl eq_refl eq_refl).
  - apply lookup_empty.
  - intros mpi_test t' Hin _. apply list_elem_of_singleton in Hin. subst mpi_test. reflexivity.
Defined.

End TransferEdgeExamples.

(** ** The sending side *)

Module OutgoingProofs.
Import Command Transfer Outgoing MachineFacts.

Lemma same_handle_same_transfer (l : list transfer_out) t t' :
  NoDup (out_handle <$> l) -> t ∈ l -> t' ∈ l -> out_handle t = out_handle t' -> t = t'.
Proof.
  induction l as [|x l IH]; intros Hnodup Ht Ht' Heq; [inversion Ht|].
  cbn [fmap list_fmap] in Hnodup. apply NoDup_cons in Hnodup as [Hfresh Hnodup].
  apply elem_of_cons in Ht as [->|Ht]; apply elem_of_cons in Ht' as [->|Ht'].
  - reflexivity.
  - exfalso. apply Hfresh. rewrite Heq. apply list_elem_of_fmap. eauto.
  - exfalso. apply Hfresh. rewrite <- Heq. apply list_elem_of_fmap. eauto.
  - apply IH; assumption.
Qed.

(** One call of [update_outgoing_transfers]: the transfers whose send has
    not finished stay, in their order; a flag is set when a transfer with
    this handle has finished, and is left alone otherwise. *)
Lemma update_outgoing_loop_effect mpi_test pending : forall flags,
  fst (update_outgoing_loop mpi_test pending flags)
  = List.filter (fun t => negb (mpi_test (out_request t))) pending /\
  length (snd (update_outgoing_loop mpi_test pending flags)) = length flags /\
  forall h,
    snd (update_outgoing_loop mpi_test pending flags) !! h
    = match flags !! h with
      | Some flag =>
          Some (flag || existsb (fun t => Nat.eqb (out_handle t) h && mpi_test (out_request t))
                          pending)
      | None => None
      end.
Proof.
  induction pending as [|t pending IH]; intros flags; cbn [update_outgoing_loop List.filter existsb].
  - split; [reflexivity|]. split; [reflexivity|]. intros h. cbn [fst snd].
    destruct (flags !! h) as [flag|]; [rewrite orb_false_r|]; reflexivity.
  - destruct (mpi_test (out_request t)) eqn:Ht; cbn [negb].
    + destruct (IH (<[out_handle t := true]> flags)) as (Hrest & Hlen & Hflags).
      split; [exact Hrest|]. split; [rewrite Hlen; apply length_insert|].
      intros h. rewrite Hflags. rewrite andb_true_r.
      destruct (Nat.eqb_spec (out_handle t) h) as [<-|Hne].
      * destruct (flags !! out_handle t) as [flag|] eqn:Hflag.
        -- rewrite list_lookup_insert_eq by (eapply lookup_lt_Some; eassumption).
           cbn [orb]. rewrite orb_true_r. reflexivity.
        -- rewrite (proj2 (list_lookup_insert_None flags (out_handle t) true (out_handle t))
                      Hflag).
           reflexivity.
      * rewrite list_lookup_insert_ne by exact Hne. reflexivity.
    + destruct (IH flags) as (Hrest & Hlen & Hflags). cbn [fst snd].
      split; [rewrite Hrest; reflexivity|]. split; [exact Hlen|].
      intros h. rewrite Hflags. rewrite andb_false_r. reflexivity.
Qed.

Lemma filter_keeps_handles_apart (keep : transfer_out -> bool) (l : list transfer_out) :
  NoDup (out_handle <$> l) -> NoDup (out_handle <$> List.filter keep l).
Proof.
  induction l as [|t l IH]; intros Hnodup; [constructor|].
  cbn [fmap list_fmap] in Hnodup. apply NoDup_cons in Hnodup as [Hfresh Hnodup].
  cbn [List.filter]. destruct (keep t); [|apply IH, Hnodup].
  cbn [fmap list_fmap]. apply NoDup_cons. split; [|apply IH, Hnodup].
  intros Hin. apply Hfresh. apply list_elem_of_fmap in Hin as (t' & Heq & Hin).
  apply list_elem_of_In, List.filter_In in Hin as [Hin _].
  apply list_elem_of_fmap. exists t'. split; [exact Heq | apply list_elem_of_In, Hin].
Qed.

Lemma existsb_finished mpi_test (l : list transfer_out) h :
  existsb (fun t => Nat.eqb (out_handle t) h && mpi_test (out_request t)) l = true <->
  exists t, t ∈ l /\ out_handle t = h /\ mpi_test (out_request t) = true.
Proof.
  rewrite existsb_exists. split.
  - intros (t & Hin & Ht). apply andb_true_iff in Ht as [Hh Ht].
    apply Nat.eqb_eq in Hh. exists t. split; [apply list_elem_of_In, Hin | auto].
  - intros (t & Hin & Hh & Ht). exists t. split; [apply list_elem_of_In, Hin|].
    apply andb_true_iff. split; [apply Nat.eqb_eq, Hh | exact Ht].
Qed.

Lemma update_outgoing_keeps mpi_test st :
  handles_follow_transfers st ->
  handles_follow_transfers (update_outgoing_transfers mpi_test st).
Proof.
  intros (Hnodup & Hbound & Hflags & Hposted).
  destruct (update_outgoing_loop_effect mpi_test (outgoing_transfers st) (out_handles st))
    as (Hrest & Hlen & Hset).
  unfold handles_follow_transfers, update_outgoing_transfers, push_complete.
  cbn [outgoing_transfers out_handles posted]. rewrite Hrest, Hlen.
  split; [apply filter_keeps_handles_apart, Hnodup|].
  split; [intros t Ht; apply list_elem_of_In, List.filter_In in Ht as [Ht _];
          apply Hbound, list_elem_of_In, Ht|].
  split; [|exact Hposted].
  intros h Hh. rewrite Hset. specialize (Hflags h Hh). unfold push_complete in Hflags.
  destruct (out_handles st !! h) as [flag|] eqn:Hflag;
    [|apply lookup_ge_None in Hflag; lia].
  cbn [default from_option id] in Hflags |- *. split.
  - intros Hfalse. apply orb_false_iff in Hfalse as [-> Hnone].
    destruct (proj1 Hflags eq_refl) as (t & Hin & Hhandle).
    exists t. split; [|exact Hhandle].
    apply list_elem_of_In, List.filter_In. split; [apply list_elem_of_In, Hin|].
    destruct (mpi_test (out_request t)) eqn:Ht; [|reflexivity].
    assert (existsb (fun t => Nat.eqb (out_handle t) h && mpi_test (out_request t))
              (outgoing_transfers st) = true) as Hsome
      by (apply existsb_finished; eauto).
    congruence.
  - intros (t & Hin & Hhandle). apply list_elem_of_In, List.filter_In in Hin as [Hin Ht].
    apply list_elem_of_In in Hin. apply negb_true_iff in Ht.
    apply orb_false_iff. split; [apply Hflags; eauto|].
    destruct (existsb _ (outgoing_transfers st)) eqn:Hsome; [|reflexivity].
    apply existsb_finished in Hsome as (t' & Hin' & Hhandle' & Ht').
    assert (t' = t) as -> by (apply (same_handle_same_transfer _ _ _ Hnodup Hin' Hin); congruence).
    congruence.
Qed.

Section Push.
Variable get_data : buffer_storage -> Z * Z * Z -> Z * Z * Z -> list Z.

(** What a [push] that returns has done. *)
Lemma push_returns request ptrs pkg st h st' :
  push get_data request ptrs pkg st = Returns (h, st') ->
  exists d storage,
    cmd pkg = PUSH /\ data pkg = data_push d /\
    ptrs !! push_bid d = Some (Some storage) /\
    h = length (out_handles st) /\
    let header := mk_data_header (push_bid d) (push_subrange d) (cid pkg) in
    let bytes := get_data storage (offset (push_subrange d)) (range (push_subrange d)) in
    st' = mk_sender_state
            (outgoing_transfers st ++ [mk_transfer_out header bytes request h])
            (out_handles st ++ [false])
            (posted st ++ [mk_message (to_int (push_target d)) header bytes]).
Proof using Type.
  unfold push, get_buffer_data. case_bool_decide as Hcmd; cbn [assert bind]; [|discriminate].
  destruct (data pkg) as [| |d|]; try discriminate.
  destruct (ptrs !! push_bid d) as [[storage|]|] eqn:Hptrs; cbn [bind]; try discriminate.
  intros [= <- <-]. exists d, storage. cbv zeta.
  split; [exact Hcmd|]. split; [reflexivity|]. split; [exact Hptrs|].
  split; reflexivity.
Qed.

Lemma push_keeps request ptrs pkg st h st' :
  handles_follow_transfers st ->
  push get_data request ptrs pkg st = Returns (h, st') ->
  handles_follow_transfers st'.
Proof using Type.
  intros (Hnodup & Hbound & Hflags & Hposted) Hpush.
  apply push_returns in Hpush as (d & storage & _ & _ & _ & -> & ->). cbv zeta.
  unfold handles_follow_transfers, push_complete.
  cbn [outgoing_transfers out_handles posted].
  rewrite !length_app. cbn [length]. split; [|split; [|split; [|lia]]].
  - rewrite fmap_app. cbn [fmap list_fmap out_handle]. apply NoDup_app.
    split; [exact Hnodup|]. split; [|apply NoDup_singleton].
    intros h Hin Hnew. apply list_elem_of_singleton in Hnew. subst h.
    apply list_elem_of_fmap in Hin as (t & Heq & Hin). apply Hbound in Hin. lia.
  - intros t Ht. apply elem_of_app in Ht as [Ht|Ht].
    + apply Hbound in Ht. lia.
    + apply list_elem_of_singleton in Ht. subst t. cbn [out_handle]. lia.
  - intros h Hh. destruct (decide (h = length (out_handles st))) as [->|Hne].
    + rewrite lookup_app_r by lia. rewrite Nat.sub_diag. cbn. split; [|reflexivity].
      intros _. eexists. split; [apply elem_of_app; right; left | reflexivity].
    + rewrite lookup_app_l by lia. rewrite (Hflags h ltac:(lia)). split.
      * intros (t & Hin & Hhandle). exists t. split; [apply elem_of_app; left; exact Hin|].
        exact Hhandle.
      * intros (t & Hin & Hhandle). exists t. split; [|exact Hhandle].
        apply elem_of_app in Hin as [Hin|Hin]; [exact Hin|].
        apply list_elem_of_singleton in Hin. subst t. cbn [out_handle] in Hhandle. lia.
Qed.

Lemma sender_run_keeps calls st :
  sender_run get_data calls = Returns st -> handles_follow_transfers st.
Proof using Type.
  unfold sender_run.
  apply (for_each_invariant (sender_step get_data) (fun _ => True) handles_follow_transfers).
  - intros [request ptrs pkg|mpi_test] s s' _ Hs; cbn [sender_step].
    + destruct (push get_data request ptrs pkg s) as [[h s1]| |] eqn:Hpush; cbn [bind];
        try discriminate.
      intros [= <-]. eapply push_keeps; eassumption.
    + intros [= <-]. apply update_outgoing_keeps, Hs.
  - apply Forall_forall. auto.
  - unfold handles_follow_transfers, push_complete. cbn.
    split; [constructor|]. split; [intros t Ht; inversion Ht|]. split; [intros h Hh; lia|].
    reflexivity.
Qed.

(** X21.  On the sending side, after any sequence of [push] and
    [update_outgoing_transfers] calls, a handle is incomplete exactly as long
    as its transfer is in [outgoing_transfers]; no two transfers there share
    a handle; and as many sends have been started as handles made. *)
Theorem push_handles_follow_transfers (calls : list sender_call) (st : sender_state) :
  sender_run get_data calls = Returns st ->
  NoDup (out_handle <$> outgoing_transfers st) /\
  (forall h, (h < length (out_handles st))%nat ->
     push_complete st h = false <->
     exists t, t ∈ outgoing_transfers st /\ out_handle t = h) /\
  length (posted st) = length (out_handles st).
Proof using Type.
  intros Hrun. destruct (sender_run_keeps calls st Hrun) as (Hnodup & _ & Hflags & Hposted).
  auto.
Qed.

(** X22.  A [push] that returns has read the bytes of the requested box
    from the buffer and started one send of them to the target, under a
    header with the buffer, the box and the id of the push command; its
    handle is new and incomplete, and it is complete after the first
    [update_outgoing_transfers] that sees the send finished, not before.
    Handles that were complete stay complete. *)
Theorem push_completes_when_sent (calls : list sender_call) (st : sender_state)
    (request : Z) (ptrs : gmap Z (option buffer_storage)) (pkg : command_pkg)
    (h : nat) (st' : sender_state) :
  sender_run get_data calls = Returns st ->
  push get_data request ptrs pkg st = Returns (h, st') ->
  (exists d storage,
     data pkg = data_push d /\ ptrs !! push_bid d = Some (Some storage) /\
     posted st'
     = posted st ++
       [mk_message (to_int (push_target d))
          (mk_data_header (push_bid d) (push_subrange d) (cid pkg))
          (get_data storage (offset (push_subrange d)) (range (push_subrange d)))]) /\
  h = length (out_handles st) /\
  push_complete st' h = false /\
  (forall mpi_test,
     push_complete (update_outgoing_transfers mpi_test st') h = mpi_test request) /\
  (forall mpi_test h',
     push_complete st h' = true ->
     push_complete st' h' = true /\
     push_complete (update_outgoing_transfers mpi_test st') h' = true).
Proof using Type.
  intros Hrun Hpush. destruct (sender_run_keeps calls st Hrun) as (_ & Hbound & _ & _).
  apply push_returns in Hpush as (d & storage & _ & Hdata & Hptrs & -> & ->). cbv zeta.
  split; [exists d, storage; auto|]. split; [reflexivity|].
  unfold push_complete, update_outgoing_transfers. cbn [out_handles outgoing_transfers].
  split; [rewrite lookup_app_r by lia; rewrite Nat.sub_diag; reflexivity|].
  split.
  - intros mpi_test.
    destruct (update_outgoing_loop_effect mpi_test
                (outgoing_transfers st ++
                 [mk_transfer_out (mk_data_header (push_bid d) (push_subrange d) (cid pkg))
                    (get_data storage (offset (push_subrange d)) (range (push_subrange d)))
                    request (length (out_handles st))])
                (out_handles st ++ [false])) as (_ & _ & ->).
    rewrite lookup_app_r by lia. rewrite Nat.sub_diag. cbn [lookup list_lookup orb default from_option id].
    rewrite existsb_app. cbn [existsb out_handle out_request]. rewrite Nat.eqb_refl.
    cbn [andb]. rewrite orb_false_r.
    assert (existsb (fun t => Nat.eqb (out_handle t) (length (out_handles st))
                              && mpi_test (out_request t)) (outgoing_transfers st) = false)
      as ->; [|reflexivity].
    destruct (existsb _ (outgoing_transfers st)) eqn:Hsome; [|reflexivity].
    apply existsb_finished in Hsome as (t & Hin & Hhandle & _). apply Hbound in Hin. lia.
  - intros mpi_test h' Hdone.
    assert (out_handles st !! h' = Some true) as Hflag
      by (destruct (out_handles st !! h') as [[|]|]; cbn in Hdone; congruence).
    pose proof (lookup_lt_Some _ _ _ Hflag) as Hlt.
    split; [rewrite lookup_app_l by lia; rewrite Hflag; reflexivity|].
    match goal with
    | |- context [update_outgoing_loop mpi_test ?pending ?flags] =>
        destruct (update_outgoing_loop_effect mpi_test pending flags) as (_ & _ & ->)
    end.
    rewrite lookup_app_l by lia. rewrite Hflag. reflexivity.
Qed.

End Push.

Lemma push_handles_follow_transfers_witness :
  exists st,
    sender_run (fun storage _ _ => [1; 2; 3; 4]%Z)
      [call_push 11%Z {[ 3%Z := Some [] ]}
         (mk_command_pkg 0%Z 7%Z PUSH (data_push (mk_push_data 3%Z 1%Z example_box)));
       call_push 12%Z {[ 3%Z := Some [] ]}
         (mk_command_pkg 0%Z 8%Z PUSH (data_push (mk_push_data 3%Z 2%Z example_box)));
       call_update_outgoing (fun r => Z.eqb r 11)] = Returns st /\
    push_complete st 0 = true /\ push_complete st 1 = false /\
    length (posted st) = 2%nat.
Proof.
  match goal with
  | |- exists st, ?run = Returns st /\ _ => destruct run as [st| |] eqn:Hrun
  end; [|vm_compute in Hrun; discriminate..].
  exists st. split; [reflexivity|].
  destruct (push_handles_follow_transfers _ _ st Hrun) as (_ & _ & Hposted).
  rewrite Hposted. vm_compute in Hrun. injection Hrun as <-. auto.
Defined.

Lemma push_completes_when_sent_witness :
  exists h st',
    push (fun storage _ _ => [1; 2; 3; 4]%Z) 11%Z {[ 3%Z := Some [] ]}
      (mk_command_pkg 0%Z 7%Z PUSH (data_push (mk_push_data 3%Z 1%Z example_box)))
      (mk_sender_state [] [] []) = Returns (h, st') /\
    push_complete st' h = false /\
    push_complete (update_outgoing_transfers (fun r => Z.eqb r 11) st') h = true.
Proof.
  match goal with
  | |- exists h st', ?run = Returns (h, st') /\ _ => destruct run as [[h st']| |] eqn:Hpush
  end; [|vm_compute in Hpush; discriminate..].
  exists h, st'. split; [reflexivity|].
  destruct (push_completes_when_sent (fun storage _ _ => [1; 2; 3; 4]%Z) [] _ _ _ _ _ _
              eq_refl Hpush) as (_ & _ & Hfresh & Hsent & _).
  split; [exact Hfresh|]. rewrite Hsent. reflexivity.
Defined.

End OutgoingProofs.

(** ** From [push] on one node to the buffer of another *)

Module RoundTripProofs.
Import Command Transfer Outgoing MachineFacts TransferProofs.

Section RoundTrip.
Variable get_data : buffer_storage -> Z * Z * Z -> Z * Z * Z -> list Z.

(** The source node: a [push] command for a box of a buffer it holds. *)
Variables (push_pkg : command_pkg) (pushed : push_data).
Variables (source_ptrs : gmap Z (option buffer_storage)) (source_storage : buffer_storage).
Variables (sender : sender_state) (send_request : Z).
Hypothesis Hpush_cmd : cmd push_pkg = PUSH.
Hypothesis Hpush_data : data push_pkg = data_push pushed.
Hypothesis Hsource : source_ptrs !! push_bid pushed = Some (Some source_storage).

(** The target node: the [await_push] command that the generator pairs with
    the push, for the same buffer and box and with the id of the push as its
    source; nothing of the push has been seen there yet. *)
Variables (await_pkg : command_pkg) (awaited : await_push_data) (st : node_state).
Variables (receive_request : Z) (mpi_test : Z -> bool) (storage : buffer_storage).
Variable target_sender : sender_state.
Hypothesis Hawait_cmd : cmd await_pkg = AWAIT_PUSH.
Hypothesis Hawait_data : data await_pkg = data_await_push awaited.
Hypothesis Hpaired :
  awaited = mk_await_push_data (push_bid pushed) (cid push_pkg) (push_subrange pushed).
Hypothesis Hblank : push_blackboard st !! cid push_pkg = None.
Hypothesis Hbuffer : buffer_ptrs st !! push_bid pushed = Some (Some storage).
(** The receive of the message finishes, the others on the node do not. *)
Hypothesis Hfinished : mpi_test receive_request = true.
Hypothesis Hwaiting :
  forall t', t' ∈ incoming_transfers st -> mpi_test (request t') = false.

(** X23.  The bytes of a push get to the buffer of the target: [push] on
    the source node sends one message; with a [poll] on the target that
    takes the message in and sees its receive finished, and the matching
    [await_push] before or after that [poll], [set_data] of the same buffer
    on the target is handed the bytes that [get_data] gave on the source,
    for the same box, once; and the handle of the [await_push] is
    complete. *)
Theorem pushed_bytes_reach_the_target :
  let box := push_subrange pushed in
  let bytes := get_data source_storage (offset box) (range box) in
  exists h sender' m,
    push get_data send_request source_ptrs push_pkg sender = Returns (h, sender') /\
    posted sender' = posted sender ++ [m] /\
    msg_target m = to_int (push_target pushed) /\
    (exists handle st',
       (do r <- await_push await_pkg st;
        do s <- poll (Some (m, receive_request)) mpi_test (snd r, target_sender);
        Returns (fst r, fst s)) = Returns (handle, st') /\
       storage_of st' (push_bid pushed)
       = storage ++ [mk_raw_data_handle bytes (range box) (offset box)] /\
       is_complete st' handle = true) /\
    (exists handle st',
       (do s <- poll (Some (m, receive_request)) mpi_test (st, target_sender);
        await_push await_pkg (fst s)) = Returns (handle, st') /\
       storage_of st' (push_bid pushed)
       = storage ++ [mk_raw_data_handle bytes (range box) (offset box)] /\
       is_complete st' handle = true).
Proof using All.
  cbv zeta. unfold push, get_buffer_data.
  rewrite Hpush_cmd, Hpush_data, Hsource. rewrite bool_decide_eq_true_2 by reflexivity.
  cbn [assert bind]. eexists _, _, _. split; [reflexivity|].
  cbn [posted msg_target]. split; [reflexivity|]. split; [reflexivity|].
  unfold poll, poll_transfers. cbn [msg_header msg_payload fst snd].
  set (t := mk_transfer_in _ _ receive_request).
  assert (header t
          = mk_data_header (await_bid awaited) (await_subrange awaited)
              (await_source_cid awaited)) as Hheader by (rewrite Hpaired; reflexivity).
  assert (push_blackboard st !! await_source_cid awaited = None) as Hblank'
    by (rewrite Hpaired; exact Hblank).
  assert (buffer_ptrs st !! await_bid awaited = Some (Some storage)) as Hbuffer'
    by (rewrite Hpaired; exact Hbuffer).
  assert (forall t', t' ∈ incoming_transfers st ++ [] -> mpi_test (request t') = false)
    as Hwaiting' by (intros t'; rewrite app_nil_r; apply Hwaiting).
  assert (push_bid pushed = await_bid awaited) as Hbid by (rewrite Hpaired; reflexivity).
  split.
  - rewrite (await_push_posts await_pkg awaited st Hawait_cmd Hawait_data Hblank').
    cbn [bind snd fst incoming_transfers push_blackboard handles buffer_ptrs].
    match goal with
    | |- context [update_incoming_transfers mpi_test ?s] =>
        rewrite (update_one_finished mpi_test (incoming_transfers st) t [] s Hfinished
                   Hwaiting' eq_refl)
    end.
    unfold receive_finished. rewrite Hheader.
    cbn [header_push_cid push_blackboard handles buffer_ptrs]. rewrite lookup_insert_eq.
    unfold write_data_to_buffer, set_buffer_data. rewrite Hheader. cbn [header_bid].
    rewrite Hbuffer'. cbn [bind fst]. eexists _, _. split; [reflexivity|].
    unfold storage_of, is_complete. cbn [buffer_ptrs handles].
    rewrite Hbid, lookup_insert_eq.
    split; [unfold set_data; rewrite Hpaired; reflexivity|].
    rewrite alter_last, lookup_app_r by lia. rewrite Nat.sub_diag. reflexivity.
  - set (arrived := mk_node_state (incoming_transfers st ++ [t]) _ _ _).
    rewrite (data_arrives_unawaited awaited arrived t (incoming_transfers st) [] mpi_test
               Hblank' eq_refl Hheader Hfinished Hwaiting').
    cbn [bind fst].
    rewrite (await_push_collects await_pkg awaited arrived t (incoming_transfers st) []
               storage Hawait_cmd Hawait_data Hheader Hbuffer').
    eexists _, _. split; [reflexivity|].
    unfold storage_of, is_complete. cbn [buffer_ptrs handles].
    rewrite Hbid, lookup_insert_eq. split; [reflexivity|].
    rewrite lookup_app_r by (cbn; lia). cbn [handles arrived]. rewrite Nat.sub_diag.
    reflexivity.
Qed.

End RoundTrip.

Lemma pushed_bytes_reach_the_target_witness :
  exists h sender' m,
    push (fun storage _ _ => [1; 2; 3; 4]%Z) 11%Z {[ 3%Z := Some [] ]}
      (mk_command_pkg 0%Z 7%Z PUSH (data_push (mk_push_data 3%Z 1%Z example_box)))
      (mk_sender_state [] [] []) = Returns (h, sender') /\
    posted sender' = [m] /\
    exists handle st',
      (do s <- poll (Some (m, 1%Z)) (fun r => Z.eqb r 1)
                 (example_node [], mk_sender_state [] [] []);
       await_push example_pkg (fst s)) = Returns (handle, st') /\
      storage_of st' 3%Z = [mk_raw_data_handle [1; 2; 3; 4]%Z (4, 1, 1)%Z (0, 0, 0)%Z].
Proof.
  assert (({[ 3%Z := Some [] ]} : gmap Z (option buffer_storage))
          !! push_bid (mk_push_data 3%Z 1%Z example_box) = Some (Some [])) as Hsource
    by apply lookup_singleton_eq.
  destruct (pushed_bytes_reach_the_target (fun storage _ _ => [1; 2; 3; 4]%Z)
              (mk_command_pkg 0%Z 7%Z PUSH (data_push (mk_push_data 3%Z 1%Z example_box)))
              (mk_push_data 3%Z 1%Z example_box) {[ 3%Z := Some [] ]} []
              (mk_sender_state [] [] []) 11%Z eq_refl eq_refl Hsource
              example_pkg example_await (example_node []) 1%Z (fun r => Z.eqb r 1) []
              (mk_sender_state [] [] []) eq_refl eq_refl eq_refl)
    as (h & sender' & m & Hpush & Hposted & _ & _ & handle & st' & Hrun & Hstorage & _).
  - apply lookup_empty.
  - apply lookup_singleton_eq.
  - reflexivity.
  - intros t' Hin. inversion Hin.
  - exists h, sender', m. split; [exact Hpush|]. split; [exact Hposted|].
    exists handle, st'. split; [exact Hrun | exact Hstorage].
Defined.

End RoundTripProofs.

(** ** What every node receives, and that it gets through it *)

Module StreamProofs.
Import Command Executor Streams MachineFacts ExecutorProofs.
Local Open Scope Z_scope.

(** The walk hands every vertex that is not a [NOP] to its node. *)
Lemma walk_streams visited : forall d k,
  stream (fold_left visit visited d) k = stream d k ++ commands_for k visited.
Proof.
  unfold commands_for.
  induction visited as [|v visited IH]; intros d k; cbn [fold_left List.filter map].
  - rewrite app_nil_r. reflexivity.
  - rewrite IH. unfold visit. case_bool_decide as Hnop; cbn [negb andb]; [reflexivity|].
    unfold stream. fold (pkg_of v).
    destruct (Z.eqb_spec (v_nid v) 0) as [Hzero|Hzero]; cbn [negb master_commands sent].
    + rewrite Hzero. destruct (Z.eqb_spec k 0) as [->|Hk].
      * cbn [Z.eqb map]. rewrite <- app_assoc. reflexivity.
      * destruct (Z.eqb_spec 0 k); [lia|]. reflexivity.
    + destruct (Z.eqb_spec k 0) as [->|Hk].
      * destruct (Z.eqb_spec (v_nid v) 0); [contradiction|]. reflexivity.
      * rewrite List.filter_app, map_app. cbn [List.filter fst].
        destruct (v_nid v =? k); cbn [map snd]; rewrite <- app_assoc; reflexivity.
Qed.

(** The loop over the workers: worker [k] gets the shutdown with the
    [k - i]-th next command id. *)
Lemma shutdown_ids (count : nat) : forall (i : Z) (d : dispatched),
  0 < i -> 0 <= next_cmd_id d -> next_cmd_id d + Z.of_nat count <= SIZE_MAX ->
  exists d',
    iterate send_shutdown count i d = Returns d' /\
    master_commands d' = master_commands d /\
    next_cmd_id d' = next_cmd_id d + Z.of_nat count /\
    forall k, k <> 0 ->
      stream d' k
      = stream d k ++
        if (i <=? k) && (k <? i + Z.of_nat count)
        then [shutdown_pkg (next_cmd_id d + (k - i))]
        else [].
Proof.
  induction count as [|count IH]; intros i d Hi Hnext Hmax.
  - exists d. split; [reflexivity|]. split; [reflexivity|]. split; [cbn; lia|].
    intros k Hk.
    destruct (Z.leb_spec i k), (Z.ltb_spec k (i + Z.of_nat 0)); cbn [andb];
      try (rewrite app_nil_r; reflexivity); lia.
  - cbn [iterate]. unfold send_shutdown at 1. cbn [bind].
    rewrite wrap_size_small by lia. fold (shutdown_pkg (next_cmd_id d)).
    set (d1 := mk_dispatched (sent d ++ [(i, shutdown_pkg (next_cmd_id d))])
                 (master_commands d) (next_cmd_id d + 1)).
    destruct (IH (i + 1) d1) as (d' & Hrun & Hmaster & Hnext' & Hstreams);
      [lia | cbn; lia | cbn [d1 next_cmd_id]; lia|].
    exists d'. split; [exact Hrun|]. split; [exact Hmaster|].
    split; [rewrite Hnext'; cbn [d1 next_cmd_id]; lia|].
    intros k Hk. rewrite (Hstreams k Hk). unfold stream.
    destruct (Z.eqb_spec k 0); [contradiction|]. cbn [d1 sent next_cmd_id].
    rewrite List.filter_app, map_app. cbn [List.filter fst]. rewrite <- app_assoc. f_equal.
    destruct (Z.eqb_spec i k) as [Heq|Hne].
    + subst k. cbn [map snd app].
      destruct (Z.leb_spec (i + 1) i); [lia|]. cbn [andb].
      destruct (Z.leb_spec i i), (Z.ltb_spec i (i + Z.of_nat (S count))); try lia.
      cbn [andb]. rewrite Z.sub_diag, Z.add_0_r. reflexivity.
    + cbn [map app].
      destruct (Z.leb_spec (i + 1) k), (Z.ltb_spec k (i + 1 + Z.of_nat count)),
        (Z.leb_spec i k), (Z.ltb_spec k (i + Z.of_nat (S count)));
        cbn [andb]; try reflexivity; try lia.
      do 2 f_equal. lia.
Qed.

Lemma walk_keeps_counter visited : forall d,
  next_cmd_id (fold_left visit visited d) = next_cmd_id d.
Proof.
  induction visited as [|v visited IH]; intros d; cbn [fold_left]; [reflexivity|].
  rewrite IH. unfold visit. case_bool_decide; [reflexivity|].
  destruct (negb (v_nid v =? 0)); reflexivity.
Qed.

(** What [dispatch] returns. *)
Lemma dispatch_streams (fuel : nat) (num_nodes : Z) (visited : list vertex_data) (next : Z) :
  1 <= num_nodes <= INT_MAX -> (Z.to_nat num_nodes < fuel)%nat ->
  0 <= next -> next + num_nodes <= SIZE_MAX ->
  exists d,
    dispatch fuel num_nodes visited next = Returns d /\
    next_cmd_id d = next + num_nodes /\
    forall k,
      stream d k
      = commands_for k visited ++
        if k =? 0 then [shutdown_pkg (next + num_nodes - 1)]
        else if (1 <=? k) && (k <? num_nodes) then [shutdown_pkg (next + k - 1)]
        else [].
Proof.
  intros Hn Hfuel Hnext Hmax. unfold dispatch.
  set (d0 := fold_left visit visited (mk_dispatched [] [] next)).
  assert (next_cmd_id d0 = next) as Hnext0 by apply walk_keeps_counter.
  assert (forall k, stream d0 k = commands_for k visited) as Hwalk.
  { intros k. unfold d0. rewrite walk_streams. unfold stream. cbn [master_commands sent].
    destruct (k =? 0); reflexivity. }
  rewrite (for_loop_iterate int_incr INT_MAX _ int_incr_small (Z.to_nat (num_nodes - 1)))
    by lia.
  destruct (shutdown_ids (Z.to_nat (num_nodes - 1)) 1 d0)
    as (d1 & -> & Hmaster & Hnext1 & Hstreams); [lia | lia | lia|].
  cbn [bind]. rewrite wrap_size_small by lia. fold (shutdown_pkg (next_cmd_id d1)).
  eexists. split; [reflexivity|]. cbn [next_cmd_id]. split; [lia|].
  intros k. destruct (Z.eqb_spec k 0) as [->|Hk].
  - unfold stream. cbn [Z.eqb master_commands]. rewrite Hmaster.
    change (master_commands d0) with (stream d0 0). rewrite Hwalk. do 3 f_equal. lia.
  - rewrite (stream_sent _ k Hk). cbn [sent]. rewrite <- (stream_sent d1 k Hk).
    rewrite (Hstreams k Hk), Hwalk, Hnext0. f_equal.
    destruct (Z.leb_spec 1 k), (Z.ltb_spec k (1 + Z.of_nat (Z.to_nat (num_nodes - 1)))),
      (Z.ltb_spec k num_nodes); cbn [andb]; try reflexivity; try lia.
    do 2 f_equal. lia.
Qed.

(** X24.  What the master hands out: node [k] gets the packages of the
    vertices of the walk that are for node [k] and not [NOP], in the order
    of the walk, and then, if it is one of the [num_nodes] nodes, one
    shutdown; the shutdowns take the next command ids, worker [k] the
    [k - 1]-th and the master the last; a node number outside the run gets
    its commands but no shutdown. *)
Theorem every_node_gets_its_commands (fuel : nat) (num_nodes : Z)
    (visited : list vertex_data) (next : Z) :
  1 <= num_nodes <= INT_MAX -> (Z.to_nat num_nodes < fuel)%nat ->
  0 <= next -> next + num_nodes <= SIZE_MAX ->
  exists d,
    dispatch fuel num_nodes visited next = Returns d /\
    next_cmd_id d = next + num_nodes /\
    stream d 0 = commands_for 0 visited ++ [shutdown_pkg (next + num_nodes - 1)] /\
    (forall k, 1 <= k < num_nodes ->
       stream d k = commands_for k visited ++ [shutdown_pkg (next + k - 1)]) /\
    (forall k, k < 0 \/ num_nodes <= k -> stream d k = commands_for k visited).
Proof.
  intros Hn Hfuel Hnext Hmax.
  destruct (dispatch_streams fuel num_nodes visited next Hn Hfuel Hnext Hmax)
    as (d & Hrun & Hcounter & Hstreams).
  exists d. split; [exact Hrun|]. split; [exact Hcounter|]. split; [apply (Hstreams 0)|].
  split; intros k Hk; rewrite (Hstreams k).
  - destruct (Z.eqb_spec k 0); [lia|].
    destruct (Z.leb_spec 1 k), (Z.ltb_spec k num_nodes); cbn [andb]; try lia. reflexivity.
  - destruct (Z.eqb_spec k 0); [lia|].
    destruct (Z.leb_spec 1 k), (Z.ltb_spec k num_nodes); cbn [andb]; try lia;
      apply app_nil_r.
Qed.

Lemma every_node_gets_its_commands_witness :
  exists d,
    dispatch 5 2
      [mk_vertex_data 0 0 NOP 0 data_none;
       mk_vertex_data 0 1 COMPUTE 1 (data_compute (mk_command_subrange (0, 0, 0) (8, 1, 1)))]
      2 = Returns d /\
    stream d 1
    = [mk_command_pkg 0 1 COMPUTE (data_compute (mk_command_subrange (0, 0, 0) (8, 1, 1)));
       shutdown_pkg 2] /\
    stream d 0 = [shutdown_pkg 3].
Proof.
  destruct (every_node_gets_its_commands 5 2
              [mk_vertex_data 0 0 NOP 0 data_none;
               mk_vertex_data 0 1 COMPUTE 1
                 (data_compute (mk_command_subrange (0, 0, 0) (8, 1, 1)))] 2)
    as (d & Hrun & _ & Hmaster & Hworkers & _).
  - unfold INT_MAX. lia.
  - vm_compute. lia.
  - lia.
  - unfold SIZE_MAX. lia.
  - exists d. split; [exact Hrun|]. split.
    + rewrite (Hworkers 1) by lia. reflexivity.
    + rewrite Hmaster. reflexivity.
Defined.

Section Loop.
Context {job : Type}.
Variable create_job : command_pkg -> job.

Abbreviation executor_loop := (executor_loop create_job).



End Loop.


End StreamProofs.

(** ** The requirements of the chunks of a compute task *)

Module RequirementProofs.
Import Split Generate Outcomes MachineFacts LoopFacts.
Local Open Scope Z_scope.

Section Requirements.
Context {region : Type}.
Variable merge : region -> region -> region.
Variable empty_region : region.
Variable subrange_to_grid_region : subrange range3 -> region.
Variable umap_emplace :
  buffer_id -> @mode_requirements region -> list (buffer_id * @mode_requirements region) ->
  list (buffer_id * @mode_requirements region).
Context {R : Type} `{Dimension R} `{Splittable R}.

(** A new key of a [std::unordered_map] comes with its value and leaves the
    other entries as they are, wherever it lands. *)
Hypothesis emplace_adds : forall bid v m k,
  assoc bid m = None ->
  assoc k (umap_emplace bid v m) = if k =? bid then Some v else assoc k m.

Abbreviation requirement_of := (@requirement_of region).
Abbreviation merged_over := (@merged_over region R merge empty_region subrange_to_grid_region).
Abbreviation merged_requirement :=
  (@merged_requirement region R merge empty_region subrange_to_grid_region).
Abbreviation umap_modify := (umap_modify umap_emplace).
Abbreviation require_chunk :=
  (require_chunk merge empty_region subrange_to_grid_region umap_emplace).
Abbreviation require_mapper :=
  (require_mapper merge empty_region subrange_to_grid_region umap_emplace).

Lemma umap_alter_spec f bid (m : list (buffer_id * @mode_requirements region)) :
  match umap_alter f bid m with
  | Some m' =>
      exists v, assoc bid m = Some v /\
                forall k, assoc k m' = if k =? bid then Some (f v) else assoc k m
  | None => assoc bid m = None
  end.
Proof using Type.
  induction m as [|[k0 v0] m IH]; cbn [umap_alter assoc]; [reflexivity|].
  destruct (Z.eqb_spec k0 bid) as [->|Hne].
  - exists v0. split; [reflexivity|]. intros k. cbn [assoc].
    destruct (Z.eqb_spec bid k) as [<-|Hk].
    + rewrite Z.eqb_refl. reflexivity.
    + destruct (Z.eqb_spec k bid); [congruence | reflexivity].
  - destruct (umap_alter f bid m) as [m'|]; cbn [option_map]; [|exact IH].
    destruct IH as (v & Hv & Hm'). exists v. split; [exact Hv|]. intros k. cbn [assoc].
    destruct (Z.eqb_spec k0 k) as [<-|Hk]; [|apply Hm'].
    destruct (Z.eqb_spec k0 bid); [contradiction | reflexivity].
Qed.

Lemma umap_modify_spec f bid (m : list (buffer_id * @mode_requirements region)) k :
  assoc k (umap_modify f bid m)
  = if k =? bid then Some (f (default (mk_mode_requirements None None) (assoc bid m)))
    else assoc k m.
Proof using emplace_adds.
  unfold Generate.umap_modify. pose proof (umap_alter_spec f bid m) as Halter.
  destruct (umap_alter f bid m) as [m'|].
  - destruct Halter as (v & Hv & Hm'). rewrite Hm', Hv. reflexivity.
  - rewrite emplace_adds by exact Halter. rewrite Halter. reflexivity.
Qed.

Lemma merged_over_one (rm : range_mapper R) mode chunk acc :
  merged_over [rm] mode chunk acc
  = if same_mode (get_access_mode rm) mode
    then Some (merge (default empty_region acc) (subrange_to_grid_region (mapped rm chunk)))
    else acc.
Proof using Type. reflexivity. Qed.

(** One round of the innermost loop: the requirement of chunk [i] on the
    buffer in the mode of the mapper grows, nothing else changes. *)
Lemma require_chunk_spec bid (rm : range_mapper R) chunks i reqs reqs' chunk :
  (get_access_mode rm = mode_read \/ get_access_mode rm = mode_write) ->
  chunks !! Z.to_nat i = Some chunk ->
  require_chunk bid rm chunks i reqs = Returns reqs' ->
  forall j b mode,
    requirement_of reqs' j b mode
    = if (j =? i) && (b =? bid)
      then merged_over [rm] mode chunk (requirement_of reqs j b mode)
      else requirement_of reqs j b mode.
Proof using emplace_adds.
  intros Hmode Hchunk. unfold Generate.require_chunk. rewrite Hchunk. intros [= <-] j b mode.
  fold (mapped rm chunk). unfold Outcomes.requirement_of.
  destruct (Z.eqb_spec j i) as [->|Hj]; cbn [andb].
  - rewrite lookup_insert_eq. cbn [mbind option_bind]. rewrite umap_modify_spec.
    destruct (Z.eqb_spec b bid) as [->|Hb].
    + cbn [mbind option_bind]. rewrite merged_over_one.
      assert (forall V (x : option (list (Z * V))) k,
                assoc k (default [] x) = x ≫= assoc k) as Hdefault
        by (intros V [m|] k; reflexivity).
      rewrite Hdefault.
      destruct (reqs !! i ≫= assoc bid) as [r|] eqn:Hold; cbn [default from_option id];
        unfold set_requirement, requirement_at;
        destruct Hmode as [-> | ->], mode; cbn [same_mode read_req write_req default from_option id];
        try reflexivity;
        destruct (reqs !! i) as [entries|]; cbn [mbind option_bind] in Hold |- *;
        try rewrite Hold; try discriminate; reflexivity.
    + destruct (reqs !! i) as [entries|]; reflexivity.
  - rewrite lookup_insert_ne by congruence. reflexivity.
Qed.

(** One range mapper, over all chunks. *)
Lemma require_mapper_spec (fuel : nat) chunks bid (rm : range_mapper R) reqs reqs' :
  require_mapper fuel chunks bid rm reqs = Returns reqs' ->
  ((get_access_mode rm = mode_read \/ get_access_mode rm = mode_write) /\
   get_kernel_dimensions rm = Dims) /\
  (forall j chunk b mode,
     0 <= j -> chunks !! Z.to_nat j = Some chunk ->
     requirement_of reqs' j b mode
     = if b =? bid then merged_over [rm] mode chunk (requirement_of reqs j b mode)
       else requirement_of reqs j b mode) /\
  (forall j b mode,
     j < 0 \/ Z.of_nat (length chunks) <= j ->
     requirement_of reqs' j b mode = requirement_of reqs j b mode).
Proof using emplace_adds.
  unfold Generate.require_mapper.
  set (ok := match get_access_mode rm with
             | mode_read | mode_write => true
             | _ => false
             end).
  destruct ok eqn:Hok; cbn [assert bind]; [|discriminate].
  assert (get_access_mode rm = mode_read \/ get_access_mode rm = mode_write) as Hrw
    by (subst ok; destruct (get_access_mode rm); auto; discriminate).
  destruct (Z.eqb_spec (get_kernel_dimensions rm) Dims) as [Hdims|];
    cbn [assert bind]; [|discriminate].
  intros Hloop. split; [split; assumption|].
  assert (Z.of_nat (length chunks) <= UINT_MAX) as Hbound.
  { destruct (Z_le_gt_dec (Z.of_nat (length chunks)) UINT_MAX) as [Hle|Hgt]; [exact Hle|].
    exfalso. refine (for_loop_uint_stuck _ _ _ fuel 0 _ _ reqs' Hloop);
      unfold UINT_MAX in *; lia. }
  apply (for_loop_returns_iterate uint_incr UINT_MAX _ uint_incr_small) in Hloop; [|lia..].
  rewrite Z.sub_0_r, Nat2Z.id in Hloop.
  pose (keeps := fun (k : Z) (s : gmap Z (list (buffer_id * @mode_requirements region))) =>
    (forall j chunk b mode,
       0 <= j < k -> chunks !! Z.to_nat j = Some chunk ->
       requirement_of s j b mode
       = if b =? bid then merged_over [rm] mode chunk (requirement_of reqs j b mode)
         else requirement_of reqs j b mode) /\
    (forall j b mode,
       j < 0 \/ k <= j -> requirement_of s j b mode = requirement_of reqs j b mode)).
  assert (keeps (0 + Z.of_nat (length chunks)) reqs') as [Hin Hout].
  { refine (iterate_invariant (require_chunk bid rm chunks) keeps 0 _ _ 0 _ reqs'
              (Z.le_refl 0) _ Hloop).
    - intros k s s' Hk [Hin Hout] Hstep.
      destruct (chunks !! Z.to_nat k) as [chunk_k|] eqn:Hchunk_k;
        [|unfold Generate.require_chunk in Hstep; rewrite Hchunk_k in Hstep; discriminate].
      pose proof (require_chunk_spec bid rm chunks k s s' chunk_k Hrw Hchunk_k Hstep)
        as Hspec.
      split.
      + intros j chunk b mode Hj Hchunk. rewrite Hspec.
        destruct (Z.eqb_spec j k) as [->|Hjk]; cbn [andb].
        * rewrite (Hout k b mode) by lia.
          assert (chunk = chunk_k) as -> by congruence. reflexivity.
        * apply Hin; [lia | exact Hchunk].
      + intros j b mode Hj. rewrite Hspec.
        destruct (Z.eqb_spec j k) as [->|Hjk]; [lia|]. cbn [andb]. apply Hout. lia.
    - split; [intros; lia | reflexivity]. }
  split.
  - intros j chunk b mode Hj Hchunk. apply Hin; [|exact Hchunk].
    apply lookup_lt_Some in Hchunk. lia.
  - intros j b mode Hj. apply Hout. lia.
Qed.

(** The range mappers of one buffer. *)
Lemma require_mappers_spec (fuel : nat) chunks bid (mappers : list (range_mapper R)) :
  forall reqs reqs',
    for_each (require_mapper fuel chunks bid) mappers reqs = Returns reqs' ->
    Forall (fun rm => (get_access_mode rm = mode_read \/ get_access_mode rm = mode_write) /\
                      get_kernel_dimensions rm = Dims) mappers /\
    (forall j chunk b mode,
       0 <= j -> chunks !! Z.to_nat j = Some chunk ->
       requirement_of reqs' j b mode
       = if b =? bid then merged_over mappers mode chunk (requirement_of reqs j b mode)
         else requirement_of reqs j b mode) /\
    (forall j b mode,
       j < 0 \/ Z.of_nat (length chunks) <= j ->
       requirement_of reqs' j b mode = requirement_of reqs j b mode).
Proof using emplace_adds.
  induction mappers as [|rm mappers IH]; intros reqs reqs'; cbn [for_each].
  - intros [= <-]. split; [constructor|]. split; [|reflexivity].
    intros j chunk b mode _ _. destruct (b =? bid); reflexivity.
  - destruct (require_mapper fuel chunks bid rm reqs) as [reqs1| |] eqn:Hrm; cbn [bind];
      try discriminate.
    intros Hrest. apply require_mapper_spec in Hrm as (Hok & Hin1 & Hout1).
    apply IH in Hrest as (Hoks & Hin & Hout).
    split; [constructor; assumption|]. split.
    + intros j chunk b mode Hj Hchunk.
      rewrite (Hin j chunk b mode Hj Hchunk), (Hin1 j chunk b mode Hj Hchunk).
      destruct (b =? bid); reflexivity.
    + intros j b mode Hj. rewrite Hout, Hout1 by exact Hj. reflexivity.
Qed.

(** The range mappers of all buffers. *)
Lemma require_all_spec (fuel : nat) chunks (rms : list (buffer_id * list (range_mapper R))) :
  forall reqs reqs',
    for_each (fun it reqs => for_each (require_mapper fuel chunks (fst it)) (snd it) reqs)
      rms reqs = Returns reqs' ->
    Forall (fun it =>
              Forall (fun rm => (get_access_mode rm = mode_read \/
                                 get_access_mode rm = mode_write) /\
                                get_kernel_dimensions rm = Dims) (snd it)) rms /\
    (forall j chunk b mode,
       0 <= j -> chunks !! Z.to_nat j = Some chunk ->
       requirement_of reqs' j b mode
       = merged_requirement rms b mode chunk (requirement_of reqs j b mode)) /\
    (forall j b mode,
       j < 0 \/ Z.of_nat (length chunks) <= j ->
       requirement_of reqs' j b mode = requirement_of reqs j b mode).
Proof using emplace_adds.
  induction rms as [|[bid mappers] rms IH]; intros reqs reqs'; cbn [for_each fst snd].
  - intros [= <-]. split; [constructor|]. split; reflexivity.
  - destruct (for_each (require_mapper fuel chunks bid) mappers reqs) as [reqs1| |] eqn:Hms;
      cbn [bind]; try discriminate.
    intros Hrest. apply require_mappers_spec in Hms as (Hok & Hin1 & Hout1).
    apply IH in Hrest as (Hoks & Hin & Hout).
    split; [constructor; assumption|]. split.
    + intros j chunk b mode Hj Hchunk.
      rewrite (Hin j chunk b mode Hj Hchunk), (Hin1 j chunk b mode Hj Hchunk).
      cbn [Outcomes.merged_requirement]. rewrite (Z.eqb_sym bid b). reflexivity.
    + intros j b mode Hj. rewrite Hout, Hout1 by exact Hj. reflexivity.
Qed.

Context {box buffer_state command_dag vertex task_vertices : Type}.
Variable get_source_nodes : buffer_state -> region -> list (box * list node_id).
Variable add_compute_cmd :
  command_id -> node_id -> task_vertices -> subrange range3 -> command_dag ->
  vertex * command_id * command_dag.
Variable promote : subrange R -> subrange range3.

(** X26.  Whenever [process_compute_task] returns, every range mapper of
    the task has the mode [read] or [write] and the dimensionality of the
    task, and the requirement of every chunk on a buffer in a mode is what
    was there merged with the regions that the range mappers of that buffer
    and mode map the chunk to, in their order; range mappers for another
    buffer or mode add nothing to it, and the requirements of other chunk
    ids are as they were. *)
Theorem chunk_requirements_are_merged (fuel : nat) (next_cmd_id : command_id)
    (tid : task_id) (ctsk : compute_task R) (num_worker_nodes : Z) (master_only : bool)
    (tv : task_vertices) (vbr : gmap Z buffer_state)
    (chunk_requirements : gmap Z (list (buffer_id * @mode_requirements region)))
    (chunk_buffer_sources : gmap Z (gmap Z (list (box * list node_id))))
    (chunk_command_vertices : list vertex) (command_graph : command_dag)
    (g : @generated region box command_dag vertex) :
  process_compute_task merge empty_region subrange_to_grid_region get_source_nodes
    umap_emplace add_compute_cmd promote fuel next_cmd_id tid ctsk num_worker_nodes
    master_only tv vbr chunk_requirements chunk_buffer_sources chunk_command_vertices
    command_graph = Returns g ->
  exists chunks,
    task_chunks fuel ctsk num_worker_nodes = Returns chunks /\
    Forall (fun it =>
              Forall (fun rm => (get_access_mode rm = mode_read \/
                                 get_access_mode rm = mode_write) /\
                                get_kernel_dimensions rm = Dims) (snd it))
      (get_range_mappers ctsk) /\
    (forall j chunk bid mode,
       0 <= j -> chunks !! Z.to_nat j = Some chunk ->
       requirement_of (gen_chunk_requirements g) j bid mode
       = merged_requirement (get_range_mappers ctsk) bid mode chunk
           (requirement_of chunk_requirements j bid mode)) /\
    (forall j bid mode,
       j < 0 \/ Z.of_nat (length chunks) <= j ->
       requirement_of (gen_chunk_requirements g) j bid mode
       = requirement_of chunk_requirements j bid mode).
Proof using emplace_adds.
  unfold process_compute_task.
  destruct (task_chunks fuel ctsk num_worker_nodes) as [chunks| |]; cbn [bind];
    try discriminate.
  destruct (for_each _ (get_range_mappers ctsk) chunk_requirements) as [reqs| |] eqn:Hreqs;
    cbn [bind]; try discriminate.
  destruct (initial_free_nodes fuel num_worker_nodes master_only) as [free| |];
    cbn [bind]; try discriminate.
  destruct (assign_chunks_to_nodes get_source_nodes fuel (Z.of_nat (length chunks)) reqs vbr
              free chunk_buffer_sources) as [assigned| |]; cbn [bind]; try discriminate.
  intros Hloop. exists chunks. split; [reflexivity|].
  assert (gen_chunk_requirements g = reqs) as ->.
  { eapply (for_loop_invariant size_incr _ _ (fun g => gen_chunk_requirements g = reqs));
      [| |exact Hloop]; [|reflexivity].
    intros i s s' Hs. unfold emit_compute. destruct (chunks !! Z.to_nat i); [|discriminate].
    destruct (add_compute_cmd _ _ _ _ _) as [[cv next'] graph'].
    intros [= <-]. exact Hs. }
  apply (require_all_spec fuel chunks (get_range_mappers ctsk) chunk_requirements reqs Hreqs).
Qed.

End Requirements.

Lemma chunk_requirements_are_merged_witness :
  exists g,
    process_compute_task (fun a b : list Z => a ++ b) [] (fun sr => [fst (fst (start sr))])
      (fun (bs : example_state) (_ : list Z) => bs) (fun bid reqs m => (bid, reqs) :: m)
      (fun (next : Z) (nid : Z) (_ : unit) sr (graph : list (Z * Z)) =>
         (length graph, next + 1, graph ++ [(next, nid)]))
      (fun c : subrange range1 =>
         mk_subrange (start c, 0, 0) (range c, 1, 1) (global_size c, 1, 1))
      10 0 0
      (mk_compute_task 100
         [(7, [mk_range_mapper range1 mode_read 1 1
                 (fun c : subrange range1 =>
                    mk_subrange (start c, 0, 0) (range c, 1, 1) (global_size c, 1, 1))
                 (fun c => mk_subrange (0, 0, 0) (0, 0, 0) (0, 0, 0))
                 (fun c => mk_subrange (0, 0, 0) (0, 0, 0) (0, 0, 0));
               mk_range_mapper range1 mode_read 1 1
                 (fun c : subrange range1 =>
                    mk_subrange (start c + 1, 0, 0) (range c, 1, 1) (global_size c, 1, 1))
                 (fun c => mk_subrange (0, 0, 0) (0, 0, 0) (0, 0, 0))
                 (fun c => mk_subrange (0, 0, 0) (0, 0, 0) (0, 0, 0))])])
      2 false tt {[ 7 := [(0%nat, [2])] ]} ∅ ∅ [] [] = Returns g /\
    requirement_of (gen_chunk_requirements g) 1 7 mode_read = Some [50; 51].
Proof.
  match goal with
  | |- exists g, ?run = Returns g /\ _ => destruct run as [g| |] eqn:Hrun
  end; [|vm_compute in Hrun; discriminate..].
  exists g. split; [reflexivity|].
  assert (forall (bid : Z) (v : @mode_requirements (list Z)) m k,
            assoc bid m = None ->
            assoc k ((bid, v) :: m) = if k =? bid then Some v else assoc k m) as Hemplace
    by (intros bid v m k _; cbn [assoc]; rewrite (Z.eqb_sym bid k); reflexivity).
  destruct (chunk_requirements_are_merged (fun a b : list Z => a ++ b) []
              (fun sr => [fst (fst (start sr))]) (fun bid reqs m => (bid, reqs) :: m)
              Hemplace _ _ _ _ _ _ _ _ _ _ _ _ _ _ _ _ Hrun)
    as (chunks & Hchunks & _ & Hmerged & _).
  vm_compute in Hchunks. injection Hchunks as <-.
  rewrite (Hmerged 1 (mk_subrange 50 50 100) 7 mode_read ltac:(lia) eq_refl). reflexivity.
Defined.

End RequirementProofs.

(** ** Every worker gets a chunk *)

Module WorkerProofs.
Import Split Generate Outcomes MachineFacts LoopFacts SplitProofs ChunkProofs AssignProofs.
Import FreeNodeProofs AssignmentProofs RequirementProofs.
Local Open Scope Z_scope.

Section Workers.
Context {region box buffer_state : Type}.
Variable get_source_nodes : buffer_state -> region -> list (box * list node_id).

Abbreviation assign_chunk := (assign_chunk get_source_nodes).

(** What the rounds of the assignment carry on when every chunk has an
    entry, round [k] being next: the chunks below [k] and the free nodes no
    longer free correspond one to one. *)
Let paired (free : list node_id) (k : Z) (st : @assignment box) : Prop :=
  StronglySorted Z.lt (free_nodes st) /\
  (forall n, n ∈ free_nodes st -> n ∈ free) /\
  (forall j, is_Some (chunk_nodes st !! j) <-> 0 <= j < k) /\
  (forall j n, chunk_nodes st !! j = Some n -> n ∈ free /\ (n ∉ free_nodes st)) /\
  (forall n, n ∈ free -> n ∈ free_nodes st \/ exists j, chunk_nodes st !! j = Some n) /\
  (forall i j n, chunk_nodes st !! i = Some n -> chunk_nodes st !! j = Some n -> i = j) /\
  Z.of_nat (length (free_nodes st)) + k = Z.of_nat (length free).

Lemma assign_chunk_pairs chunk_reqs vbr free k st st' :
  0 <= k ->
  (exists first rest, chunk_reqs !! k = Some (first :: rest)) ->
  paired free k st -> assign_chunk chunk_reqs vbr k st = Returns st' ->
  paired free (k + 1) st'.
Proof using Type.
  intros Hk (first & rest & Hentries) (Hsorted & Hsub & Hdom & Hval & Hcover & Hinj & Hlen)
    Hrun.
  apply assign_chunk_effect in Hrun as (entries & Hentries' & Heffect).
  rewrite Hentries in Hentries'. injection Hentries' as <-.
  destruct Heffect as (first_free & others & Hnodes & Hf & Hc). cbv zeta in Hf, Hc.
  set (nid := picked (free_nodes st) (source_nodes_of get_source_nodes vbr first) first_free)
    in *.
  assert (nid ∈ free_nodes st) as Hnid.
  { rewrite Hnodes in Hsorted. subst nid. rewrite Hnodes.
    apply (picked_properties first_free others _ Hsorted). }
  assert (chunk_nodes st !! k = None) as Hfresh.
  { destruct (chunk_nodes st !! k) eqn:Hhere; [|reflexivity].
    assert (0 <= k < k) by (apply Hdom; eauto). lia. }
  unfold paired. rewrite Hf, Hc.
  split; [apply set_erase_sorted, Hsorted|].
  split; [intros n Hn; apply elem_of_set_erase in Hn as [Hn _]; apply Hsub, Hn|].
  split; [|split; [|split; [|split]]].
  - intros j. destruct (Z.eq_dec k j) as [<-|Hne].
    + rewrite lookup_insert_eq. split; [lia | eauto].
    + rewrite lookup_insert_ne by exact Hne. rewrite Hdom. lia.
  - intros j n. rewrite elem_of_set_erase. destruct (Z.eq_dec k j) as [<-|Hne].
    + rewrite lookup_insert_eq. intros [= <-]. split; [apply Hsub, Hnid | tauto].
    + rewrite lookup_insert_ne by exact Hne. intros Hj. apply Hval in Hj. tauto.
  - intros n Hn. rewrite elem_of_set_erase.
    destruct (Z.eq_dec n nid) as [->|Hne].
    + right. exists k. apply lookup_insert_eq.
    + destruct (Hcover n Hn) as [Hfree|(j & Hj)]; [left; auto|].
      right. exists j. rewrite lookup_insert_ne; [exact Hj|]. intros <-. congruence.
  - intros i j n. destruct (Z.eq_dec k i) as [<-|Hi], (Z.eq_dec k j) as [<-|Hj].
    + reflexivity.
    + rewrite lookup_insert_eq, lookup_insert_ne by exact Hj. intros [= <-] Hother.
      apply Hval in Hother. tauto.
    + rewrite lookup_insert_eq, lookup_insert_ne by exact Hi. intros Hother [= <-].
      apply Hval in Hother. tauto.
    + rewrite !lookup_insert_ne by assumption. apply Hinj.
  - pose proof (set_erase_length nid _ Hsorted Hnid). lia.
Qed.

(** The assignment pairs chunks and free nodes. *)
Lemma assignment_pairs chunk_reqs vbr (fuel : nat) (num_chunks : Z) (free : list node_id)
    sources nodes sources' :
  StronglySorted Z.lt free -> 0 <= num_chunks ->
  (forall i, 0 <= i < num_chunks ->
     exists first rest, chunk_reqs !! i = Some (first :: rest)) ->
  assign_chunks_to_nodes get_source_nodes fuel num_chunks chunk_reqs vbr free sources
  = Returns (nodes, sources') ->
  num_chunks <= Z.of_nat (length free) /\
  (forall i, is_Some (nodes !! i) <-> 0 <= i < num_chunks) /\
  (forall i n, nodes !! i = Some n -> n ∈ free) /\
  (forall i j n, nodes !! i = Some n -> nodes !! j = Some n -> i = j) /\
  (Z.of_nat (length free) = num_chunks ->
   forall n, n ∈ free -> exists i, nodes !! i = Some n).
Proof using Type.
  intros Hsorted Hn Hreqs. unfold assign_chunks_to_nodes.
  destruct (for_loop uint_incr fuel num_chunks _ 0 _) as [st| |] eqn:Hloop; cbn [bind];
    try discriminate.
  intros [= <- <-].
  assert (num_chunks <= UINT_MAX) as Hbound.
  { destruct (Z_le_gt_dec num_chunks UINT_MAX) as [Hle|Hgt]; [exact Hle|]. exfalso.
    refine (for_loop_uint_stuck _ _ _ fuel 0 _ _ st Hloop); unfold UINT_MAX in *; lia. }
  apply (for_loop_returns_iterate uint_incr UINT_MAX _ uint_incr_small) in Hloop; [|lia..].
  rewrite Z.sub_0_r in Hloop.
  assert (paired free (0 + Z.of_nat (Z.to_nat num_chunks)) st) as Hpaired.
  { set (upto := fun (k : Z) (s : @assignment box) => k <= num_chunks -> paired free k s).
    enough (upto (0 + Z.of_nat (Z.to_nat num_chunks)) st) as Hupto by (apply Hupto; lia).
    refine (iterate_invariant (assign_chunk chunk_reqs vbr) upto 0 _ _ 0 _ st
              (Z.le_refl 0) _ Hloop).
    - intros k s s' Hk Hs Hstep Hle.
      destruct (Z_lt_le_dec k num_chunks) as [Hlt|Hge].
      + apply (assign_chunk_pairs chunk_reqs vbr free k s s' Hk);
          [apply Hreqs; lia | | exact Hstep].
        apply Hs. lia.
      + lia.
    - intros _. unfold paired. cbn [free_nodes chunk_nodes].
      split; [exact Hsorted|]. split; [auto|]. split.
      { intros j. rewrite lookup_empty. split; [intros [x Hx]; discriminate | lia]. }
      split; [intros j n; rewrite lookup_empty; discriminate|].
      split; [auto|]. split; [intros i j n; rewrite lookup_empty; discriminate | lia]. }
  rewrite Z.add_0_l, Z2Nat.id in Hpaired by lia.
  destruct Hpaired as (_ & _ & Hdom & Hval & Hcover & Hinj & Hlen).
  split; [lia|]. split; [exact Hdom|]. split; [intros i n Hi; apply (Hval i n Hi)|].
  split; [exact Hinj|]. intros Hall n Hfree.
  destruct (Hcover n Hfree) as [Hleft|Hassigned]; [|exact Hassigned].
  destruct (free_nodes st); [inversion Hleft | cbn in Hlen; lia].
Qed.

(** X27.  When [assign_chunks_to_nodes] returns for chunks that all have
    a requirement on some buffer, the chunks [0 <= i < num_chunks] are
    exactly those with a node, the nodes are free nodes, and no two chunks
    share one; and with as many free nodes as chunks every free node gets a
    chunk. *)
Theorem assignment_is_one_to_one chunk_reqs vbr (fuel : nat) (num_chunks : Z)
    (free : list node_id) sources nodes sources' :
  StronglySorted Z.lt free -> 0 <= num_chunks ->
  (forall i, 0 <= i < num_chunks ->
     exists first rest, chunk_reqs !! i = Some (first :: rest)) ->
  assign_chunks_to_nodes get_source_nodes fuel num_chunks chunk_reqs vbr free sources
  = Returns (nodes, sources') ->
  num_chunks <= Z.of_nat (length free) /\
  (forall i, is_Some (nodes !! i) <-> 0 <= i < num_chunks) /\
  (forall i n, nodes !! i = Some n -> n ∈ free) /\
  (forall i j n, nodes !! i = Some n -> nodes !! j = Some n -> i = j) /\
  (Z.of_nat (length free) = num_chunks ->
   forall n, n ∈ free -> exists i, nodes !! i = Some n).
Proof using Type. apply assignment_pairs. Qed.

End Workers.

Lemma assignment_is_one_to_one_witness :
  exists nodes sources,
    assign_chunks_to_nodes example_sources 5 2
      {[ 0 := [(7, mk_mode_requirements (Some tt) None)];
         1 := [(7, mk_mode_requirements (Some tt) None)] ]}
      {[ 7 := [(0%nat, [2])] ]} [1; 2] ∅ = Returns (nodes, sources) /\
    (exists i, nodes !! i = Some 1) /\ (exists i, nodes !! i = Some 2).
Proof.
  destruct (assign_chunks_to_nodes example_sources 5 2
              {[ 0 := [(7, mk_mode_requirements (Some tt) None)];
                 1 := [(7, mk_mode_requirements (Some tt) None)] ]}
              {[ 7 := [(0%nat, [2])] ]} [1; 2] ∅) as [[nodes sources]| |] eqn:Hrun;
    [|vm_compute in Hrun; discriminate..].
  exists nodes, sources. split; [reflexivity|].
  destruct (assignment_is_one_to_one example_sources
              {[ 0 := [(7, mk_mode_requirements (Some tt) None)];
                 1 := [(7, mk_mode_requirements (Some tt) None)] ]}
              {[ 7 := [(0%nat, [2])] ]} 5 2 [1; 2] ∅ nodes sources)
    as (_ & _ & _ & _ & Hall); [| | |exact Hrun|].
  - repeat constructor; lia.
  - lia.
  - intros i Hi. assert (i = 0 \/ i = 1) as [-> | ->] by lia; eexists _, _; reflexivity.
  - split; apply (Hall eq_refl); [left | right; left].
Defined.

Section ComputeTask.
Context {region box buffer_state : Type}.
Variable merge : region -> region -> region.
Variable empty_region : region.
Variable subrange_to_grid_region : subrange range3 -> region.
Variable get_source_nodes : buffer_state -> region -> list (box * list node_id).
Variable umap_emplace :
  buffer_id -> @mode_requirements region -> list (buffer_id * @mode_requirements region) ->
  list (buffer_id * @mode_requirements region).
Context {command_dag vertex task_vertices : Type}.
Variable add_compute_cmd :
  command_id -> node_id -> task_vertices -> subrange range3 -> command_dag ->
  vertex * command_id * command_dag.

(** A new key of a [std::unordered_map] comes with its value and leaves the
    other entries as they are, wherever it lands. *)
Hypothesis emplace_adds : forall bid v m k,
  assoc bid m = None ->
  assoc k (umap_emplace bid v m) = if k =? bid then Some v else assoc k m.

Section AnyDimension.
Context {R : Type} `{Dimension R} `{Splittable R}.
Variable promote : subrange R -> subrange range3.

Abbreviation merged_over := (@merged_over region R merge empty_region subrange_to_grid_region).
Abbreviation merged_requirement :=
  (@merged_requirement region R merge empty_region subrange_to_grid_region).

Lemma merged_over_some (mappers : list (range_mapper R)) mode chunk : forall acc,
  is_Some acc -> is_Some (merged_over mappers mode chunk acc).
Proof using Type.
  induction mappers as [|rm mappers IH]; intros acc Hacc; cbn [Outcomes.merged_over];
    [exact Hacc|].
  apply IH. destruct (same_mode (get_access_mode rm) mode); [eauto | exact Hacc].
Qed.

Lemma merged_requirement_some (rms : list (buffer_id * list (range_mapper R))) bid mode chunk :
  forall acc, is_Some acc -> is_Some (merged_requirement rms bid mode chunk acc).
Proof using Type.
  induction rms as [|[b mappers] rms IH]; intros acc Hacc;
    cbn [Outcomes.merged_requirement]; [exact Hacc|].
  apply IH. destruct (b =? bid); [apply merged_over_some, Hacc | exact Hacc].
Qed.

Lemma merged_requirement_hit (rms : list (buffer_id * list (range_mapper R))) bid rm mappers
    chunk :
  (bid, rm :: mappers) ∈ rms ->
  forall acc, is_Some (merged_requirement rms bid (get_access_mode rm) chunk acc).
Proof using Type.
  induction rms as [|[b ms] rms IH]; intros Hin acc; [inversion Hin|].
  cbn [Outcomes.merged_requirement]. apply elem_of_cons in Hin as [[= <- <-]|Hin].
  - apply merged_requirement_some. rewrite Z.eqb_refl. cbn [Outcomes.merged_over].
    apply merged_over_some.
    assert (same_mode (get_access_mode rm) (get_access_mode rm) = true) as ->
      by (destruct (get_access_mode rm); reflexivity).
    eauto.
  - apply IH, Hin.
Qed.

(** A compute task with a range mapper, on workers. *)
Lemma compute_task_pairs (fuel : nat) (next_cmd_id : command_id) (tid : task_id)
    (ctsk : compute_task R) (n : Z) (tv : task_vertices) (vbr : gmap Z buffer_state)
    (chunk_buffer_sources : gmap Z (gmap Z (list (box * list node_id))))
    (chunk_command_vertices : list vertex) (command_graph : command_dag)
    (chunks : list (subrange R)) (g : @generated region box command_dag vertex) :
  1 <= n < UINT_MAX -> (Z.to_nat n + 1 < fuel)%nat ->
  task_chunks fuel ctsk n = Returns chunks -> length chunks = Z.to_nat n ->
  Exists (fun it => snd it <> []) (get_range_mappers ctsk) ->
  process_compute_task merge empty_region subrange_to_grid_region get_source_nodes
    umap_emplace add_compute_cmd promote fuel next_cmd_id tid ctsk n false tv vbr ∅
    chunk_buffer_sources chunk_command_vertices command_graph = Returns g ->
  (forall i, is_Some (gen_chunk_nodes g !! i) <-> 0 <= i < n) /\
  (forall i w, gen_chunk_nodes g !! i = Some w -> 1 <= w <= n) /\
  (forall i j w, gen_chunk_nodes g !! i = Some w -> gen_chunk_nodes g !! j = Some w -> i = j) /\
  (forall w, 1 <= w <= n -> exists i, gen_chunk_nodes g !! i = Some w).
Proof using emplace_adds.
  intros Hn Hfuel Hchunks Hlen Hmappers. unfold process_compute_task.
  rewrite Hchunks. cbn [bind].
  destruct (for_each _ (get_range_mappers ctsk) ∅) as [reqs| |] eqn:Hreqs; cbn [bind];
    try discriminate.
  rewrite initial_free_nodes_closed by assumption. cbn [bind].
  destruct (assign_chunks_to_nodes get_source_nodes fuel (Z.of_nat (length chunks)) reqs vbr
              (node_range 1 (Z.to_nat n)) chunk_buffer_sources) as [[nodes sources]| |]
    eqn:Hassign; cbn [bind fst snd]; try discriminate.
  intros Hloop.
  apply (require_all_spec merge empty_region subrange_to_grid_region umap_emplace
           emplace_adds) in Hreqs as (Hmodes & Hmerged & _).
  assert (forall i, 0 <= i < Z.of_nat (length chunks) ->
            exists first rest, reqs !! i = Some (first :: rest)) as Hentries.
  { intros i Hi. destruct (chunks !! Z.to_nat i) as [chunk|] eqn:Hchunk;
      [|apply lookup_ge_None in Hchunk; lia].
    apply Exists_exists in Hmappers as ([bid mappers] & Hin & Hsome). cbn [snd] in Hsome.
    destruct mappers as [|rm mappers]; [contradiction|].
    rewrite Forall_forall in Hmodes. pose proof (Hmodes _ Hin) as Hok. cbn [snd] in Hok.
    apply Forall_cons in Hok as [[Hmode _] _].
    pose proof (merged_requirement_hit _ bid rm mappers chunk Hin
                  (requirement_of ∅ i bid (get_access_mode rm))) as Hhit.
    rewrite <- (Hmerged i chunk bid (get_access_mode rm)) in Hhit by (try exact Hchunk; lia).
    unfold requirement_of in Hhit. destruct (reqs !! i) as [entries|];
      cbn [mbind option_bind] in Hhit; [|destruct Hhit; discriminate].
    destruct entries as [|first rest]; [destruct Hhit; discriminate | eauto]. }
  destruct (assignment_pairs get_source_nodes reqs vbr fuel (Z.of_nat (length chunks))
              (node_range 1 (Z.to_nat n)) chunk_buffer_sources nodes sources
              (node_range_sorted 1 _) ltac:(lia) Hentries Hassign)
    as (_ & Hdom & Hfree & Hinj & Hall).
  rewrite node_range_length in Hall. specialize (Hall ltac:(lia)).
  assert (gen_chunk_nodes g = nodes) as ->.
  { apply (for_loop_returns_iterate size_incr SIZE_MAX _ size_incr_small) in Hloop;
      [|unfold UINT_MAX, SIZE_MAX in *; lia..].
    refine (iterate_invariant (emit_compute add_compute_cmd promote tv chunks)
              (fun _ g => gen_chunk_nodes g = nodes) 0 _ _ 0 _ g (Z.le_refl 0) _ Hloop);
      [|reflexivity].
    intros k s s' Hk Hs. unfold emit_compute.
    destruct (chunks !! Z.to_nat k) as [chunk|] eqn:Hchunk; [|discriminate].
    destruct (add_compute_cmd _ _ _ _ _) as [[cv next'] graph'].
    intros [= <-]. cbn [gen_chunk_nodes]. rewrite Hs.
    apply lookup_lt_Some in Hchunk.
    destruct (proj2 (Hdom k) ltac:(lia)) as [w Hw]. rewrite Hw. cbn [default from_option id].
    apply insert_id, Hw. }
  split; [intros i; rewrite Hdom; lia|].
  split; [intros i w Hw; apply Hfree, elem_of_node_range in Hw; lia|].
  split; [exact Hinj|].
  intros w Hw. apply Hall, elem_of_node_range. lia.
Qed.

End AnyDimension.

(** X28.  On [num_nodes >= 2] nodes, a compute task of one or two
    dimensions that has a range mapper is spread over the workers: whenever
    [build_command_graph] gets through [process_compute_task], the chunks
    are the [num_nodes - 1] chunks [0 <= i < num_nodes - 1], every chunk
    has a node among the workers [1 .. num_nodes - 1], never the master, no two
    chunks share a node, and every worker has a chunk. *)
Theorem compute_task_occupies_every_worker (fuel : nat) (world_size : Z)
    (next_cmd_id : command_id) (tid : task_id) (tv : task_vertices)
    (vbr : gmap Z buffer_state) (graph : command_dag)
    (g : @generated region box command_dag vertex) :
  2 <= world_size <= INT_MAX -> (Z.to_nat world_size < fuel)%nat ->
  let workers := world_size - 1 in
  let spread :=
    (forall i, is_Some (gen_chunk_nodes g !! i) <-> 0 <= i < workers) /\
    (forall i w, gen_chunk_nodes g !! i = Some w -> 1 <= w <= workers) /\
    (forall i j w,
       gen_chunk_nodes g !! i = Some w -> gen_chunk_nodes g !! j = Some w -> i = j) /\
    (forall w, 1 <= w <= workers -> exists i, gen_chunk_nodes g !! i = Some w) in
  (forall (ctsk : compute_task range1) promote,
     is_size (get_global_size ctsk) ->
     Exists (fun it => snd it <> []) (get_range_mappers ctsk) ->
     build_compute_task merge empty_region subrange_to_grid_region get_source_nodes
       umap_emplace add_compute_cmd promote fuel (runtime_num_nodes world_size)
       next_cmd_id tid ctsk tv vbr graph = Returns g ->
     spread) /\
  (forall (ctsk : compute_task range2) promote,
     is_size (fst (get_global_size ctsk)) ->
     Exists (fun it => snd it <> []) (get_range_mappers ctsk) ->
     build_compute_task merge empty_region subrange_to_grid_region get_source_nodes
       umap_emplace add_compute_cmd promote fuel (runtime_num_nodes world_size)
       next_cmd_id tid ctsk tv vbr graph = Returns g ->
     spread).
Proof using emplace_adds.
  intros Hws Hfuel workers spread.
  destruct (num_worker_nodes_max world_size ltac:(lia)) as (Hnodes & Hworkers & _).
  assert (num_worker_nodes (runtime_num_nodes world_size) = workers) as Hn
    by (rewrite Hworkers; unfold workers; lia).
  assert (master_only (runtime_num_nodes world_size) = false) as Honly
    by (rewrite Hnodes; unfold master_only; destruct (Z.eqb_spec world_size 1); [lia|];
        reflexivity).
  assert (1 <= workers < UINT_MAX) as Hrange
    by (unfold workers, INT_MAX, UINT_MAX in *; lia).
  assert (Z.to_nat workers + 1 < fuel)%nat as Hfuel' by (unfold workers; lia).
  split; intros ctsk promote Hgs Hmappers; unfold build_compute_task;
    rewrite Hn, Honly; intros Hrun.
  - refine (compute_task_pairs promote fuel next_cmd_id tid ctsk workers tv vbr ∅ [] graph
              _ g Hrange Hfuel' _ _ Hmappers Hrun).
    + apply task_chunks_1; [exact Hgs | unfold UINT_MAX in *; lia | lia].
    + apply equal_chunks_length.
  - refine (compute_task_pairs promote fuel next_cmd_id tid ctsk workers tv vbr ∅ [] graph
              _ g Hrange Hfuel' _ _ Hmappers Hrun).
    + apply task_chunks_2; [exact Hgs | unfold UINT_MAX in *; lia | lia].
    + rewrite length_map. apply equal_chunks_length.
Qed.

End ComputeTask.

Lemma compute_task_occupies_every_worker_witness :
  exists g,
    build_compute_task (fun _ _ => tt) tt (fun _ => tt) example_sources
      (fun bid reqs m => (bid, reqs) :: m)
      (fun (next : Z) (nid : Z) (_ : unit) sr (graph : list (Z * Z)) =>
         (length graph, next + 1, graph ++ [(next, nid)]))
      (fun c : subrange range1 =>
         mk_subrange (start c, 0, 0) (range c, 1, 1) (global_size c, 1, 1))
      10 (runtime_num_nodes 3) 0 0
      (mk_compute_task 100
         [(7, [mk_range_mapper range1 mode_read 1 1
                 (fun c : subrange range1 =>
                    mk_subrange (start c, 0, 0) (range c, 1, 1) (global_size c, 1, 1))
                 (fun c => mk_subrange (0, 0, 0) (0, 0, 0) (0, 0, 0))
                 (fun c => mk_subrange (0, 0, 0) (0, 0, 0) (0, 0, 0))])])
      tt {[ 7 := [(0%nat, [2])] ]} [] = Returns g /\
    (exists i, gen_chunk_nodes g !! i = Some 1) /\
    (exists i, gen_chunk_nodes g !! i = Some 2).
Proof.
  match goal with
  | |- exists g, ?run = Returns g /\ _ => destruct run as [g| |] eqn:Hrun
  end; [|vm_compute in Hrun; discriminate..].
  exists g. split; [reflexivity|].
  assert (forall (bid : Z) (v : @mode_requirements unit) m k,
            assoc bid m = None ->
            assoc k ((bid, v) :: m) = if k =? bid then Some v else assoc k m) as Hemplace
    by (intros bid v m k _; cbn [assoc]; rewrite (Z.eqb_sym bid k); reflexivity).
  destruct (compute_task_occupies_every_worker (fun _ _ => tt) tt (fun _ => tt)
              example_sources (fun bid reqs m => (bid, reqs) :: m)
              (fun (next : Z) (nid : Z) (_ : unit) sr (graph : list (Z * Z)) =>
                 (length graph, next + 1, graph ++ [(next, nid)]))
              Hemplace 10 3 0 0 tt {[ 7 := [(0%nat, [2])] ]} [] g) as [Hone _].
  - unfold INT_MAX. lia.
  - vm_compute. lia.
  - pose proof (fun Hsize Hmappers => Hone _ _ Hsize Hmappers Hrun) as Hspread.
    destruct Hspread as (_ & _ & _ & Hall).
    + unfold is_size, SIZE_MAX. cbn. lia.
    + apply Exists_cons_hd. discriminate.
    + split; apply Hall; lia.
Defined.

End WorkerProofs.
